(** * Flyfront data-access layer: CacheService, ApiService, WebSocketService

    A shallow embedding of the reactive data-access layer of the
    repository (libs/data-access) and the properties stated about it.

    Conventions of the embedding.
    - Every service is a record of its private fields; a method is a
      function from the state before the call to the result and the state
      after it.
    - [Date.now()] is an argument of the method that reads it (milliseconds,
      an integer); the paginated stream, a closure that lives across many
      calls, keeps the clock in its state.
    - JavaScript numbers that hold counts, delays and timestamps are
      integers ([Z] or [nat]); no claim below depends on fractions.
    - RxJS operators are modelled by what they do to the service: the
      moments at which a source is subscribed, a value is delivered, a timer
      is armed.  The events of the outside world (a response arrives, a
      socket closes, a timer fires) are inputs of the model. *)

From Stdlib Require Import ZArith List String Bool Lia.
From stdpp Require Import gmap strings list fin_maps pretty.

Local Open Scope Z_scope.

(** ** Values and errors travelling through the streams *)

(** A cached payload is typed [unknown] in the source; [VNull] is the
    JavaScript [null], which the cache also uses for "absent". *)
Inductive value : Type :=
  | VNull
  | VNum (n : Z)
  | VStr (s : string)
  | VBool (b : bool).

Definition is_null (v : value) : bool :=
  match v with VNull => true | _ => false end.

(** The errors the streams of this layer carry: the transport's
    [HttpErrorResponse], the normalised [ApiErrorResponse] built by
    [ApiService.handleError] (its [code] is the status rendered as a
    string), and a plain [Error]. *)
Inductive error : Type :=
  | HttpErrorResponse (status : Z)
  | ApiErrorResponse (code : string)
  | JsError (message : string).

Inductive notification : Type :=
  | Next (v : value)
  | Error (e : error)
  | Complete.

(** ** [shareReplay(1)]

    The multicast operator both services put behind their cached streams
    (RxJS 7: one replay buffer, no reference counting; the source is
    subscribed when the first subscriber arrives, an error resets the
    operator, a completion keeps the buffer). *)
Module ShareReplay.

Record t : Type := mk {
  connected : bool;            (* a subscription to the source is open *)
  buffer : option value;       (* the last value, replayed to late subscribers *)
  completed : bool;
  subscribers : list nat;
  sourceSubscriptions : nat    (* how often the source was subscribed *)
}.

Definition init : t := mk false None false [] 0.

Definition replay (sub : nat) (o : t) : list (nat * notification) :=
  match buffer o with
  | Some v => [(sub, Next v)]
  | None => []
  end.

(** [subscribe]: the boolean tells the caller that the source has just
    been subscribed (the cold source starts its work now). *)
Definition subscribe (sub : nat) (o : t) : bool * list (nat * notification) * t :=
  if completed o then (false, replay sub o ++ [(sub, Complete)], o)
  else if connected o then
    (false, replay sub o,
     mk true (buffer o) false (subscribers o ++ [sub]) (sourceSubscriptions o))
  else
    (true, replay sub o,
     mk true (buffer o) false (subscribers o ++ [sub]) (S (sourceSubscriptions o))).

Definition next (v : value) (o : t) : list (nat * notification) * t :=
  (map (fun sub => (sub, Next v)) (subscribers o),
   mk (connected o) (Some v) (completed o) (subscribers o) (sourceSubscriptions o)).

Definition error (e : error) (o : t) : list (nat * notification) * t :=
  (map (fun sub => (sub, Error e)) (subscribers o),
   mk false None false [] (sourceSubscriptions o)).

Definition complete (o : t) : list (nat * notification) * t :=
  (map (fun sub => (sub, Complete)) (subscribers o),
   mk false (buffer o) true [] (sourceSubscriptions o)).

End ShareReplay.

(** ** CacheService (services/cache.service.ts) *)
Module CacheService.

Record CacheEntry : Type := mkEntry {
  data : value;
  expiry : Z;
  createdAt : Z
}.

Record CacheStats : Type := mkStats {
  hits : nat;
  misses : nat;
  size : nat
}.

(** A stream built by [wrap]: [factory().pipe(tap(..), shareReplay(1))].
    The closure of [tap] captures [key] and [ttl]. *)
Record Pending : Type := mkPending {
  p_key : string;
  p_ttl : Z;
  p_share : ShareReplay.t
}.

(** The private fields of the service.  [observables] maps a key to the
    handle of a stream in [streams] (its position), so that two callers
    given the same handle hold the same object.  [factoryCalls] logs the
    calls of [factory()], by key. *)
Record t : Type := mkState {
  cache : gmap string CacheEntry;
  observables : gmap string nat;
  invalidated : list string;
  _stats : CacheStats;
  streams : list Pending;
  factoryCalls : list string
}.

Definition empty : t :=
  mkState ∅ ∅ [] (mkStats 0 0 0) [] [].

Definition with_cache (c : gmap string CacheEntry) (s : t) : t :=
  mkState c (observables s) (invalidated s) (_stats s) (streams s) (factoryCalls s).
Definition with_observables (o : gmap string nat) (s : t) : t :=
  mkState (cache s) o (invalidated s) (_stats s) (streams s) (factoryCalls s).
Definition with_invalidated (l : list string) (s : t) : t :=
  mkState (cache s) (observables s) l (_stats s) (streams s) (factoryCalls s).
Definition with_stats (st : CacheStats) (s : t) : t :=
  mkState (cache s) (observables s) (invalidated s) st (streams s) (factoryCalls s).
Definition with_streams (l : list Pending) (s : t) : t :=
  mkState (cache s) (observables s) (invalidated s) (_stats s) l (factoryCalls s).
Definition with_factoryCalls (l : list string) (s : t) : t :=
  mkState (cache s) (observables s) (invalidated s) (_stats s) (streams s) l.

(** [Date.now() > entry.expiry] *)
Definition isExpired (now : Z) (entry : CacheEntry) : bool :=
  expiry entry <? now.

Definition recordHit (s : t) : t :=
  with_stats (mkStats (S (hits (_stats s))) (misses (_stats s)) (size (_stats s))) s.

Definition recordMiss (s : t) : t :=
  with_stats (mkStats (hits (_stats s)) (S (misses (_stats s))) (size (_stats s))) s.

Definition updateSize (s : t) : t :=
  with_stats (mkStats (hits (_stats s)) (misses (_stats s)) (base.size (cache s))) s.

Definition delete (key : string) (s : t) : bool * t :=
  let deleted := bool_decide (is_Some (cache s !! key)) in
  let s1 := with_observables (base.delete key (observables s))
              (with_cache (base.delete key (cache s)) s) in
  if deleted
  then (true, updateSize (with_invalidated (invalidated s1 ++ [key]) s1))
  else (false, s1).

Definition get (now : Z) (key : string) (s : t) : value * t :=
  match cache s !! key with
  | None => (VNull, recordMiss s)
  | Some entry =>
      if isExpired now entry
      then (VNull, recordMiss (snd (delete key s)))
      else (data entry, recordHit s)
  end.

(** [set]: the object literal reads the clock twice, [now] for [expiry]
    and [created] for [createdAt]. *)
Definition set (now created : Z) (key : string) (v : value) (ttl : Z) (s : t) : t :=
  updateSize (with_cache (<[key := mkEntry v (now + ttl) created]> (cache s)) s).

Definition has (now : Z) (key : string) (s : t) : bool * t :=
  match cache s !! key with
  | None => (false, s)
  | Some entry =>
      if isExpired now entry then (false, snd (delete key s)) else (true, s)
  end.

(** [clear] and [keys] walk the map; the order of a JavaScript [Map]
    (insertion order) is not kept by the model. *)
Definition clear (s : t) : t :=
  let keys := map fst (map_to_list (cache s)) in
  with_stats (mkStats 0 0 0)
    (with_invalidated (invalidated s ++ keys)
       (with_observables ∅ (with_cache ∅ s))).

Definition keys (s : t) : list string := map fst (map_to_list (cache s)).

(** What [wrap] hands back: [of(cached)], or the shared stream with
    handle [h]. *)
Inductive wrapped : Type :=
  | Of (v : value)
  | Stream (h : nat).

Definition wrap (now : Z) (key : string) (ttl : Z) (s : t) : wrapped * t :=
  let '(cached, s1) := get now key s in
  if negb (is_null cached) then (Of cached, s1)
  else
    match observables s1 !! key with
    | Some pending => (Stream pending, s1)
    | None =>
        let h := length (streams s1) in
        (Stream h,
         with_observables (<[key := h]> (observables s1))
           (with_streams (streams s1 ++ [mkPending key ttl ShareReplay.init])
              (with_factoryCalls (factoryCalls s1 ++ [key]) s1)))
    end.

(** Replace the [shareReplay] state of stream [h]. *)
Definition set_share (h : nat) (o : ShareReplay.t) (s : t) : t :=
  with_streams
    (alter (fun p => mkPending (p_key p) (p_ttl p) o) h (streams s)) s.

(** A caller subscribes to the stream with handle [h]. *)
Definition subscribe (h sub : nat) (s : t) : list (nat * notification) * t :=
  match streams s !! h with
  | None => ([], s)
  | Some p =>
      let '(_, out, o) := ShareReplay.subscribe sub (p_share p) in
      (out, set_share h o s)
  end.

(** The source of stream [h] emits [v]: [tap] stores it and forgets the
    pending stream of the key, then [shareReplay] delivers it.  A source
    nobody subscribed to does not run. *)
Definition source_next (now created : Z) (h : nat) (v : value) (s : t)
  : list (nat * notification) * t :=
  match streams s !! h with
  | None => ([], s)
  | Some p =>
      if ShareReplay.connected (p_share p) then
        let s1 := set now created (p_key p) v (p_ttl p) s in
        let s2 := with_observables (base.delete (p_key p) (observables s1)) s1 in
        let '(out, o) := ShareReplay.next v (p_share p) in
        (out, set_share h o s2)
      else ([], s)
  end.

(** The source of stream [h] fails: [tap] has no error handler, the
    error goes through to [shareReplay] and its subscribers. *)
Definition source_error (h : nat) (e : error) (s : t)
  : list (nat * notification) * t :=
  match streams s !! h with
  | None => ([], s)
  | Some p =>
      if ShareReplay.connected (p_share p) then
        let '(out, o) := ShareReplay.error e (p_share p) in
        (out, set_share h o s)
      else ([], s)
  end.

Definition source_complete (h : nat) (s : t) : list (nat * notification) * t :=
  match streams s !! h with
  | None => ([], s)
  | Some p =>
      if ShareReplay.connected (p_share p) then
        let '(out, o) := ShareReplay.complete (p_share p) in
        (out, set_share h o s)
      else ([], s)
  end.

(** [getOrSet] up to its [await]: the cached value, or the call of the
    factory ([None]: the promise is pending). *)
Definition getOrSet_begin (now : Z) (key : string) (s : t) : option value * t :=
  let '(cached, s1) := get now key s in
  if negb (is_null cached) then (Some cached, s1)
  else (None, with_factoryCalls (factoryCalls s1 ++ [key]) s1).

(** [getOrSet] after the factory's promise resolved with [v]; a
    rejected promise never reaches [set]. *)
Definition getOrSet_resolve (now created : Z) (key : string) (v : value) (ttl : Z)
    (s : t) : value * t :=
  (v, set now created key v ttl s).

(** Reads of the cache, for the statements that quantify over what may
    happen between a [set] and a [get]. *)
Inductive read : Type :=
  | Get (now : Z) (key : string)
  | Has (now : Z) (key : string).

Definition run_read (r : read) (s : t) : t :=
  match r with
  | Get now key => snd (get now key s)
  | Has now key => snd (has now key s)
  end.

Definition run_reads (rs : list read) (s : t) : t :=
  fold_left (fun acc r => run_read r acc) rs s.

(** A read leaves the entry of [key] alone unless it finds it expired:
    it is either about another key or made no later than [deadline]. *)
Definition read_within (key : string) (deadline : Z) (r : read) : Prop :=
  match r with
  | Get now k | Has now k => k = key -> now <= deadline
  end.

(** [wrap(key, factory, ttl)] called once at each of [times]. *)
Fixpoint wrap_all (times : list Z) (key : string) (ttl : Z) (s : t)
  : list wrapped * t :=
  match times with
  | [] => ([], s)
  | now :: rest =>
      let '(r, s1) := wrap now key ttl s in
      let '(rs, s2) := wrap_all rest key ttl s1 in
      (r :: rs, s2)
  end.

(** The subscribers [subs] subscribe to stream [h], one after the other. *)
Fixpoint subscribe_all (h : nat) (subs : list nat) (s : t)
  : list (nat * notification) * t :=
  match subs with
  | [] => ([], s)
  | sub :: rest =>
      let '(out, s1) := subscribe h sub s in
      let '(outs, s2) := subscribe_all h rest s1 in
      (out ++ outs, s2)
  end.

(** The [shareReplay] state of stream [h]. *)
Definition share_of (h : nat) (s : t) : option ShareReplay.t :=
  p_share <$> streams s !! h.

(** The state of [shareReplay] once [subs] have joined the subscribers
    [l] of a stream that has not emitted yet. *)
Definition joined (c : bool) (l : list nat) (n : nat) (subs : list nat)
  : ShareReplay.t :=
  match subs with
  | [] => ShareReplay.mk c None false l n
  | _ => ShareReplay.mk true None false (l ++ subs) (if c then n else S n)
  end.

End CacheService.

(** ** ApiService (the second unit of services/cache.service.ts) *)
Module ApiService.

(** *** Request configuration (models/data-access.models.ts) *)

Record CacheConfig : Type := mkCacheConfig {
  enabled : bool;
  ttl : option Z;
  key : option string
}.

(** The fields of [RequestConfig] the methods below branch on; headers
    and query parameters only travel to the transport. *)
Record RequestConfig : Type := mkRequestConfig {
  skipErrorHandler : bool;
  cache : option CacheConfig
}.

(** [config?.cache?.enabled] *)
Definition cache_enabled (config : option RequestConfig) : option CacheConfig :=
  match config with
  | Some c =>
      match cache c with
      | Some cc => if enabled cc then Some cc else None
      | None => None
      end
  | None => None
  end.

(** [handleError]: [code] is [error.status?.toString() ?? 'UNKNOWN'].  An
    object body of the response, which [Object.assign] would merge over
    the fields, is not part of the model. *)
Definition handleError (e : error) (config : option RequestConfig) : error :=
  if match config with Some c => skipErrorHandler c | None => false end
  then e
  else match e with
       | HttpErrorResponse status => ApiErrorResponse (pretty status)
       | _ => ApiErrorResponse "UNKNOWN"
       end.

(** *** GET with the inline response cache *)

(** A stream returned by [get]: [http.get(url).pipe(catchError(..))],
    and behind [shareReplay(1), map(setCache)] when caching is enabled
    ([r_share] is [Some]). *)
Record Request : Type := mkRequest {
  r_url : string;
  r_config : option RequestConfig;
  r_share : option ShareReplay.t
}.

(** One HTTP GET on the wire: the stream it serves and, for a stream
    that is not shared, the subscriber that caused it. *)
Record Exchange : Type := mkExchange {
  x_request : nat;
  x_subscriber : option nat;
  x_open : bool
}.

Record t : Type := mkState {
  responses : gmap string (value * Z);   (* the private [cache] map: data, expiry *)
  requests : list Request;
  http : list Exchange                   (* every GET sent, in order *)
}.

Definition empty : t := mkState ∅ [] [].

Definition getFromCache (now : Z) (k : string) (s : t) : option value * t :=
  match responses s !! k with
  | Some (d, expiry) =>
      if now <? expiry then (Some d, s)
      else (None, mkState (delete k (responses s)) (requests s) (http s))
  | None => (None, mkState (delete k (responses s)) (requests s) (http s))
  end.

Definition setCache (now : Z) (k : string) (d : value) (ttl_ : Z) (s : t) : t :=
  mkState (<[k := (d, now + ttl_)]> (responses s)) (requests s) (http s).

(** What [get] hands back: a stream of the cached value, or the handle
    of a new request stream. *)
Inductive returned : Type :=
  | Cached (v : value)
  | Fresh (h : nat).

(** [get]; [url] is [buildUrl(endpoint)]. *)
Definition get (now : Z) (url : string) (config : option RequestConfig) (s : t)
  : returned * t :=
  let hit :=
    match cache_enabled config with
    | Some cc => getFromCache now (default url (key cc)) s
    | None => (None, s)
    end in
  match hit with
  | (Some v, s1) => (Cached v, s1)
  | (None, s1) =>
      let share :=
        match cache_enabled config with
        | Some _ => Some ShareReplay.init
        | None => None
        end in
      (Fresh (length (requests s1)),
       mkState (responses s1) (requests s1 ++ [mkRequest url config share]) (http s1))
  end.

Definition set_share (h : nat) (o : ShareReplay.t) (s : t) : t :=
  mkState (responses s)
    (alter (fun r => mkRequest (r_url r) (r_config r) (Some o)) h (requests s))
    (http s).

(** [map((data) => { this.setCache(cacheKey, data, ttl); return data; })]
    runs for every value handed to a subscriber of a cached stream. *)
Definition write_through (now : Z) (r : Request) (out : list (nat * notification))
    (s : t) : t :=
  match cache_enabled (r_config r) with
  | Some cc =>
      fold_left
        (fun acc n =>
           match snd n with
           | Next d => setCache now (default (r_url r) (key cc)) d (default 60000 (ttl cc)) acc
           | _ => acc
           end)
        out s
  | None => s
  end.

(** A caller subscribes to the stream with handle [h]. *)
Definition subscribe (now : Z) (h sub : nat) (s : t) : list (nat * notification) * t :=
  match requests s !! h with
  | None => ([], s)
  | Some r =>
      match r_share r with
      | None =>
          ([], mkState (responses s) (requests s)
                 (http s ++ [mkExchange h (Some sub) true]))
      | Some o =>
          let '(starts, out, o1) := ShareReplay.subscribe sub o in
          let s1 := set_share h o1 s in
          let s2 := if starts
                    then mkState (responses s1) (requests s1)
                           (http s1 ++ [mkExchange h None true])
                    else s1 in
          (out, write_through now r out s2)
      end
  end.

Definition close_exchange (x : nat) (s : t) : t :=
  mkState (responses s) (requests s)
    (alter (fun e => mkExchange (x_request e) (x_subscriber e) false) x (http s)).

(** The transport answers exchange [x]: a body, or a failure status. *)
Definition respond (now : Z) (x : nat) (answer : value + Z) (s : t)
  : list (nat * notification) * t :=
  match http s !! x with
  | None => ([], s)
  | Some e =>
      if negb (x_open e) then ([], s) else
      match requests s !! x_request e with
      | None => ([], s)
      | Some r =>
          let s0 := close_exchange x s in
          match r_share r, answer with
          | None, inl d =>
              (match x_subscriber e with
               | Some sub => [(sub, Next d); (sub, Complete)]
               | None => []
               end, s0)
          | None, inr status =>
              (match x_subscriber e with
               | Some sub => [(sub, Error (handleError (HttpErrorResponse status) (r_config r)))]
               | None => []
               end, s0)
          | Some o, inl d =>
              let '(out1, o1) := ShareReplay.next d o in
              let '(out2, o2) := ShareReplay.complete o1 in
              (out1 ++ out2, write_through now r out1 (set_share (x_request e) o2 s0))
          | Some o, inr status =>
              let '(out, o1) :=
                ShareReplay.error (handleError (HttpErrorResponse status) (r_config r)) o in
              (out, set_share (x_request e) o1 s0)
          end
      end
  end.

(** *** withRetry *)

Record RetryConfig : Type := mkRetryConfig {
  maxRetries : Z;
  retryDelay : Z;
  retryStatuses : list Z;
  exponentialBackoff : bool
}.

(** [Partial<RetryConfig>]: [None] is a property that is not given. *)
Record PartialRetryConfig : Type := mkPartialRetryConfig {
  maxRetries_opt : option Z;
  retryDelay_opt : option Z;
  retryStatuses_opt : option (list Z);
  exponentialBackoff_opt : option bool
}.

Definition DEFAULT_RETRY_CONFIG : RetryConfig :=
  mkRetryConfig 3 1000 [408; 429; 500; 502; 503; 504] true.

(** [{ ...DEFAULT_RETRY_CONFIG, ...config }] *)
Definition merge (config : option PartialRetryConfig) : RetryConfig :=
  match config with
  | None => DEFAULT_RETRY_CONFIG
  | Some c =>
      mkRetryConfig
        (default (maxRetries DEFAULT_RETRY_CONFIG) (maxRetries_opt c))
        (default (retryDelay DEFAULT_RETRY_CONFIG) (retryDelay_opt c))
        (default (retryStatuses DEFAULT_RETRY_CONFIG) (retryStatuses_opt c))
        (default (exponentialBackoff DEFAULT_RETRY_CONFIG) (exponentialBackoff_opt c))
  end.

(** [retryStatuses.includes(status)] *)
Definition includes (statuses : list Z) (status : Z) : bool :=
  existsb (Z.eqb status) statuses.

(** The accumulator of [scan]: [inl] is [throw error], [inr] the new
    retry count. *)
Definition retry_scan (retryConfig : RetryConfig) (retryCount : nat) (e : error)
  : error + nat :=
  if maxRetries retryConfig <=? Z.of_nat retryCount then inl e
  else
    match e with
    | HttpErrorResponse status =>
        if includes (retryStatuses retryConfig) status
        then inr (S retryCount)
        else inl e
    | _ => inr (S retryCount)
    end.

(** The projection of [switchMap]: the delay of [timer(delayMs)]. *)
Definition retry_delayMs (retryConfig : RetryConfig) (retryCount : nat) : Z :=
  let baseDelay := retryDelay retryConfig in
  if exponentialBackoff retryConfig
  then Z.min (baseDelay * 2 ^ Z.of_nat retryCount) 30000
  else baseDelay.

(** What one subscription to the stream of [requestFn()] ends with. *)
Inductive outcome : Type :=
  | Succeeds (v : value)
  | Fails (e : error).

(** What an observer of [withRetry] sees happen, in order. *)
Inductive step : Type :=
  | Subscribed            (* the request stream is subscribed: a request goes out *)
  | Waited (delayMs : Z)  (* [timer(delayMs)] ran *)
  | Emitted (v : value)
  | Completed
  | Raised (e : error).

(** [retryWhen]: every error of the source passes through [scan] and
    [switchMap]; a value of the notifier re-subscribes the source, an
    error of the notifier ends the stream.  [script] lists the outcomes
    of the successive subscriptions; an empty script is a request still
    in flight. *)
Fixpoint retryWhen (retryConfig : RetryConfig) (retryCount : nat)
    (script : list outcome) : list step :=
  match script with
  | [] => []
  | Succeeds v :: _ => [Emitted v; Completed]
  | Fails e :: rest =>
      match retry_scan retryConfig retryCount e with
      | inl thrown => [Raised thrown]
      | inr count =>
          Waited (retry_delayMs retryConfig count)
            :: Subscribed :: retryWhen retryConfig count rest
      end
  end.

Definition withRetry (requestFn : list outcome) (config : option PartialRetryConfig)
  : list step :=
  Subscribed :: retryWhen (merge config) 0 requestFn.

(** The delays, the requests and the end of a run. *)
Definition delays (run : list step) : list Z :=
  flat_map (fun st => match st with Waited d => [d] | _ => [] end) run.

Definition subscriptions (run : list step) : nat :=
  List.length (List.filter (fun st => match st with Subscribed => true | _ => false end) run).

(** The outcome of an [ApiService.get] whose transport answered with a
    failure status, as [withRetry] receives it. *)
Definition get_failure (status : Z) (config : option RequestConfig) : outcome :=
  Fails (handleError (HttpErrorResponse status) config).

(** One caller: [get] at time [now], then a subscription to what it
    returned (a cached stream just delivers its value). *)
Definition call (url : string) (config : option RequestConfig)
    (caller : Z * nat) (s : t) : t :=
  match get (fst caller) url config s with
  | (Cached _, s1) => s1
  | (Fresh h, s1) => snd (subscribe (fst caller) h (snd caller) s1)
  end.

(** Several callers, one after the other, no answer arriving meanwhile. *)
Definition calls (url : string) (config : option RequestConfig)
    (callers : list (Z * nat)) (s : t) : t :=
  fold_left (fun acc caller => call url config caller acc) callers s.

(** Several subscribers of the one stream with handle [h]. *)
Definition subscribe_all (now : Z) (h : nat) (subs : list nat) (s : t) : t :=
  fold_left (fun acc sub => snd (subscribe now h sub acc)) subs s.

(** A configuration that turns the response cache on. *)
Definition caching (ttl_ : option Z) (key_ : option string) : option RequestConfig :=
  Some (mkRequestConfig false (Some (mkCacheConfig true ttl_ key_))).

(** An error the [scan] of [withRetry] lets pass. *)
Definition retryable (retryConfig : RetryConfig) (e : error) : bool :=
  match e with
  | HttpErrorResponse status => includes (retryStatuses retryConfig) status
  | _ => true
  end.

(** The steps of the retries number [from+1] to [from+count]. *)
Fixpoint backoff (retryConfig : RetryConfig) (from count : nat) : list step :=
  match count with
  | O => []
  | S count' =>
      Waited (retry_delayMs retryConfig (S from)) :: Subscribed
        :: backoff retryConfig (S from) count'
  end.

End ApiService.

(** ** ApiService.createPaginatedStream *)
Module PaginatedStream.

Record Meta : Type := mkMeta {
  page : Z;
  pageSize : Z;
  totalItems : Z;
  totalPages : Z;
  hasNextPage : bool;
  hasPreviousPage : bool
}.

Record PaginatedResponse : Type := mkResponse {
  data : list value;
  meta : Meta
}.

(** The [config] argument.  [requestConfig] travels on to [getPaginated]
    and from there to [get], where its [cache] decides whether the
    response cache is used. *)
Record Config : Type := mkConfig {
  pageSize_opt : option Z;
  initialPage_opt : option Z;
  requestConfig : option ApiService.RequestConfig
}.

(** The entry of the response cache that the requests of one stream
    share: [get] stores and looks up a response under [cache.key ?? url],
    and the URL is that of the endpoint, the page being a query
    parameter. *)
Record Cached : Type := mkCached {
  c_data : PaginatedResponse;
  c_expiry : Z
}.

(** The subjects of the closure ([page$], [data$], [loading$],
    [hasMore$], [error$]) by the value they hold, the inner subscription
    of [switchMap] ([inflight]: the page whose request is awaited), the
    HTTP requests sent ([requested]: page and page size), the values
    [data$] has emitted, whether [destroy] has completed the subjects
    ([stopped]), and, of the service around the closure, the clock
    ([Date.now()]) and the cache entry of the endpoint. *)
Record t : Type := mk {
  s_pageSize : Z;
  s_initialPage : Z;
  s_requestConfig : option ApiService.RequestConfig;
  clock : Z;
  cached : option Cached;
  page_v : Z;
  data_v : list value;
  loading_v : bool;
  hasMore_v : bool;
  error_v : option error;
  inflight : option Z;
  requested : list (Z * Z);
  data_emitted : list (list value);
  stopped : bool
}.

Definition set_clock (now : Z) (s : t) : t :=
  mk (s_pageSize s) (s_initialPage s) (s_requestConfig s) now (cached s) (page_v s)
     (data_v s) (loading_v s) (hasMore_v s) (error_v s) (inflight s) (requested s)
     (data_emitted s) (stopped s).

Definition set_cached (c : option Cached) (s : t) : t :=
  mk (s_pageSize s) (s_initialPage s) (s_requestConfig s) (clock s) c (page_v s)
     (data_v s) (loading_v s) (hasMore_v s) (error_v s) (inflight s) (requested s)
     (data_emitted s) (stopped s).

Definition set_page (p : Z) (s : t) : t :=
  mk (s_pageSize s) (s_initialPage s) (s_requestConfig s) (clock s) (cached s) p
     (data_v s) (loading_v s) (hasMore_v s) (error_v s) (inflight s) (requested s)
     (data_emitted s) (stopped s).

Definition set_inflight (i : option Z) (s : t) : t :=
  mk (s_pageSize s) (s_initialPage s) (s_requestConfig s) (clock s) (cached s) (page_v s)
     (data_v s) (loading_v s) (hasMore_v s) (error_v s) i (requested s)
     (data_emitted s) (stopped s).

(** [subject.next(v)] on a [BehaviorSubject]: the value is stored in any
    case ([next(value) { super.next(this._value = value) }]); it is
    emitted unless the subject has completed. *)
Definition data_next (d : list value) (s : t) : t :=
  mk (s_pageSize s) (s_initialPage s) (s_requestConfig s) (clock s) (cached s) (page_v s)
     d (loading_v s) (hasMore_v s) (error_v s) (inflight s) (requested s)
     (if stopped s then data_emitted s else data_emitted s ++ [d]) (stopped s).

Definition loading_next (b : bool) (s : t) : t :=
  mk (s_pageSize s) (s_initialPage s) (s_requestConfig s) (clock s) (cached s) (page_v s)
     (data_v s) b (hasMore_v s) (error_v s) (inflight s) (requested s)
     (data_emitted s) (stopped s).

Definition hasMore_next (b : bool) (s : t) : t :=
  mk (s_pageSize s) (s_initialPage s) (s_requestConfig s) (clock s) (cached s) (page_v s)
     (data_v s) (loading_v s) b (error_v s) (inflight s) (requested s)
     (data_emitted s) (stopped s).

Definition error_next (e : option error) (s : t) : t :=
  mk (s_pageSize s) (s_initialPage s) (s_requestConfig s) (clock s) (cached s) (page_v s)
     (data_v s) (loading_v s) (hasMore_v s) e (inflight s) (requested s)
     (data_emitted s) (stopped s).

(** The subscriber of the pipeline, given a response. *)
Definition deliver (response : PaginatedResponse) (s : t) : t :=
  let s1 := error_next None (loading_next false s) in
  let currentPage := page_v s1 in
  let s2 := if currentPage =? s_initialPage s1
            then data_next (data response) s1
            else data_next (data_v s1 ++ data response) s1 in
  hasMore_next (hasNextPage (meta response)) s2.

(** [getFromCache] as [get] calls it when the cache is enabled: the
    entry is served while [expiry > Date.now()]. *)
Definition cache_hit (s : t) : option PaginatedResponse :=
  match ApiService.cache_enabled (s_requestConfig s), cached s with
  | Some _, Some c => if clock s <? c_expiry c then Some (c_data c) else None
  | _, _ => None
  end.

(** The HTTP request for page [p] goes out and is awaited. *)
Definition send (p : Z) (s : t) : t :=
  mk (s_pageSize s) (s_initialPage s) (s_requestConfig s) (clock s) (cached s) (page_v s)
     (data_v s) (loading_v s) (hasMore_v s) (error_v s) (Some p)
     (requested s ++ [(p, s_pageSize s)]) (data_emitted s) (stopped s).

(** [getPaginated(endpoint, {page, pageSize}, requestConfig)], subscribed
    by [switchMap].  With the cache enabled, [get] first looks for the
    entry of the endpoint: a live entry is emitted at once, whatever page
    it was stored for; otherwise [getFromCache] deletes the entry and the
    request is sent. *)
Definition getPaginated (p : Z) (s : t) : t :=
  match ApiService.cache_enabled (s_requestConfig s) with
  | Some _ =>
      match cache_hit s with
      | Some response => deliver response s
      | None => send p (set_cached None s)
      end
  | None => send p s
  end.

(** [page$.next(p)].  A completed subject stores the value and emits
    nothing.  Otherwise the value reaches the pipeline:
    [tap(() => loading$.next(true))], then [switchMap] drops the former
    inner request and subscribes to [getPaginated]. *)
Definition page_next (p : Z) (s : t) : t :=
  if stopped s then set_page p s
  else getPaginated p (set_inflight None (loading_next true (set_page p s))).

(** [createPaginatedStream] called at time [now], the response cache
    holding [entry] for the endpoint: the subjects are made, the pipeline
    is subscribed and [page$] replays its initial value into it. *)
Definition createPaginatedStream (now : Z) (entry : option Cached)
    (config : option Config) : t :=
  let pageSize := default 20 (config ≫= pageSize_opt) in
  let initialPage := default 1 (config ≫= initialPage_opt) in
  page_next initialPage
    (mk pageSize initialPage (config ≫= requestConfig) now entry initialPage
        [] false true None None [] [[]] false).

(** The awaited request answered.  With the cache enabled the [map]
    behind [shareReplay(1)] stores the response first, under the key of
    the endpoint; then the subscriber runs, also after [destroy]:
    [takeUntil(stop$)] sits above [switchMap], which lets the inner
    request finish. *)
Definition on_response (response : PaginatedResponse) (s : t) : t :=
  match inflight s with
  | None => s
  | Some _ =>
      let s1 := match ApiService.cache_enabled (s_requestConfig s) with
                | Some cc =>
                    set_cached
                      (Some (mkCached response
                               (clock s + default 60000 (ApiService.ttl cc)))) s
                | None => s
                end in
      deliver response (set_inflight None s1)
  end.

(** [catchError]: the awaited request failed; [error$] takes the error
    and the inner stream ends without a value. *)
Definition on_failure (err : error) (s : t) : t :=
  match inflight s with
  | None => s
  | Some _ => set_inflight None (error_next (Some err) s)
  end.

Definition loadMore (s : t) : t :=
  if negb (loading_v s) && hasMore_v s then page_next (page_v s + 1) s else s.

Definition reset (s : t) : t :=
  page_next (s_initialPage s) (hasMore_next true (data_next [] s)).

(** [destroy]: [stop$] fires and every subject completes.  The request
    in flight is not cancelled. *)
Definition destroy (s : t) : t :=
  mk (s_pageSize s) (s_initialPage s) (s_requestConfig s) (clock s) (cached s) (page_v s)
     (data_v s) (loading_v s) (hasMore_v s) (error_v s) (inflight s) (requested s)
     (data_emitted s) true.

(** The transport as a function of the page and the page size asked
    for: the awaited request is answered by what the server holds. *)
Definition answer (server : Z -> Z -> PaginatedResponse) (s : t) : t :=
  match inflight s with
  | None => s
  | Some p => on_response (server p (s_pageSize s)) s
  end.

(** A server holding the numbers 1 to 6, asked with a page size of 2:
    three pages of two items. *)
Definition three_pages (page size : Z) : PaginatedResponse :=
  mkResponse
    (if page =? 1 then [VNum 1; VNum 2]
     else if page =? 2 then [VNum 3; VNum 4]
     else if page =? 3 then [VNum 5; VNum 6]
     else [])
    (mkMeta page size 6 3 (page <? 3) (1 <? page)).



End PaginatedStream.

(** ** WebSocketService (the third unit of data-access/data-access.ts) *)
Module WebSocketConfig.

(** [None] is a property that is not given. *)
Record t : Type := mk {
  url : string;
  reconnect : option bool;
  reconnectInterval : option Z;
  reconnectAttempts : option Z;
  heartbeatInterval : option Z
}.

End WebSocketConfig.

Module WebSocketService.

Inductive WebSocketState : Type :=
  | connecting
  | connected
  | disconnected
  | reconnecting
  | error_.

Definition state_eqb (a b : WebSocketState) : bool :=
  match a, b with
  | connecting, connecting | connected, connected
  | disconnected, disconnected | reconnecting, reconnecting
  | error_, error_ => true
  | _, _ => false
  end.

Record WebSocketMessage : Type := mkMessage {
  type : string;
  payload : value;
  timestamp : option Z;
  id : option string
}.

(** The private fields of the service.  [socket] is [socket$] ([Some n]:
    the n-th subject made by [createConnection]); [stateLog] lists the
    values the [_state] signal has taken since the service was made;
    [reconnectTimers] are the delays of the reconnect timers that are
    armed; [sent] is what went to [socket$.next], [warnings] what went
    to [console.warn], [messages] what [messagesSubject] emitted. *)
Record t : Type := mkState {
  socket : option nat;
  config : option WebSocketConfig.t;
  reconnectAttempts : nat;
  heartbeatTimer : option Z;
  _state : WebSocketState;
  _lastMessage : option WebSocketMessage;
  _error : option error;
  connections : nat;
  stateLog : list WebSocketState;
  reconnectTimers : list Z;
  sent : list WebSocketMessage;
  warnings : list WebSocketMessage;
  messages : list WebSocketMessage;
  destroyed : bool
}.

Definition init : t :=
  mkState None None 0 None disconnected None None 0 [] [] [] [] [] false.

Definition set_state (st : WebSocketState) (s : t) : t :=
  mkState (socket s) (config s) (reconnectAttempts s) (heartbeatTimer s) st
    (_lastMessage s) (_error s) (connections s) (stateLog s ++ [st])
    (reconnectTimers s) (sent s) (warnings s) (messages s) (destroyed s).

Definition set_error (e : option error) (s : t) : t :=
  mkState (socket s) (config s) (reconnectAttempts s) (heartbeatTimer s) (_state s)
    (_lastMessage s) e (connections s) (stateLog s)
    (reconnectTimers s) (sent s) (warnings s) (messages s) (destroyed s).

Definition set_reconnectAttempts (n : nat) (s : t) : t :=
  mkState (socket s) (config s) n (heartbeatTimer s) (_state s)
    (_lastMessage s) (_error s) (connections s) (stateLog s)
    (reconnectTimers s) (sent s) (warnings s) (messages s) (destroyed s).

Definition set_config (c : option WebSocketConfig.t) (s : t) : t :=
  mkState (socket s) c (reconnectAttempts s) (heartbeatTimer s) (_state s)
    (_lastMessage s) (_error s) (connections s) (stateLog s)
    (reconnectTimers s) (sent s) (warnings s) (messages s) (destroyed s).

Definition set_socket (k : option nat) (s : t) : t :=
  mkState k (config s) (reconnectAttempts s) (heartbeatTimer s) (_state s)
    (_lastMessage s) (_error s) (connections s) (stateLog s)
    (reconnectTimers s) (sent s) (warnings s) (messages s) (destroyed s).

Definition set_heartbeatTimer (h : option Z) (s : t) : t :=
  mkState (socket s) (config s) (reconnectAttempts s) h (_state s)
    (_lastMessage s) (_error s) (connections s) (stateLog s)
    (reconnectTimers s) (sent s) (warnings s) (messages s) (destroyed s).

Definition set_reconnectTimers (l : list Z) (s : t) : t :=
  mkState (socket s) (config s) (reconnectAttempts s) (heartbeatTimer s) (_state s)
    (_lastMessage s) (_error s) (connections s) (stateLog s)
    l (sent s) (warnings s) (messages s) (destroyed s).

Definition stopHeartbeat (s : t) : t := set_heartbeatTimer None s.

(** [if (!this.config?.heartbeatInterval) return;]: an interval of 0 is
    falsy as well. *)
Definition startHeartbeat (s : t) : t :=
  match config s ≫= WebSocketConfig.heartbeatInterval with
  | None => s
  | Some interval =>
      if interval =? 0 then s
      else set_heartbeatTimer (Some interval) (stopHeartbeat s)
  end.

(** [createConnection]: a new subject replaces [socket$] and is
    subscribed, which opens a socket. *)
Definition createConnection (s : t) : t :=
  match config s with
  | None => s
  | Some _ =>
      mkState (Some (connections s)) (config s) (reconnectAttempts s)
        (heartbeatTimer s) (_state s) (_lastMessage s) (_error s)
        (S (connections s)) (stateLog s) (reconnectTimers s) (sent s)
        (warnings s) (messages s) (destroyed s)
  end.

Definition disconnect (s : t) : t :=
  let s1 := stopHeartbeat s in
  let s2 := set_socket None s1 in
  set_reconnectAttempts 0 (set_config None (set_state disconnected s2)).

(** [{ reconnect: true, reconnectInterval: 3000, reconnectAttempts: 10,
      heartbeatInterval: 30000, ...config }] *)
Definition with_defaults (c : WebSocketConfig.t) : WebSocketConfig.t :=
  WebSocketConfig.mk (WebSocketConfig.url c)
    (Some (default true (WebSocketConfig.reconnect c)))
    (Some (default 3000 (WebSocketConfig.reconnectInterval c)))
    (Some (default 10 (WebSocketConfig.reconnectAttempts c)))
    (Some (default 30000 (WebSocketConfig.heartbeatInterval c))).

Definition connect (c : WebSocketConfig.t) (s : t) : t :=
  let s1 := match socket s with Some _ => disconnect s | None => s end in
  let s2 := set_config (Some (with_defaults c)) s1 in
  createConnection
    (set_reconnectAttempts 0 (set_error None (set_state connecting s2))).

Definition max_reached : error := JsError "Max reconnection attempts reached".

Definition attemptReconnect (s : t) : t :=
  match config s with
  | None => s
  | Some c =>
      let maxAttempts := default 10 (WebSocketConfig.reconnectAttempts c) in
      if maxAttempts <=? Z.of_nat (reconnectAttempts s)
      then set_error (Some max_reached) s
      else
        let s1 := set_reconnectAttempts (S (reconnectAttempts s))
                    (set_state reconnecting s) in
        let delay := default 3000 (WebSocketConfig.reconnectInterval c) in
        set_reconnectTimers (reconnectTimers s1 ++ [delay]) s1
  end.

(** [this.config?.reconnect] *)
Definition reconnect_enabled (s : t) : bool :=
  default false (config s ≫= WebSocketConfig.reconnect).

(** [openObserver.next] *)
Definition on_open (s : t) : t :=
  startHeartbeat
    (set_reconnectAttempts 0 (set_error None (set_state connected s))).

(** [closeObserver.next(event)] *)
Definition on_close (wasClean : bool) (s : t) : t :=
  let s1 := stopHeartbeat (set_state disconnected s) in
  if reconnect_enabled s1 && negb wasClean then attemptReconnect s1 else s1.

(** The [error] callback of the subscription to [socket$]; the
    subscription ends with [destroy$]. *)
Definition on_error (e : error) (s : t) : t :=
  if destroyed s then s
  else
    let s1 := set_state error_ (set_error (Some e) s) in
    if reconnect_enabled s1 then attemptReconnect s1 else s1.

(** The [tap] of the subscription to [socket$]. *)
Definition on_message (m : WebSocketMessage) (s : t) : t :=
  if destroyed s then s
  else
    mkState (socket s) (config s) (reconnectAttempts s) (heartbeatTimer s) (_state s)
      (Some m) (_error s) (connections s) (stateLog s)
      (reconnectTimers s) (sent s) (warnings s) (messages s ++ [m]) (destroyed s).

(** The oldest armed reconnect timer fires. *)
Definition on_reconnect_timer (s : t) : t :=
  match reconnectTimers s with
  | [] => s
  | _ :: rest =>
      let s1 := set_reconnectTimers rest s in
      if destroyed s1 then s1
      else if state_eqb (_state s1) reconnecting then createConnection s1 else s1
  end.

(** [send]; [fresh] is what [generateMessageId()] would return. *)
Definition send (now : Z) (fresh : string) (message : WebSocketMessage) (s : t) : t :=
  match socket s with
  | Some _ =>
      if state_eqb (_state s) connected then
        let messageWithMeta :=
          mkMessage (type message) (payload message) (Some now)
            (Some (default fresh (id message))) in
        mkState (socket s) (config s) (reconnectAttempts s) (heartbeatTimer s)
          (_state s) (_lastMessage s) (_error s) (connections s) (stateLog s)
          (reconnectTimers s) (sent s ++ [messageWithMeta]) (warnings s)
          (messages s) (destroyed s)
      else
        mkState (socket s) (config s) (reconnectAttempts s) (heartbeatTimer s)
          (_state s) (_lastMessage s) (_error s) (connections s) (stateLog s)
          (reconnectTimers s) (sent s) (warnings s ++ [message])
          (messages s) (destroyed s)
  | None =>
      mkState (socket s) (config s) (reconnectAttempts s) (heartbeatTimer s)
        (_state s) (_lastMessage s) (_error s) (connections s) (stateLog s)
        (reconnectTimers s) (sent s) (warnings s ++ [message])
        (messages s) (destroyed s)
  end.

(** The callback of the heartbeat interval. *)
Definition on_heartbeat (now : Z) (fresh : string) (s : t) : t :=
  match heartbeatTimer s with
  | None => s
  | Some _ =>
      if state_eqb (_state s) connected
      then send now fresh (mkMessage "ping" VNull None None) s
      else s
  end.

Definition ngOnDestroy (s : t) : t :=
  let s1 := mkState (socket s) (config s) (reconnectAttempts s) (heartbeatTimer s)
              (_state s) (_lastMessage s) (_error s) (connections s) (stateLog s)
              [] (sent s) (warnings s) (messages s) true in
  disconnect s1.

(** What the outside world does to the service between two calls of
    its methods. *)
Inductive event : Type :=
  | Open
  | Close (wasClean : bool)
  | SocketError (e : error)
  | Message (m : WebSocketMessage)
  | ReconnectTimer.

Definition handle (ev : event) (s : t) : t :=
  match ev with
  | Open => on_open s
  | Close wasClean => on_close wasClean s
  | SocketError e => on_error e s
  | Message m => on_message m s
  | ReconnectTimer => on_reconnect_timer s
  end.

Definition run (evs : list event) (s : t) : t :=
  fold_left (fun acc ev => handle ev acc) evs s.

(** How often the service entered [reconnecting]. *)
Definition reconnects (s : t) : nat :=
  List.length (List.filter (fun st => state_eqb st reconnecting) (stateLog s)).

(** *** request *)

(** One subscription to the stream [request] returns: the armed
    timeout ([rq_deadline], while [rq_timer]), the subscription to
    [messages$] ([rq_listening]) and what the subscriber received. *)
Record Request : Type := mkRequest {
  rq_id : string;
  rq_type : string;
  rq_responseType : string;
  rq_deadline : Z;
  rq_timer : bool;
  rq_listening : bool;
  rq_received : list notification
}.

Definition timeout_error (type_ : string) : error :=
  JsError ("WebSocket request timeout: " ++ type_).

(** [request(type, payload, responseType, timeout)] and the subscription
    to its result at time [now]; [fresh] is the generated [id]. *)
Definition request (now : Z) (fresh : string) (type_ : string) (payload_ : value)
    (responseType : string) (timeout : option Z) (s : t) : Request * t :=
  (mkRequest fresh type_ responseType (now + default 30000 timeout) true true [],
   send now fresh (mkMessage type_ payload_ None (Some fresh)) s).

(** A message of [messages$] reaches the subscription of the request. *)
Definition request_on_message (m : WebSocketMessage) (r : Request) : Request :=
  if rq_listening r
     && String.eqb (type m) (rq_responseType r)
     && match id m with Some i => String.eqb i (rq_id r) | None => false end
  then mkRequest (rq_id r) (rq_type r) (rq_responseType r) (rq_deadline r)
         false false (rq_received r ++ [Next (payload m); Complete])
  else r.

(** The event loop reaches time [now]: the timeout fires if it is due. *)
Definition request_on_time (now : Z) (r : Request) : Request :=
  if rq_timer r && (rq_deadline r <=? now)
  then mkRequest (rq_id r) (rq_type r) (rq_responseType r) (rq_deadline r)
         false false (rq_received r ++ [Error (timeout_error (rq_type r))])
  else r.

(** What can happen to a pending request: time passes, a message
    arrives. *)
Inductive tick : Type :=
  | At (now : Z)
  | Incoming (m : WebSocketMessage).

Definition request_step (tk : tick) (r : Request) : Request :=
  match tk with
  | At now => request_on_time now r
  | Incoming m => request_on_message m r
  end.

Definition request_run (tks : list tick) (r : Request) : Request :=
  fold_left (fun acc tk => request_step tk acc) tks r.

(** A tick that cannot settle the request before [deadline]: a time
    before it, or a message that is not the awaited response. *)
Definition quiet (rid responseType : string) (deadline : Z) (tk : tick) : Prop :=
  match tk with
  | At now => now < deadline
  | Incoming m => type m <> responseType \/ id m <> Some rid
  end.

(** A close that was not clean or an error of the socket: the two
    notifications that make the service try to reconnect. *)
Definition failure (ev : event) : bool :=
  match ev with
  | Close wasClean => negb wasClean
  | SocketError _ => true
  | _ => false
  end.






Definition failed_socket (e : error) : list event := [SocketError e; Close false].

End WebSocketService.

(** ** CacheService: the sweeps, and the public operations as a script *)
Module CacheSweep.
Import CacheService.

(** [clearExpired]: the loop walks [cache.entries()] and deletes the
    entry it stands on, so every entry present at the start is visited
    once. *)
Definition clearExpired (now : Z) (s : t) : nat * t :=
  fold_left
    (fun acc ke =>
       if isExpired now (snd ke)
       then (S (fst acc), snd (delete (fst ke) (snd acc)))
       else acc)
    (map_to_list (cache s)) (0%nat, s).

(** A [RegExp] object as [invalidatePattern] uses it.  [matcher i key]
    is the search the engine makes in [key] from index [i]: the index
    behind the match it finds, if it finds one.  With the [g] or the [y]
    flag ([stateful]) the object remembers in [lastIndex] where the next
    search starts. *)
Record RegExp : Type := mkRegExp {
  matcher : nat -> string -> option nat;
  stateful : bool;
  lastIndex : nat
}.

Definition found (o : option nat) : bool :=
  match o with Some _ => true | None => false end.

(** [regex.test(key)]: with [g] or [y] the search starts at [lastIndex],
    which moves behind the match or back to 0 when there is none;
    without them the search starts at 0 and [lastIndex] stays. *)
Definition test (regex : RegExp) (key : string) : bool * RegExp :=
  if stateful regex then
    match matcher regex (lastIndex regex) key with
    | Some e => (true, mkRegExp (matcher regex) true e)
    | None => (false, mkRegExp (matcher regex) true 0)
    end
  else (found (matcher regex 0 key), regex).

(** The argument of [invalidatePattern], [string | RegExp]: a string is
    compiled by [new RegExp(pattern)], which sets no flag. *)
Inductive pattern : Type :=
  | Source (compiled : nat -> string -> option nat)
  | Regex (regex : RegExp).

Definition regex_of (pattern_ : pattern) : RegExp :=
  match pattern_ with
  | Source compiled => mkRegExp compiled false 0
  | Regex regex => regex
  end.

(** One round of the loop of [invalidatePattern]: the count, the
    [RegExp] object and the service. *)
Definition invalidate_step (a : nat * RegExp * t) (key : string) : nat * RegExp * t :=
  let tested := test (snd (fst a)) key in
  if fst tested
  then (S (fst (fst a)), snd tested, snd (delete key (snd a)))
  else (fst (fst a), snd tested, snd a).

(** [invalidatePattern(pattern)].  [ks] is what [this.cache.keys()]
    yields, the keys of the cache in the order of their insertion; the
    map of the model does not keep that order, so the caller supplies
    it. *)
Definition invalidatePattern (pattern_ : pattern) (ks : list string) (s : t) : nat * t :=
  let r := fold_left invalidate_step ks (0%nat, regex_of pattern_, s) in
  (fst (fst r), snd r).

(** The pattern [/^user-/g], searched the way the engine does: anchored
    at the start, so a search from any other index finds nothing. *)
Definition starts_with_user (i : nat) (key : string) : option nat :=
  if Nat.eqb i 0 && String.prefix "user-" key then Some 5%nat else None.

(** The entries a sweep with test [p] removes. *)
Definition swept (p : string -> CacheEntry -> bool) (s : t) : list (string * CacheEntry) :=
  List.filter (fun ke => p (fst ke) (snd ke)) (map_to_list (cache s)).

(** What a user of the service, or a stream built by [wrap], can do to
    it. *)
Inductive op : Type :=
  | DoSet (now created : Z) (key : string) (v : value) (ttl : Z)
  | DoGet (now : Z) (key : string)
  | DoHas (now : Z) (key : string)
  | DoDelete (key : string)
  | DoClear
  | DoClearExpired (now : Z)
  | DoInvalidatePattern (pattern_ : pattern) (ks : list string)
  | DoWrap (now : Z) (key : string) (ttl : Z)
  | DoSubscribe (h sub : nat)
  | SourceNext (now created : Z) (h : nat) (v : value)
  | SourceError (h : nat) (e : error)
  | SourceComplete (h : nat)
  | DoGetOrSet (now : Z) (key : string)
  | GetOrSetResolved (now created : Z) (key : string) (v : value) (ttl : Z).

Definition step (o : op) (s : t) : t :=
  match o with
  | DoSet now created key v ttl => set now created key v ttl s
  | DoGet now key => snd (get now key s)
  | DoHas now key => snd (has now key s)
  | DoDelete key => snd (delete key s)
  | DoClear => clear s
  | DoClearExpired now => snd (clearExpired now s)
  | DoInvalidatePattern pattern_ ks => snd (invalidatePattern pattern_ ks s)
  | DoWrap now key ttl => snd (wrap now key ttl s)
  | DoSubscribe h sub => snd (subscribe h sub s)
  | SourceNext now created h v => snd (source_next now created h v s)
  | SourceError h e => snd (source_error h e s)
  | SourceComplete h => snd (source_complete h s)
  | DoGetOrSet now key => snd (getOrSet_begin now key s)
  | GetOrSetResolved now created key v ttl =>
      snd (getOrSet_resolve now created key v ttl s)
  end.

Definition run (ops : list op) (s : t) : t :=
  fold_left (fun acc o => step o acc) ops s.

(** The [size] statistic is the number of entries. *)
Definition size_ok (s : t) : Prop := size (_stats s) = base.size (cache s).

(** The [get] calls among some reads. *)
Definition gets (rs : list read) : nat :=
  length (List.filter (fun r => match r with Get _ _ => true | Has _ _ => false end) rs).

(** *** What may happen between the calls of [wrap] on one key *)

(** The operation [o], made in state [s], leaves alone the stream that
    is pending for [key]: it stores nothing under [key], does not delete
    the key or clear the cache, is no [getOrSet] on the key, and is no
    event of a stream that [wrap] made for [key].  Reads, sweeps of the
    cached keys, subscriptions, and [wrap] itself (on any key) are free. *)
Definition spares (key : string) (s : t) (o : op) : Prop :=
  match o with
  | DoSet _ _ k _ _ | DoDelete k | DoGetOrSet _ k | GetOrSetResolved _ _ k _ _ =>
      k <> key
  | DoClear => False
  | DoInvalidatePattern _ ks => key ∉ ks
  | SourceNext _ _ h _ | SourceError h _ | SourceComplete h =>
      p_key <$> streams s !! h <> Some key
  | DoGet _ _ | DoHas _ _ | DoClearExpired _ | DoWrap _ _ _ | DoSubscribe _ _ => True
  end.

Fixpoint spared (key : string) (ops : list op) (s : t) : Prop :=
  match ops with
  | [] => True
  | o :: rest => spares key s o /\ spared key rest (step o s)
  end.

(** What the calls of [wrap] on [key] among [ops] return. *)
Fixpoint wrap_results (key : string) (ops : list op) (s : t) : list wrapped :=
  match ops with
  | [] => []
  | o :: rest =>
      match o with
      | DoWrap now k ttl => if String.eqb k key then [fst (wrap now k ttl s)] else []
      | _ => []
      end ++ wrap_results key rest (step o s)
  end.

(** The subscribers that [ops] give to stream [h], in order. *)
Definition subscribers_of (h : nat) (ops : list op) : list nat :=
  flat_map
    (fun o => match o with
              | DoSubscribe h' sub => if Nat.eqb h' h then [sub] else []
              | _ => []
              end)
    ops.

(** How often the factory was called for [key]. *)
Definition calls_of (key : string) (calls : list string) : nat :=
  length (List.filter (String.eqb key) calls).

(** The entry and the pending stream of [key], the streams and the log
    of factory calls are the same in [s'] as in [s]. *)
Definition same_at (key : string) (s s' : t) : Prop :=
  cache s' !! key = cache s !! key /\
  observables s' !! key = observables s !! key /\
  streams s' = streams s /\
  factoryCalls s' = factoryCalls s.

(** [key] has no entry, its pending stream is [h], which has emitted
    nothing and has the subscribers [subs], and the factory has been
    called [n] times for the key. *)
Definition pending_at (key : string) (ttl : Z) (h : nat) (subs : list nat) (n : nat)
    (s : t) : Prop :=
  cache s !! key = None /\
  observables s !! key = Some h /\
  streams s !! h = Some (mkPending key ttl (joined false [] 0 subs)) /\
  calls_of key (factoryCalls s) = n.

End CacheSweep.

(** ** ApiService: URLs, cache clearing, optimistic updates *)
Module ApiMore.
Import ApiService.

(** [s.endsWith('/')] *)
Fixpoint endsWith_slash (s : string) : bool :=
  match s with
  | EmptyString => false
  | String c EmptyString => String.eqb (String c EmptyString) "/"
  | String _ rest => endsWith_slash rest
  end.

(** [s.slice(0, -1)] *)
Fixpoint slice_0_m1 (s : string) : string :=
  match s with
  | EmptyString => EmptyString
  | String _ EmptyString => EmptyString
  | String c rest => String c (slice_0_m1 rest)
  end.

(** [buildUrl]; [apiBaseUrl] is what [config.get('apiBaseUrl')] returns
    ([None]: nothing configured, the base is [''] then). *)
Definition buildUrl (apiBaseUrl : option string) (endpoint : string) : string :=
  if String.prefix "http://" endpoint || String.prefix "https://" endpoint
  then endpoint
  else
    let baseUrl := default ""%string apiBaseUrl in
    let base := if endsWith_slash baseUrl then slice_0_m1 baseUrl else baseUrl in
    let path := if String.prefix "/" endpoint then endpoint
                else String.append "/" endpoint in
    String.append base path.

(** [clearCache(key?)]: the test is [if (key)], which an empty string
    fails like a missing argument. *)
Definition clearCache (key_ : option string) (s : t) : t :=
  match key_ with
  | Some k =>
      if String.eqb k "" then mkState ∅ (requests s) (http s)
      else mkState (delete k (responses s)) (requests s) (http s)
  | None => mkState ∅ (requests s) (http s)
  end.

(** What [optimisticUpdate] makes happen, in order. *)
Inductive effect : Type :=
  | Applied          (* [applyOptimistic()] ran *)
  | Requested        (* the stream of [requestFn()] was subscribed *)
  | RolledBack       (* [rollback()] ran *)
  | Delivered (n : notification).

(** One subscription to the stream [optimisticUpdate] returned:
    [requestFn().pipe(catchError(..))]. *)
Definition optimistic_subscription (o : outcome) : list effect :=
  match o with
  | Succeeds v => [Requested; Delivered (Next v); Delivered Complete]
  | Fails e => [Requested; RolledBack; Delivered (Error e)]
  end.

(** [optimisticUpdate(requestFn, applyOptimistic, rollback)], followed by
    the subscriptions made to its result; [subscriptions] lists what the
    request does on each of them. *)
Definition optimisticUpdate (subscriptions : list outcome) : list effect :=
  Applied :: flat_map optimistic_subscription subscriptions.

Definition count_effect (p : effect -> bool) (l : list effect) : nat :=
  length (List.filter p l).

Definition is_applied (x : effect) : bool :=
  match x with Applied => true | _ => false end.
Definition is_rolledBack (x : effect) : bool :=
  match x with RolledBack => true | _ => false end.
Definition is_requested (x : effect) : bool :=
  match x with Requested => true | _ => false end.
Definition is_failure (o : outcome) : bool :=
  match o with Fails _ => true | Succeeds _ => false end.

End ApiMore.

(** ** ApiService.batch *)
Module Batch.
Import ApiService.

(** What the stream returned by [batch] emits: the array of results
    ([None] is a slot never written, [undefined]), an error, the
    completion. *)
Inductive emission : Type :=
  | Results (results : list (option value))
  | Failed (e : error)
  | Done.

(** *** Parallel mode: the closure of the [Observable] *)
Record t : Type := mk {
  count : nat;                      (* [requests.length] *)
  results : list (option value);    (* [new Array(requests.length)] *)
  completed : nat;
  hasError : bool;
  closed : bool;                    (* the outer subscriber has ended *)
  emitted : list emission
}.

(** The subscription: every request function is called and its stream
    subscribed. *)
Definition start (n : nat) : t := mk n (replicate n None) 0 false false [].

(** [subscriber.next], [subscriber.error], [subscriber.complete]: a
    subscriber that has ended ignores them. *)
Definition subscriber_next (r : list (option value)) (s : t) : t :=
  if closed s then s
  else mk (count s) (results s) (completed s) (hasError s) false (emitted s ++ [Results r]).

Definition subscriber_error (e : error) (s : t) : t :=
  if closed s then s
  else mk (count s) (results s) (completed s) (hasError s) true (emitted s ++ [Failed e]).

Definition subscriber_complete (s : t) : t :=
  if closed s then s
  else mk (count s) (results s) (completed s) (hasError s) true (emitted s ++ [Done]).

(** What the inner streams do; [index] is the position of the request,
    always below [count]. *)
Inductive event : Type :=
  | OnNext (index : nat) (result : value)
  | OnError (index : nat) (e : error)
  | OnComplete (index : nat).

Definition handle (ev : event) (s : t) : t :=
  match ev with
  | OnNext index result =>
      mk (count s) (<[index := Some result]> (results s)) (completed s)
         (hasError s) (closed s) (emitted s)
  | OnError _ e =>
      if hasError s then s
      else subscriber_error e
             (mk (count s) (results s) (completed s) true (closed s) (emitted s))
  | OnComplete _ =>
      let s1 := mk (count s) (results s) (S (completed s)) (hasError s) (closed s)
                   (emitted s) in
      if (completed s1 =? count s1)%nat && negb (hasError s1)
      then subscriber_complete (subscriber_next (results s1) s1)
      else s1
  end.

Definition run (evs : list event) (s : t) : t :=
  fold_left (fun acc ev => handle ev acc) evs s.

(** Requests that each answer with one value and complete, answering in
    the order [order] (positions in [vs]). *)
Definition answers (vs : list value) (order : list nat) : list event :=
  flat_map
    (fun i => match vs !! i with
              | Some v => [OnNext i v; OnComplete i]
              | None => []
              end)
    order.

(** The array once the requests at the positions [done] have answered. *)
Definition filled (vs : list value) (done : list nat) : list (option value) :=
  (fun i => if bool_decide (i ∈ done) then vs !! i else None) <$> seq 0 (length vs).

(** The closure once exactly the requests at [done] have answered, fewer
    than all. *)
Definition answered (vs : list value) (done : list nat) (s : t) : Prop :=
  s = mk (length vs) (filled vs done) (length done) false false [].

Definition is_error (ev : event) : bool :=
  match ev with OnError _ _ => true | _ => false end.

Definition is_complete (ev : event) : bool :=
  match ev with OnComplete _ => true | _ => false end.

(** *** Sequential mode

    The [reduce] over [switchMap]: a request function is called when the
    stream before it has emitted.  The requests are streams that end
    with one value or with an error; the result is the number of request
    functions called and what the stream emits. *)
Fixpoint sequential_from (requests : list outcome) (acc : list value) (called : nat)
  : nat * list emission :=
  match requests with
  | [] => (called, [Results (Some <$> acc); Done])
  | Succeeds v :: rest => sequential_from rest (acc ++ [v]) (S called)
  | Fails e :: _ => (S called, [Failed e])
  end.

Definition sequential (requests : list outcome) : nat * list emission :=
  sequential_from requests [] 0.

End Batch.

(** ** ApiService.poll *)
Module Poll.
Import ApiService.

Record PollingConfig : Type := mkConfig {
  interval : option Z;
  immediate : option bool;
  emitOnlyOnChange : bool;
  compareFn : option (value -> value -> bool);
  continueOnError : bool
}.

(** [JSON.stringify(a) === JSON.stringify(b)] on the values of the model. *)
Definition same_json (a b : value) : bool :=
  match a, b with
  | VNull, VNull => true
  | VNum x, VNum y => x =? y
  | VStr x, VStr y => String.eqb x y
  | VBool x, VBool y => Bool.eqb x y
  | _, _ => false
  end.

(** The time of tick number [n] after the subscription:
    [timer(immediate ? 0 : interval, interval)]. *)
Definition tick_time (config : PollingConfig) (n : nat) : Z :=
  let every := default 30000 (interval config) in
  (if default true (immediate config) then 0 else every) + Z.of_nat n * every.

(** [switchMap(() => this.get(..).pipe(catchError(..)))] over the ticks:
    what the request of each tick ends with ([None]: the next tick came
    first and [switchMap] dropped the request). *)
Fixpoint source (continue : bool) (ticks : list (option outcome)) : list notification :=
  match ticks with
  | [] => []
  | None :: rest => source continue rest
  | Some (Succeeds v) :: rest => Next v :: source continue rest
  | Some (Fails e) :: rest => if continue then source continue rest else [Error e]
  end.

(** [distinctUntilChanged((prev, curr) => compareFn(prev, curr))]:
    [prev] is the value emitted last. *)
Fixpoint distinctUntilChanged (compare : value -> value -> bool) (prev : option value)
    (ns : list notification) : list notification :=
  match ns with
  | [] => []
  | Next v :: rest =>
      match prev with
      | Some p =>
          if compare p v then distinctUntilChanged compare prev rest
          else Next v :: distinctUntilChanged compare (Some v) rest
      | None => Next v :: distinctUntilChanged compare (Some v) rest
      end
  | n :: rest => n :: distinctUntilChanged compare prev rest
  end.

Definition poll (config : PollingConfig) (ticks : list (option outcome))
  : list notification :=
  let source_ := source (continueOnError config) ticks in
  if emitOnlyOnChange config
  then distinctUntilChanged (default same_json (compareFn config)) None source_
  else source_.

(** The values of a stream, and those of the requests that succeeded. *)
Definition values (ns : list notification) : list value :=
  flat_map (fun n => match n with Next v => [v] | _ => [] end) ns.

Definition successes (ticks : list (option outcome)) : list value :=
  flat_map (fun o => match o with Some (Succeeds v) => [v] | _ => [] end) ticks.

(** No value equals, by [compare], the value before it. *)
Fixpoint changes (compare : value -> value -> bool) (vs : list value) : Prop :=
  match vs with
  | a :: (b :: _) as rest => compare a b = false /\ changes compare rest
  | _ => True
  end.


End Poll.

(** ** The paginated stream under any sequence of calls and answers *)
Module PaginatedMore.
Import PaginatedStream.

(** What the owner of the stream, the transport, the clock and the other
    users of the service (who can write or clear the cache entry of the
    endpoint) can do. *)
Inductive action : Type :=
  | LoadMore
  | Reset
  | Destroy
  | Response (response : PaginatedResponse)
  | Failure (err : error)
  | Tick (now : Z)
  | Recached (entry : option Cached).

Definition step (a : action) (s : t) : t :=
  match a with
  | LoadMore => loadMore s
  | Reset => reset s
  | Destroy => destroy s
  | Response response => on_response response s
  | Failure err => on_failure err s
  | Tick now => set_clock now s
  | Recached entry => set_cached entry s
  end.

Definition run (acts : list action) (s : t) : t :=
  fold_left (fun acc a => step a acc) acts s.

(** A request is awaited only while [loading$] holds [true]. *)
Definition awaiting_ok (s : t) : Prop :=
  inflight s <> None -> loading_v s = true.

(** [loadMore()] and the answer of the server to it. *)
Definition more (server : Z -> Z -> PaginatedResponse) (s : t) : t :=
  answer server (loadMore s).

(** The items of the [k] pages from page [from] on. *)
Definition items (server : Z -> Z -> PaginatedResponse) (size from : Z) (k : nat)
  : list value :=
  flat_map (fun j => data (server (from + Z.of_nat j) size)) (seq 0 k).

(** The stream after its first answer and [k] further pages. *)
Definition loaded (server : Z -> Z -> PaginatedResponse) (now : Z)
    (entry : option Cached) (config : option Config) (k : nat) : t :=
  Nat.iter k (more server) (answer server (createPaginatedStream now entry config)).

End PaginatedMore.

(** * Properties *)

(** ** CacheService: expiry, statistics and [null] *)
Module CacheFacts.
Import CacheService.

Lemma lookup_set now created key v ttl s :
  cache (set now created key v ttl s) !! key = Some (mkEntry v (now + ttl) created).
Proof. unfold set. cbn. apply lookup_insert_eq. Qed.

Lemma observables_set now created key v ttl s :
  observables (set now created key v ttl s) = observables s.
Proof. reflexivity. Qed.

Lemma get_live now key entry s :
  cache s !! key = Some entry -> now <= expiry entry ->
  get now key s = (data entry, recordHit s).
Proof.
  intros Hk Hle. unfold get, isExpired. rewrite Hk.
  destruct (Z.ltb_spec (expiry entry) now); [lia | reflexivity].
Qed.

Lemma get_expired now key entry s :
  cache s !! key = Some entry -> expiry entry < now ->
  get now key s = (VNull, recordMiss (snd (delete key s))).
Proof.
  intros Hk Hlt. unfold get, isExpired. rewrite Hk.
  destruct (Z.ltb_spec (expiry entry) now); [reflexivity | lia].
Qed.

Lemma get_absent now key s :
  cache s !! key = None -> get now key s = (VNull, recordMiss s).
Proof. intros Hk. unfold get. now rewrite Hk. Qed.

Lemma cache_delete key k s :
  cache (snd (delete k s)) !! key = base.delete k (cache s) !! key.
Proof. unfold delete. destruct (bool_decide _); reflexivity. Qed.

Lemma observables_delete key k s :
  observables (snd (delete k s)) !! key = base.delete k (observables s) !! key.
Proof. unfold delete. destruct (bool_decide _); reflexivity. Qed.

Lemma has_absent now key s :
  cache s !! key = None -> has now key s = (false, s).
Proof. intros Hk. unfold has. now rewrite Hk. Qed.

(** A read that is not a late read of [key] keeps the entry of [key]. *)
Lemma run_read_keeps key entry r s :
  cache s !! key = Some entry ->
  read_within key (expiry entry) r ->
  cache (run_read r s) !! key = Some entry.
Proof.
  intros Hk Hr. destruct r as [now k | now k]; cbn in *.
  - unfold get. destruct (cache s !! k) as [e|] eqn:Hl; cbn; [|exact Hk].
    unfold isExpired. destruct (Z.ltb_spec (expiry e) now); cbn; [|exact Hk].
    rewrite cache_delete. destruct (decide (k = key)) as [->|Hne].
    + rewrite Hk in Hl. inversion Hl; subst. specialize (Hr eq_refl). lia.
    + now rewrite lookup_delete_ne.
  - unfold has. destruct (cache s !! k) as [e|] eqn:Hl; cbn; [|exact Hk].
    unfold isExpired. destruct (Z.ltb_spec (expiry e) now); cbn; [|exact Hk].
    rewrite cache_delete. destruct (decide (k = key)) as [->|Hne].
    + rewrite Hk in Hl. inversion Hl; subst. specialize (Hr eq_refl). lia.
    + now rewrite lookup_delete_ne.
Qed.

Lemma run_reads_keep key entry rs : forall s,
  cache s !! key = Some entry ->
  Forall (read_within key (expiry entry)) rs ->
  cache (run_reads rs s) !! key = Some entry.
Proof.
  induction rs as [|r rs IH]; intros s Hk Hall; cbn; [exact Hk|].
  inversion Hall; subst. apply IH; [|assumption].
  now apply run_read_keeps.
Qed.

(** C2.  After [set(key, v, ttl)] at time [now], and whatever reads of
    the cache follow (reads of [key] itself no later than [now + ttl]):
    a [get(key)] at a time [t <= now + ttl] returns [v] and records a
    hit (the hit counter goes up by one, the miss counter stays, the
    entry stays); a [get(key)] at a time [t > now + ttl] returns [null],
    records a miss (the miss counter goes up by one, the hit counter
    stays) and evicts the entry, after which [has(key)] is [false] at
    any time.  The entry is expired exactly when [Date.now() > expiry]. *)
Theorem set_get_until_expiry (s : t) (key : string) (v : value)
    (ttl now created : Z) (rs : list read) (t : Z) :
  Forall (read_within key (now + ttl)) rs ->
  let s1 := run_reads rs (set now created key v ttl s) in
  (t <= now + ttl ->
     let s2 := snd (get t key s1) in
     fst (get t key s1) = v /\
     hits (_stats s2) = S (hits (_stats s1)) /\
     misses (_stats s2) = misses (_stats s1) /\
     cache s2 !! key = Some (mkEntry v (now + ttl) created)) /\
  (now + ttl < t ->
     let s2 := snd (get t key s1) in
     fst (get t key s1) = VNull /\
     misses (_stats s2) = S (misses (_stats s1)) /\
     hits (_stats s2) = hits (_stats s1) /\
     cache s2 !! key = None /\
     forall t', has t' key s2 = (false, s2)).
Proof.
  intros Hall s1.
  assert (Hk : cache s1 !! key = Some (mkEntry v (now + ttl) created)).
  { apply run_reads_keep; [apply lookup_set | exact Hall]. }
  split.
  - intros Hle. cbn zeta. rewrite (get_live _ _ _ _ Hk) by exact Hle. cbn [fst snd].
    split; [reflexivity|]. split; [reflexivity|]. split; [reflexivity | exact Hk].
  - intros Hlt. cbn zeta. rewrite (get_expired _ _ _ _ Hk) by exact Hlt. cbn [fst snd].
    assert (Hgone : cache (recordMiss (snd (delete key s1))) !! key = None).
    { change (cache (snd (delete key s1)) !! key = None).
      rewrite cache_delete. apply lookup_delete_eq. }
    repeat split.
    + unfold delete. rewrite Hk. reflexivity.
    + unfold delete. rewrite Hk. reflexivity.
    + exact Hgone.
    + intros t'. now apply has_absent.
Qed.

Lemma set_get_until_expiry_witness :
  let s1 := run_reads [Get 40 "user-1"; Has 90 "user-2"; Get 100 "user-1"]
              (set 0 0 "user-1" (VNum 7) 100 CacheService.empty) in
  (fst (get 100 "user-1" s1) = VNum 7 /\
   hits (_stats (snd (get 100 "user-1" s1))) = S (hits (_stats s1)) /\
   misses (_stats (snd (get 100 "user-1" s1))) = misses (_stats s1)) /\
  (fst (get 101 "user-1" s1) = VNull /\
   misses (_stats (snd (get 101 "user-1" s1))) = S (misses (_stats s1)) /\
   hits (_stats (snd (get 101 "user-1" s1))) = hits (_stats s1)).
Proof.
  pose proof (set_get_until_expiry CacheService.empty "user-1" (VNum 7) 100 0 0
                [Get 40 "user-1"; Has 90 "user-2"; Get 100 "user-1"]) as H.
  assert (Hall : Forall (read_within "user-1" (0 + 100))
                   [Get 40 "user-1"; Has 90 "user-2"; Get 100 "user-1"])
    by (repeat constructor; cbn; intros; lia).
  split.
  - destruct (H 100 Hall) as [Hlive _].
    destruct Hlive as (H1 & H2 & H3 & _); [lia|].
    split; [exact H1|]. split; [exact H2 | exact H3].
  - destruct (H 101 Hall) as [_ Hlate].
    destruct Hlate as (H1 & H2 & H3 & _); [lia|].
    split; [exact H1|]. split; [exact H2 | exact H3].
Defined.

(** *** [null] values *)

(** C9, as the code has it.  After [set(key, null, ttl)] at time [now]
    and until [now + ttl]: [get(key)] returns [null], the value it also
    returns for a key that is absent, but records a hit, not a miss (the
    hit counter goes up by one, the miss counter stays), and [has(key)]
    is [true]; [wrap] (when no stream is pending for the key)
    and [getOrSet] take the [null] for a miss and call the factory, the
    entry staying in the cache. *)
Theorem null_entry_reads_as_absent (s : t) (key : string)
    (ttl now created t ttl' : Z) :
  observables s !! key = None ->
  t <= now + ttl ->
  let s1 := set now created key VNull ttl s in
  fst (get t key s1) = VNull /\
  hits (_stats (snd (get t key s1))) = S (hits (_stats s1)) /\
  misses (_stats (snd (get t key s1))) = misses (_stats s1) /\
  has t key s1 = (true, s1) /\
  fst (wrap t key ttl' s1) = Stream (length (streams s1)) /\
  factoryCalls (snd (wrap t key ttl' s1)) = factoryCalls s1 ++ [key] /\
  fst (getOrSet_begin t key s1) = None /\
  factoryCalls (snd (getOrSet_begin t key s1)) = factoryCalls s1 ++ [key] /\
  is_Some (cache (snd (wrap t key ttl' s1)) !! key).
Proof.
  intros Hobs Hle s1.
  assert (Hk : cache s1 !! key = Some (mkEntry VNull (now + ttl) created))
    by apply lookup_set.
  assert (Hget : get t key s1 = (VNull, recordHit s1))
    by (now rewrite (get_live _ _ _ _ Hk)).
  assert (Hhas : has t key s1 = (true, s1)).
  { unfold has, isExpired. rewrite Hk. cbn.
    destruct (Z.ltb_spec (now + ttl) t); [lia | reflexivity]. }
  assert (Hwrap : wrap t key ttl' s1 =
            (Stream (length (streams s1)),
             with_observables (<[key := length (streams s1)]> (observables s1))
               (with_streams (streams s1 ++ [mkPending key ttl' ShareReplay.init])
                  (with_factoryCalls (factoryCalls s1 ++ [key]) (recordHit s1))))).
  { unfold wrap. rewrite Hget. cbn. rewrite Hobs. reflexivity. }
  split; [now rewrite Hget|]. split; [now rewrite Hget|]. split; [now rewrite Hget|].
  split; [exact Hhas|].
  split; [now rewrite Hwrap|]. split; [now rewrite Hwrap|].
  split; [unfold getOrSet_begin; now rewrite Hget|].
  split; [unfold getOrSet_begin; now rewrite Hget|].
  rewrite Hwrap. cbn. rewrite lookup_insert_eq. eauto.
Qed.

Lemma null_entry_reads_as_absent_witness :
  let s1 := set 0 0 "k" VNull 1000 CacheService.empty in
  fst (get 500 "k" s1) = VNull /\
  hits (_stats (snd (get 500 "k" s1))) = S (hits (_stats s1)) /\
  misses (_stats (snd (get 500 "k" s1))) = misses (_stats s1) /\
  factoryCalls (snd (wrap 500 "k" 60000 s1)) = ["k"%string].
Proof.
  pose proof (null_entry_reads_as_absent CacheService.empty "k" 1000 0 0 500 60000)
    as H.
  cbn zeta in H.
  assert (H1 : observables CacheService.empty !! "k"%string = None) by reflexivity.
  assert (H2 : 500 <= 0 + 1000) by lia.
  destruct (H H1 H2) as (Hg & Hh & Hm & _ & _ & Hf & _).
  split; [exact Hg|]. split; [exact Hh|]. split; [exact Hm | exact Hf].
Defined.

(** C9 as it is worded fails: the [get] of a stored [null] counts as a
    hit and leaves the miss counter alone, and [has] tells the stored
    [null] from an absent key. *)
Lemma null_entry_records_hit :
  let s1 := set 0 0 "k" VNull 1000 CacheService.empty in
  let s2 := snd (get 1 "k" s1) in
  fst (get 1 "k" s1) = VNull /\
  misses (_stats s2) = misses (_stats s1) /\
  hits (_stats s2) = S (hits (_stats s1)) /\
  fst (has 1 "k" s1) = true /\
  fst (has 1 "other" s1) = false.
Proof. vm_compute. repeat split; reflexivity. Qed.

(** *** [wrap] and the pending streams *)

Lemma wrap_pending now key ttl h s :
  cache s !! key = None -> observables s !! key = Some h ->
  wrap now key ttl s = (Stream h, recordMiss s).
Proof.
  intros Hk Ho. unfold wrap. rewrite (get_absent _ _ _ Hk). cbn.
  now rewrite Ho.
Qed.

Lemma wrap_all_pending key ttl h times : forall s,
  cache s !! key = None -> observables s !! key = Some h ->
  fst (wrap_all times key ttl s) = repeat (Stream h) (length times) /\
  cache (snd (wrap_all times key ttl s)) = cache s /\
  observables (snd (wrap_all times key ttl s)) = observables s /\
  streams (snd (wrap_all times key ttl s)) = streams s /\
  factoryCalls (snd (wrap_all times key ttl s)) = factoryCalls s.
Proof.
  induction times as [|now rest IH]; intros s Hk Ho; cbn; [easy|].
  rewrite (wrap_pending _ _ _ _ _ Hk Ho).
  destruct (IH (recordMiss s) Hk Ho) as (Hr & Hc & Hob & Hs & Hf).
  destruct (wrap_all rest key ttl (recordMiss s)) as [rs s2]. cbn in *.
  now rewrite Hr.
Qed.

(** The first call: nothing live in the cache, nothing pending. *)
Lemma wrap_first now key ttl s :
  (forall e, cache s !! key = Some e -> expiry e < now) ->
  observables s !! key = None ->
  let s1 := snd (wrap now key ttl s) in
  fst (wrap now key ttl s) = Stream (length (streams s)) /\
  cache s1 !! key = None /\
  observables s1 !! key = Some (length (streams s)) /\
  streams s1 = streams s ++ [mkPending key ttl ShareReplay.init] /\
  factoryCalls s1 = factoryCalls s ++ [key].
Proof.
  intros Hexp Ho. unfold wrap.
  destruct (cache s !! key) as [e|] eqn:Hk.
  - rewrite (get_expired _ _ _ _ Hk (Hexp e eq_refl)). cbn [is_null negb].
    assert (Ho' : observables (recordMiss (snd (delete key s))) !! key = None).
    { change (observables (snd (delete key s)) !! key = None).
      rewrite observables_delete. apply lookup_delete_eq. }
    rewrite Ho'. cbn [fst snd].
    assert (Hst : streams (snd (delete key s)) = streams s)
      by (unfold delete; destruct (bool_decide _); reflexivity).
    assert (Hfc : factoryCalls (snd (delete key s)) = factoryCalls s)
      by (unfold delete; destruct (bool_decide _); reflexivity).
    cbn [cache observables streams factoryCalls with_observables with_streams
           with_factoryCalls recordMiss with_stats].
    rewrite Hst, Hfc. repeat split.
    + rewrite cache_delete. apply lookup_delete_eq.
    + apply lookup_insert_eq.
  - rewrite (get_absent _ _ _ Hk). cbn. rewrite Ho. cbn.
    repeat split; [exact Hk | apply lookup_insert_eq].
Qed.

Lemma streams_set_share h o s p :
  streams s !! h = Some p ->
  streams (set_share h o s) !! h = Some (mkPending (p_key p) (p_ttl p) o).
Proof.
  intros Hp. unfold set_share. cbn. rewrite list_lookup_alter_eq, Hp. reflexivity.
Qed.

Lemma subscribe_all_idle key ttl h subs : forall s c l n,
  streams s !! h = Some (mkPending key ttl (ShareReplay.mk c None false l n)) ->
  fst (subscribe_all h subs s) = [] /\
  cache (snd (subscribe_all h subs s)) = cache s /\
  observables (snd (subscribe_all h subs s)) = observables s /\
  factoryCalls (snd (subscribe_all h subs s)) = factoryCalls s /\
  streams (snd (subscribe_all h subs s)) !! h
    = Some (mkPending key ttl (joined c l n subs)).
Proof.
  induction subs as [|sub rest IH]; intros s c l n Hp; cbn; [easy|].
  unfold subscribe. rewrite Hp. cbn [p_share].
  set (o1 := ShareReplay.mk true None false (l ++ [sub]) (if c then n else S n)).
  assert (Hsub : ShareReplay.subscribe sub (ShareReplay.mk c None false l n)
                 = (negb c, [], o1)).
  { unfold ShareReplay.subscribe, ShareReplay.replay. cbn. now destruct c. }
  rewrite Hsub. cbn iota beta.
  pose proof (streams_set_share h o1 s _ Hp) as Hp1. cbn [p_key p_ttl] in Hp1.
  destruct (IH (set_share h o1 s) true (l ++ [sub]) (if c then n else S n) Hp1)
    as (Hout & Hc & Ho & Hf & Hs).
  destruct (subscribe_all h rest (set_share h o1 s)) as [outs s2]. cbn in *.
  subst outs. repeat split; try assumption.
  rewrite Hs. unfold joined. destruct rest; [reflexivity|].
  now rewrite <- app_assoc.
Qed.

(** Why the theorem asks for a cache without a live entry of the key.
    A stored [null] that expires between two calls: the second call's
    [get] evicts the entry, [delete] drops the pending stream with it,
    and the factory is called a second time although the first stream
    has emitted nothing. *)
Lemma wrap_calls_factory_twice :
  let s0 := set 0 0 "k" VNull 10 CacheService.empty in
  let r := wrap_all [5; 20] "k" 60000 s0 in
  fst r = [Stream 0%nat; Stream 1%nat] /\
  factoryCalls (snd r) = ["k"%string; "k"%string] /\
  share_of 0 (snd r) = Some ShareReplay.init.
Proof. vm_compute. repeat split; reflexivity. Qed.

(** C3 as it is worded fails.  On an empty cache the first call's
    stream emits a value and stays open: [tap] has stored the value and
    dropped the pending stream.  Once the value's [ttl] has run out, a
    further call finds neither and invokes the factory again, the first
    stream still not completed. *)
Lemma wrap_calls_factory_twice_open_stream :
  let '(_, s1) := wrap 0 "k" 10 CacheService.empty in
  let '(_, s2) := subscribe 0 7 s1 in
  let '(out, s3) := source_next 1 1 0 (VNum 42) s2 in
  let '(r, s4) := wrap 20 "k" 10 s3 in
  out = [(7%nat, Next (VNum 42))] /\
  r = Stream 1%nat /\
  factoryCalls s4 = ["k"%string; "k"%string] /\
  ShareReplay.completed <$> share_of 0 s4 = Some false.
Proof. vm_compute. repeat split; reflexivity. Qed.

(** C5 on the code.  A first [wrap] on an empty service, one subscriber,
    and the factory's stream fails: the error reaches the subscriber and
    nothing is cached, but the stream is still registered as pending for
    the key, and the next [wrap] hands it out again without calling the
    factory.  When the stream emits a value instead, the registration
    is removed. *)
Theorem wrap_error_keeps_pending (key : string) (ttl now later : Z)
    (sub : nat) (e : error) (v : value) :
  let s1 := snd (wrap now key ttl CacheService.empty) in
  let s2 := snd (subscribe 0 sub s1) in
  let failed := source_error 0 e s2 in
  let emitted := source_next later later 0 v s2 in
  fst (wrap now key ttl CacheService.empty) = Stream 0%nat /\
  observables s2 !! key = Some 0%nat /\
  fst failed = [(sub, Error e)] /\
  cache (snd failed) !! key = None /\
  observables (snd failed) !! key = Some 0%nat /\
  fst (wrap later key ttl (snd failed)) = Stream 0%nat /\
  factoryCalls (snd (wrap later key ttl (snd failed))) = [key] /\
  fst emitted = [(sub, Next v)] /\
  observables (snd emitted) !! key = None.
Proof.
  cbn zeta.
  assert (Hw : wrap now key ttl CacheService.empty =
               (Stream 0%nat,
                mkState ∅ {[key := 0%nat]} [] (mkStats 0 1 0)
                  [mkPending key ttl ShareReplay.init] [key])).
  { unfold wrap, get. cbn. rewrite !lookup_empty. reflexivity. }
  rewrite Hw. cbn [fst snd].
  unfold subscribe, source_error, source_next. cbn.
  repeat split.
  - apply lookup_singleton_eq.
  - apply lookup_singleton_eq.
  - unfold wrap, get. cbn. rewrite lookup_empty. cbn.
    now rewrite lookup_singleton_eq.
  - unfold wrap, get. cbn. rewrite lookup_empty. cbn.
    now rewrite lookup_singleton_eq.
  - apply lookup_delete_eq.
Qed.

End CacheFacts.

(** ** ApiService.withRetry *)
Module RetryFacts.
Import ApiService.

Lemma retry_delayMs_exponential retryConfig n :
  exponentialBackoff retryConfig = true ->
  retry_delayMs retryConfig n = Z.min (retryDelay retryConfig * 2 ^ Z.of_nat n) 30000.
Proof. intros H. unfold retry_delayMs. now rewrite H. Qed.

Lemma retry_delayMs_flat retryConfig n :
  exponentialBackoff retryConfig = false ->
  retry_delayMs retryConfig n = retryDelay retryConfig.
Proof. intros H. unfold retry_delayMs. now rewrite H. Qed.

Lemma retry_scan_retryable retryConfig n e :
  Z.of_nat n < maxRetries retryConfig -> retryable retryConfig e = true ->
  retry_scan retryConfig n e = inr (S n).
Proof.
  intros Hn He. unfold retry_scan.
  destruct (Z.leb_spec (maxRetries retryConfig) (Z.of_nat n)); [lia|].
  destruct e; cbn in *; [now rewrite He | reflexivity | reflexivity].
Qed.

Lemma retry_scan_exhausted retryConfig n e :
  maxRetries retryConfig <= Z.of_nat n -> retry_scan retryConfig n e = inl e.
Proof.
  intros Hn. unfold retry_scan.
  destruct (Z.leb_spec (maxRetries retryConfig) (Z.of_nat n)); [reflexivity | lia].
Qed.

Lemma retry_scan_status retryConfig n status :
  includes (retryStatuses retryConfig) status = false ->
  retry_scan retryConfig n (HttpErrorResponse status) = inl (HttpErrorResponse status).
Proof.
  intros Hs. unfold retry_scan.
  destruct (maxRetries retryConfig <=? Z.of_nat n); [reflexivity|].
  now rewrite Hs.
Qed.

(** As long as retries are left, every retryable failure costs one
    delay and one new subscription; the delay before retry number [n]
    (counted from 1) is [retry_delayMs retryConfig n]. *)
Lemma retryWhen_retries retryConfig errs : forall n rest,
  Z.of_nat (n + length errs) <= maxRetries retryConfig ->
  Forall (fun e => retryable retryConfig e = true) errs ->
  retryWhen retryConfig n (map Fails errs ++ rest)
    = backoff retryConfig n (length errs)
        ++ retryWhen retryConfig (n + length errs) rest.
Proof.
  induction errs as [|e errs IH]; intros n rest Hn Hall; cbn [length] in *.
  - cbn. now rewrite Nat.add_0_r.
  - inversion Hall; subst. cbn [map app retryWhen backoff].
    rewrite retry_scan_retryable by (assumption || lia).
    rewrite IH by (assumption || lia).
    replace (S n + length errs)%nat with (n + S (length errs))%nat by lia.
    reflexivity.
Qed.

Lemma delays_backoff retryConfig count : forall from,
  delays (backoff retryConfig from count)
    = map (retry_delayMs retryConfig) (seq (S from) count).
Proof.
  induction count as [|count IH]; intros from; cbn; [reflexivity|].
  f_equal. apply IH.
Qed.

(** What the code computes in general: with exponential backoff the
    delay before retry [n] is [min(retryDelay * 2^n, 30000)], the
    exponent being the retry number itself. *)
Lemma withRetry_delays (config : option PartialRetryConfig) errs v :
  Z.of_nat (length errs) <= maxRetries (merge config) ->
  Forall (fun e => retryable (merge config) e = true) errs ->
  withRetry (map Fails errs ++ [Succeeds v]) config
    = Subscribed :: backoff (merge config) 0 (length errs) ++ [Emitted v; Completed] /\
  delays (withRetry (map Fails errs ++ [Succeeds v]) config)
    = map (retry_delayMs (merge config)) (seq 1 (length errs)).
Proof.
  intros Hn Hall.
  assert (Hrun : withRetry (map Fails errs ++ [Succeeds v]) config
            = Subscribed :: backoff (merge config) 0 (length errs)
                ++ [Emitted v; Completed]).
  { unfold withRetry. rewrite retryWhen_retries by (assumption || lia).
    reflexivity. }
  split; [exact Hrun|].
  rewrite Hrun. unfold delays. cbn [flat_map app].
  rewrite flat_map_app. cbn. rewrite app_nil_r.
  apply delays_backoff.
Qed.

(** C1 on the code.  [maxRetries = 3], [retryDelay = 1000],
    [exponentialBackoff = true] (the defaults), a request that fails
    with status 503 three times and then succeeds: the stream yields the
    value after four subscriptions, and the delays are 2000, 4000 and
    8000 ms, not 1000, 2000 and 4000 ms.  Without exponential backoff
    the delays are the flat [retryDelay]. *)
Theorem withRetry_backoff_doubles_first_delay (v : value) :
  let script := [Fails (HttpErrorResponse 503); Fails (HttpErrorResponse 503);
                 Fails (HttpErrorResponse 503); Succeeds v] in
  let config := Some (mkPartialRetryConfig (Some 3) (Some 1000) None (Some true)) in
  let flat := Some (mkPartialRetryConfig (Some 3) (Some 1000) None (Some false)) in
  withRetry script config
    = [Subscribed; Waited 2000; Subscribed; Waited 4000; Subscribed;
       Waited 8000; Subscribed; Emitted v; Completed] /\
  delays (withRetry script config) = [2000; 4000; 8000] /\
  delays (withRetry script flat) = [1000; 1000; 1000].
Proof. repeat split; reflexivity. Qed.

(** A failure that is an [HttpErrorResponse] with a status outside
    [retryStatuses] ends the stream at once, with no delay and no second
    subscription; and once [maxRetries] retries have been made, the next
    failure is raised as it is. *)
Lemma withRetry_aborts_on_status (config : option PartialRetryConfig) status rest :
  includes (retryStatuses (merge config)) status = false ->
  withRetry (Fails (HttpErrorResponse status) :: rest) config
    = [Subscribed; Raised (HttpErrorResponse status)].
Proof.
  intros Hs. unfold withRetry. cbn [retryWhen].
  now rewrite retry_scan_status.
Qed.

Lemma withRetry_exhausted (config : option PartialRetryConfig) errs last rest :
  Z.of_nat (length errs) = maxRetries (merge config) ->
  Forall (fun e => retryable (merge config) e = true) errs ->
  withRetry (map Fails errs ++ Fails last :: rest) config
    = Subscribed :: backoff (merge config) 0 (length errs) ++ [Raised last].
Proof.
  intros Hn Hall. unfold withRetry.
  rewrite retryWhen_retries by (assumption || lia).
  cbn [retryWhen Nat.add]. rewrite retry_scan_exhausted by lia. reflexivity.
Qed.

(** C6 on the code.  The request is an [ApiService.get] (error handler
    not skipped) and the transport always answers with status 400, which
    is not in [retryStatuses]: [handleError] has turned the failure into
    an [ApiErrorResponse], which is not an [HttpErrorResponse], so the
    status is never looked at and the request is retried three times,
    after 2000, 4000 and 8000 ms, before the error is raised.  The same
    request with the error handler skipped fails at once. *)
Theorem withRetry_retries_normalised_400 :
  let failure := get_failure 400 None in
  let raw := get_failure 400 (Some (mkRequestConfig true None)) in
  failure = Fails (ApiErrorResponse "400") /\
  includes (retryStatuses DEFAULT_RETRY_CONFIG) 400 = false /\
  withRetry [failure; failure; failure; failure; failure] None
    = [Subscribed; Waited 2000; Subscribed; Waited 4000; Subscribed;
       Waited 8000; Subscribed; Raised (ApiErrorResponse "400")] /\
  subscriptions (withRetry [failure; failure; failure; failure; failure] None) = 4%nat /\
  withRetry [raw; raw; raw; raw; raw] None
    = [Subscribed; Raised (HttpErrorResponse 400)] /\
  subscriptions (withRetry [raw; raw; raw; raw; raw] None) = 1%nat.
Proof. repeat split; reflexivity. Qed.

End RetryFacts.

(** ** ApiService.get and the response cache *)
Module ApiFacts.
Import ApiService.

Lemma get_miss now url ttl_ key_ s :
  responses s !! default url key_ = None ->
  get now url (caching ttl_ key_) s
    = (Fresh (length (requests s)),
       mkState (delete (default url key_) (responses s))
         (requests s ++ [mkRequest url (caching ttl_ key_) (Some ShareReplay.init)])
         (http s)).
Proof.
  intros Hk. unfold get, getFromCache. cbn. now rewrite Hk.
Qed.

(** A call that misses the cache makes a stream of its own, and the
    subscription to it sends a request of its own. *)
Lemma call_miss url ttl_ key_ caller s :
  responses s !! default url key_ = None ->
  let s1 := call url (caching ttl_ key_) caller s in
  responses s1 !! default url key_ = None /\
  length (requests s1) = S (length (requests s)) /\
  http s1 = http s ++ [mkExchange (length (requests s)) None true].
Proof.
  intros Hk. unfold call. rewrite (get_miss _ _ _ _ _ Hk).
  unfold subscribe. cbn [requests fst snd].
  rewrite lookup_app_r by lia. rewrite Nat.sub_diag. cbn.
  repeat split.
  - apply lookup_delete_eq.
  - rewrite length_alter, length_app. cbn. lia.
Qed.

Lemma calls_miss url ttl_ key_ callers : forall s,
  responses s !! default url key_ = None ->
  let s1 := calls url (caching ttl_ key_) callers s in
  responses s1 !! default url key_ = None /\
  length (requests s1) = (length (requests s) + length callers)%nat /\
  http s1 = http s ++ map (fun h => mkExchange h None true)
                         (seq (length (requests s)) (length callers)).
Proof.
  induction callers as [|caller callers IH]; intros s Hk; cbn.
  - rewrite app_nil_r. repeat split; [exact Hk | lia].
  - destruct (call_miss url ttl_ key_ caller s Hk) as (Hk1 & Hlen & Hhttp).
    destruct (IH _ Hk1) as (Hk2 & Hlen2 & Hhttp2).
    unfold calls in *. cbn zeta in *.
    repeat split.
    + exact Hk2.
    + rewrite Hlen2, Hlen. lia.
    + rewrite Hhttp2, Hhttp, Hlen, <- app_assoc. reflexivity.
Qed.

Lemma requests_set_share h o s r :
  requests s !! h = Some r ->
  requests (set_share h o s) !! h = Some (mkRequest (r_url r) (r_config r) (Some o)).
Proof.
  intros Hr. unfold set_share. cbn. now rewrite list_lookup_alter_eq, Hr.
Qed.

(** The subscribers of one cached stream that has not answered yet:
    only the first of them makes the transport send a request. *)
Lemma subscribe_all_shares now url ttl_ key_ h subs : forall s c l n,
  requests s !! h
    = Some (mkRequest url (caching ttl_ key_) (Some (ShareReplay.mk c None false l n))) ->
  http (subscribe_all now h subs s)
    = http s ++ (if c then []
                 else match subs with [] => [] | _ => [mkExchange h None true] end).
Proof.
  induction subs as [|sub subs IH]; intros s c l n Hr.
  - cbn. destruct c; now rewrite app_nil_r.
  - unfold subscribe_all in *. cbn [fold_left].
    set (o1 := ShareReplay.mk true None false (l ++ [sub]) (if c then n else S n)).
    assert (Hsub : ShareReplay.subscribe sub (ShareReplay.mk c None false l n)
                   = (negb c, [], o1)).
    { unfold ShareReplay.subscribe, ShareReplay.replay. cbn. now destruct c. }
    assert (Hstep : exists s1,
               snd (subscribe now h sub s) = s1 /\
               requests s1 !! h
                 = Some (mkRequest url (caching ttl_ key_) (Some o1)) /\
               http s1 = http s ++ (if c then [] else [mkExchange h None true])).
    { unfold subscribe. rewrite Hr. cbn [r_share]. rewrite Hsub.
      pose proof (requests_set_share h o1 s _ Hr) as Hr1. cbn [r_url r_config] in Hr1.
      destruct c; cbn [negb write_through cache_enabled caching cache enabled
                        fold_left snd].
      - eexists; split; [reflexivity|]. split; [exact Hr1|].
        cbn. now rewrite app_nil_r.
      - eexists; split; [reflexivity|]. split; [exact Hr1|reflexivity]. }
    destruct Hstep as (s1 & -> & Hr1 & Hh1).
    rewrite (IH s1 true _ _ Hr1), Hh1, app_nil_r. reflexivity.
Qed.

(** C4, as the code has it.  With caching enabled and no entry under
    [key ?? url]: every call of [get] builds a request stream of its
    own, so N callers, each subscribing to what it was given while no
    answer has arrived, cause N HTTP requests, one per stream; a request
    is shared only among the subscribers of one returned stream. *)
Theorem get_calls_send_one_request_each (s : t) (url : string)
    (ttl_ : option Z) (key_ : option string) (callers : list (Z * nat))
    (now : Z) (subs : list nat) :
  responses s !! default url key_ = None ->
  let config := caching ttl_ key_ in
  let s1 := calls url config callers s in
  let s2 := subscribe_all now (length (requests s)) subs (snd (get now url config s)) in
  http s1 = http s ++ map (fun h => mkExchange h None true)
                         (seq (length (requests s)) (length callers)) /\
  length (http s1) = (length (http s) + length callers)%nat /\
  (subs <> [] -> length (http s2) = S (length (http s))).
Proof.
  intros Hk config s1 s2.
  destruct (calls_miss url ttl_ key_ callers s Hk) as (_ & _ & Hhttp).
  fold config in Hhttp. fold s1 in Hhttp.
  repeat split.
  - exact Hhttp.
  - rewrite Hhttp, length_app, length_map, length_seq. reflexivity.
  - intros Hne. unfold s2, config. rewrite (get_miss _ _ _ _ _ Hk). cbn [snd].
    rewrite (subscribe_all_shares now url ttl_ key_ _ subs _ false [] 0%nat).
    + cbn [http]. destruct subs; [contradiction|].
      rewrite length_app. cbn. lia.
    + cbn [requests]. rewrite lookup_app_r by lia.
      now rewrite Nat.sub_diag.
Qed.

Lemma get_calls_send_one_request_each_witness :
  length (http (calls "/api/users" (caching None None) [(0, 1%nat); (3, 2%nat)]
                  ApiService.empty)) = 2%nat.
Proof.
  pose proof (get_calls_send_one_request_each ApiService.empty "/api/users" None None
                [(0, 1%nat); (3, 2%nat)] 0 [1%nat]) as H.
  cbn zeta in H.
  assert (H1 : responses ApiService.empty !! default "/api/users"%string None = None)
    by reflexivity.
  destruct (H H1) as (_ & Hlen & _). exact Hlen.
Defined.

(** C4 as it is worded fails: two calls with caching enabled and the
    same key, the cache empty, the second made while the first request
    is in flight; two requests go out, each for a stream of its own,
    both still open. *)
Lemma get_twice_sends_two_requests :
  let s := calls "/api/users" (caching (Some 60000) (Some "users"))
             [(0, 1%nat); (5, 2%nat)] ApiService.empty in
  http s = [mkExchange 0 None true; mkExchange 1 None true] /\
  length (requests s) = 2%nat.
Proof. vm_compute. split; reflexivity. Qed.

(** The write-through: once the answer has arrived, a call made before
    the entry expires is served from the cache and sends nothing. *)
Lemma get_after_answer_is_cached :
  let s1 := calls "/api/users" (caching (Some 60000) None) [(0, 1%nat)]
              ApiService.empty in
  let '(out, s2) := respond 40 0 (inl (VNum 7)) s1 in
  let '(r, s3) := get 1000 "/api/users" (caching (Some 60000) None) s2 in
  out = [(1%nat, Next (VNum 7)); (1%nat, Complete)] /\
  r = Cached (VNum 7) /\
  http s3 = [mkExchange 0 None false].
Proof. vm_compute. repeat split; reflexivity. Qed.

End ApiFacts.

(** ** ApiService.createPaginatedStream *)
Module PaginatedFacts.
Import PaginatedStream.

Lemma created (now : Z) (entry : option Cached) (config : option Config) :
  ApiService.cache_enabled (config ≫= requestConfig) = None ->
  createPaginatedStream now entry config
    = mk (default 20 (config ≫= pageSize_opt)) (default 1 (config ≫= initialPage_opt))
         (config ≫= requestConfig) now entry
         (default 1 (config ≫= initialPage_opt)) [] true true None
         (Some (default 1 (config ≫= initialPage_opt)))
         [(default 1 (config ≫= initialPage_opt), default 20 (config ≫= pageSize_opt))]
         [[]] false.
Proof.
  intros Hc. unfold createPaginatedStream, page_next, getPaginated.
  cbn [stopped set_page loading_next set_inflight s_requestConfig s_pageSize
       s_initialPage clock cached page_v data_v loading_v hasMore_v error_v inflight
       requested data_emitted send app].
  rewrite Hc. reflexivity.
Qed.




End PaginatedFacts.

(** ** WebSocketService: reconnection *)
Module WebSocketFacts.
Import WebSocketService.

Lemma reconnects_set_state st s :
  reconnects (set_state st s)
    = (reconnects s + if state_eqb st reconnecting then 1 else 0)%nat.
Proof.
  unfold reconnects. cbn. rewrite List.filter_app, length_app. cbn.
  now destruct (state_eqb st reconnecting).
Qed.











(** [reconnectAttempts = 2] and a server that is down, state by state.
    The first socket fails: its error and its close start the two
    attempts, and both timers open a socket.  When these fail as well
    the service gives up: the state signal ends at [disconnected] and the
    error signal holds the terminal error. *)
Lemma reconnect_twice_then_stop :
  let c := WebSocketConfig.mk "wss://api.example.com/ws" (Some true) None (Some 2) None in
  let down := JsError "CloseEvent" in
  let s1 := run (failed_socket down ++ [ReconnectTimer; ReconnectTimer]
                   ++ failed_socket down ++ failed_socket down)
              (connect c init) in
  stateLog s1 = [connecting; error_; reconnecting; disconnected; reconnecting;
                 error_; disconnected; error_; disconnected] /\
  connections s1 = 3%nat /\ reconnectTimers s1 = [] /\
  _state s1 = disconnected /\ _error s1 = Some max_reached.
Proof. vm_compute. repeat split; reflexivity. Qed.


(** *** request *)

Lemma state_eqb_neq a b : a <> b -> state_eqb a b = false.
Proof. destruct a, b; cbn; intros H; try reflexivity; now contradiction H. Qed.

(** [send] outside the [connected] state: a warning, nothing sent. *)
Lemma send_not_connected now fresh message s :
  _state s <> connected ->
  sent (send now fresh message s) = sent s /\
  warnings (send now fresh message s) = warnings s ++ [message] /\
  _state (send now fresh message s) = _state s.
Proof.
  intros Hs. unfold send. rewrite (state_eqb_neq _ _ Hs).
  destruct (socket s); cbn; auto.
Qed.

Lemma request_step_quiet tk r :
  quiet (rq_id r) (rq_responseType r) (rq_deadline r) tk ->
  request_step tk r = r.
Proof.
  destruct tk as [now|m]; cbn; intros Hq.
  - unfold request_on_time.
    destruct (Z.leb_spec (rq_deadline r) now); [lia|].
    now rewrite andb_false_r.
  - unfold request_on_message.
    destruct Hq as [Hty|Hid].
    + apply String.eqb_neq in Hty. rewrite Hty.
      now rewrite andb_false_r.
    + destruct (id m) as [i|]; [|now rewrite andb_false_r].
      assert (Hi : i <> rq_id r) by congruence.
      apply String.eqb_neq in Hi. rewrite Hi. now rewrite andb_false_r.
Qed.

Lemma request_run_quiet tks : forall r,
  Forall (quiet (rq_id r) (rq_responseType r) (rq_deadline r)) tks ->
  request_run tks r = r.
Proof.
  induction tks as [|tk tks IH]; intros r Hall; [reflexivity|].
  inversion Hall; subst. cbn [request_run fold_left].
  rewrite request_step_quiet by assumption. now apply IH.
Qed.

(** A settled request ignores what comes later. *)
Lemma request_run_settled tks : forall r,
  rq_timer r = false -> rq_listening r = false -> request_run tks r = r.
Proof.
  induction tks as [|tk tks IH]; intros r Ht Hl; [reflexivity|].
  cbn [request_run fold_left].
  assert (Hstep : request_step tk r = r).
  { destruct tk; cbn; unfold request_on_time, request_on_message;
      rewrite ?Ht, ?Hl; reflexivity. }
  rewrite Hstep. now apply IH.
Qed.

(** C10.  [request(type, payload, responseType, timeout)] subscribed at
    time [now] while the state is not [connected]: [send] logs a warning
    and transmits nothing; the subscriber receives nothing at first, and
    nothing as long as the time is before [now + timeout] and no message
    of type [responseType] carrying the request's id comes in; when the
    clock reaches [now + timeout] the subscriber receives the error
    "WebSocket request timeout: <type>", and nothing after it.
    [timeout] defaults to 30000 ms. *)
Theorem request_not_connected_times_out (s : t) (now : Z) (fresh type_ : string)
    (payload_ : value) (responseType : string) (timeout : option Z)
    (before after : list tick) (t : Z) :
  _state s <> connected ->
  let deadline := now + default 30000 timeout in
  Forall (quiet fresh responseType deadline) before ->
  deadline <= t ->
  let r := fst (request now fresh type_ payload_ responseType timeout s) in
  let s1 := snd (request now fresh type_ payload_ responseType timeout s) in
  sent s1 = sent s /\
  warnings s1 = warnings s ++ [mkMessage type_ payload_ None (Some fresh)] /\
  rq_received r = [] /\
  rq_received (request_run before r) = [] /\
  rq_received (request_run (before ++ [At t]) r) = [Error (timeout_error type_)] /\
  rq_received (request_run (before ++ At t :: after) r)
    = [Error (timeout_error type_)].
Proof.
  intros Hs deadline Hq Ht r s1.
  destruct (send_not_connected now fresh (mkMessage type_ payload_ None (Some fresh))
              s Hs) as (Hsent & Hwarn & _).
  assert (Hquiet : request_run before r = r)
    by (apply request_run_quiet; exact Hq).
  assert (Hfire : request_step (At t) r
                  = mkRequest fresh type_ responseType deadline false false
                      [Error (timeout_error type_)]).
  { cbn. unfold request_on_time. cbn.
    destruct (Z.leb_spec (now + default 30000 timeout) t); [reflexivity|].
    unfold deadline in Ht. lia. }
  assert (Hrun : forall more, request_run (before ++ At t :: more) r
                   = mkRequest fresh type_ responseType deadline false false
                       [Error (timeout_error type_)]).
  { intros more. unfold request_run. rewrite fold_left_app.
    fold (request_run before r). rewrite Hquiet. cbn [fold_left].
    rewrite Hfire. now apply request_run_settled. }
  split; [exact Hsent|]. split; [exact Hwarn|]. split; [reflexivity|].
  split; [now rewrite Hquiet|].
  split; [now rewrite (Hrun [])|]. now rewrite (Hrun after).
Qed.

Lemma request_not_connected_times_out_witness :
  let r := fst (request 1000 "1000-abc" "getUser" (VNum 7) "user" (Some 100) init) in
  sent (snd (request 1000 "1000-abc" "getUser" (VNum 7) "user" (Some 100) init)) = [] /\
  rq_received (request_run [At 1050; Incoming (mkMessage "user" VNull None (Some "other"));
                            At 1099] r) = [] /\
  rq_received (request_run [At 1050; Incoming (mkMessage "user" VNull None (Some "other"));
                            At 1099; At 1100] r)
    = [Error (JsError "WebSocket request timeout: getUser")].
Proof.
  pose proof (request_not_connected_times_out init 1000 "1000-abc" "getUser" (VNum 7)
                "user" (Some 100)
                [At 1050; Incoming (mkMessage "user" VNull None (Some "other")); At 1099]
                [] 1100) as H.
  cbn zeta in H.
  assert (H1 : _state init <> connected) by discriminate.
  assert (H2 : Forall (quiet "1000-abc" "user" (1000 + default 30000 (Some 100)))
                 [At 1050; Incoming (mkMessage "user" VNull None (Some "other")); At 1099]).
  { constructor; [cbn; lia|].
    constructor; [right; discriminate|].
    constructor; [cbn; lia|]. constructor. }
  assert (H3 : 1000 + default 30000 (Some 100) <= 1100) by (cbn; lia).
  destruct (H H1 H2 H3) as (Hsent & _ & _ & Hq & Hf & _).
  cbn zeta. split; [exact Hsent|]. split; [exact Hq | exact Hf].
Defined.

End WebSocketFacts.

(** ** CacheService: invariants, sweeps and round trips *)
Module CacheSweepFacts.
Import CacheService CacheSweep.

Lemma size_ok_delete key s : size_ok s -> size_ok (snd (delete key s)).
Proof.
  unfold size_ok, delete. intros H.
  destruct (cache s !! key) as [e|] eqn:Hk.
  - rewrite bool_decide_eq_true_2 by eauto. reflexivity.
  - rewrite bool_decide_eq_false_2 by (intros [x Hx]; discriminate Hx).
    cbn. rewrite H. now rewrite (delete_id _ _ Hk).
Qed.

Lemma size_ok_get now key s : size_ok s -> size_ok (snd (get now key s)).
Proof.
  intros H. unfold get. destruct (cache s !! key) as [e|]; [|exact H].
  destruct (isExpired now e); [|exact H].
  apply (size_ok_delete key s H).
Qed.

Lemma size_ok_set now created key v ttl s : size_ok (set now created key v ttl s).
Proof. reflexivity. Qed.

Lemma size_ok_fold {A} (f : A -> bool) (g : A -> string) l : forall acc,
  size_ok (snd acc) ->
  size_ok (snd (fold_left
                  (fun (a : nat * t) x =>
                     if f x then (S (fst a), snd (delete (g x) (snd a))) else a)
                  l acc)).
Proof.
  induction l as [|x l IH]; intros acc H; [exact H|].
  cbn [fold_left]. apply IH. destruct (f x); [|exact H].
  cbn [snd]. now apply size_ok_delete.
Qed.

Lemma size_ok_invalidate ks : forall a,
  size_ok (snd a) -> size_ok (snd (fold_left invalidate_step ks a)).
Proof.
  induction ks as [|key ks IH]; intros a H; [exact H|].
  cbn [fold_left]. apply IH. unfold invalidate_step.
  destruct (fst (test (snd (fst a)) key)); cbn [snd];
    [now apply size_ok_delete | exact H].
Qed.

Lemma size_ok_step o s : size_ok s -> size_ok (step o s).
Proof.
  intros H. destruct o; cbn [step].
  - apply size_ok_set.
  - now apply size_ok_get.
  - unfold has. destruct (cache s !! key) as [e|]; [|exact H].
    destruct (isExpired now e); [|exact H]. now apply size_ok_delete.
  - now apply size_ok_delete.
  - unfold size_ok, clear. cbn. now rewrite map_size_empty.
  - unfold clearExpired.
    apply (size_ok_fold (fun ke => isExpired now (snd ke)) fst). exact H.
  - unfold invalidatePattern. cbn [snd]. apply size_ok_invalidate. exact H.
  - unfold wrap. pose proof (size_ok_get now key s H) as Hg.
    destruct (get now key s) as [cached s1]. cbn [snd] in Hg.
    destruct (negb (is_null cached)); [exact Hg|].
    destruct (observables s1 !! key); exact Hg.
  - unfold subscribe. destruct (streams s !! h) as [p|]; [|exact H].
    destruct (ShareReplay.subscribe sub (p_share p)) as [[b out] o]. exact H.
  - unfold source_next. destruct (streams s !! h) as [p|]; [|exact H].
    destruct (ShareReplay.connected (p_share p)); [|exact H]. reflexivity.
  - unfold source_error. destruct (streams s !! h) as [p|]; [|exact H].
    destruct (ShareReplay.connected (p_share p)); exact H.
  - unfold source_complete. destruct (streams s !! h) as [p|]; [|exact H].
    destruct (ShareReplay.connected (p_share p)); exact H.
  - unfold getOrSet_begin. pose proof (size_ok_get now key s H) as Hg.
    destruct (get now key s) as [cached s1]. cbn [snd] in Hg.
    destruct (negb (is_null cached)); exact Hg.
  - reflexivity.
Qed.

(** X1.  Whatever sequence of operations the service goes through from
    its initial state (calls of its methods, values, errors and
    completions of the streams made by [wrap]), the [size] statistic
    equals the number of entries in the cache. *)
Theorem stats_size_is_entry_count (ops : list op) :
  size (_stats (run ops CacheService.empty))
    = base.size (cache (run ops CacheService.empty)).
Proof.
  assert (H : forall s, size_ok s -> size_ok (run ops s)).
  { induction ops as [|o ops IH]; intros s Hs; [exact Hs|].
    cbn [run fold_left]. apply IH. now apply size_ok_step. }
  apply (H CacheService.empty). reflexivity.
Qed.
(** *** The sweeps *)

(** The common shape of the two loops. *)
Lemma sweep_lookup (p : string -> CacheEntry -> bool) l : forall acc k,
  let r := fold_left
             (fun (a : nat * t) (ke : string * CacheEntry) =>
                if p (fst ke) (snd ke)
                then (S (fst a), snd (delete (fst ke) (snd a))) else a)
             l acc in
  let hit := existsb (fun ke => String.eqb (fst ke) k && p (fst ke) (snd ke)) l in
  cache (snd r) !! k = (if hit then None else cache (snd acc) !! k) /\
  observables (snd r) !! k = (if hit then None else observables (snd acc) !! k) /\
  hits (_stats (snd r)) = hits (_stats (snd acc)) /\
  misses (_stats (snd r)) = misses (_stats (snd acc)).
Proof.
  induction l as [|[k0 e0] l IH]; intros acc k; cbn [fold_left existsb fst snd].
  - easy.
  - destruct (p k0 e0) eqn:Hp; cbn [andb].
    + specialize (IH (S (fst acc), snd (delete k0 (snd acc))) k).
      cbn zeta in IH. cbn [snd] in IH.
      destruct IH as (Hc & Ho & Hh & Hm).
      rewrite Hc, Ho, Hh, Hm, CacheFacts.cache_delete, CacheFacts.observables_delete.
      assert (Hst : hits (_stats (snd (delete k0 (snd acc)))) = hits (_stats (snd acc)) /\
                    misses (_stats (snd (delete k0 (snd acc)))) = misses (_stats (snd acc))).
      { unfold delete. destruct (bool_decide _); split; reflexivity. }
      destruct Hst as (-> & ->).
      destruct (String.eqb_spec k0 k) as [->|Hne]; rewrite ?andb_true_r, ?andb_false_r;
        cbn [orb].
      * rewrite !lookup_delete_eq.
        now destruct (existsb _ l).
      * rewrite !lookup_delete_ne by exact Hne. easy.
    + rewrite andb_false_r. cbn [orb]. apply IH.
Qed.

Lemma sweep_count (p : string -> CacheEntry -> bool) l : forall acc,
  NoDup (l.*1) ->
  (forall k e, (k, e) ∈ l -> cache (snd acc) !! k = Some e) ->
  let r := fold_left
             (fun (a : nat * t) (ke : string * CacheEntry) =>
                if p (fst ke) (snd ke)
                then (S (fst a), snd (delete (fst ke) (snd a))) else a)
             l acc in
  let removed := List.filter (fun ke => p (fst ke) (snd ke)) l in
  fst r = (fst acc + length removed)%nat /\
  (length removed + base.size (cache (snd r)))%nat = base.size (cache (snd acc)) /\
  invalidated (snd r) = invalidated (snd acc) ++ removed.*1.
Proof.
  induction l as [|[k0 e0] l IH]; intros acc Hnd Hin; cbn [fold_left List.filter fst snd].
  - cbn. rewrite app_nil_r. repeat split; lia.
  - cbn in Hnd. apply NoDup_cons in Hnd as [Hk0 Hnd].
    assert (Hk0e : cache (snd acc) !! k0 = Some e0) by (apply Hin; left).
    destruct (p k0 e0) eqn:Hp.
    + assert (Hin' : forall k e, (k, e) ∈ l ->
                       cache (snd (delete k0 (snd acc))) !! k = Some e).
      { intros k e Hke. rewrite CacheFacts.cache_delete.
        rewrite lookup_delete_ne; [apply Hin; now right|].
        intros ->. apply Hk0. apply list_elem_of_fmap. now exists (k, e). }
      specialize (IH (S (fst acc), snd (delete k0 (snd acc))) Hnd Hin').
      cbn zeta in IH. cbn [fst snd] in IH. destruct IH as (Hn & Hs & Hi).
      rewrite Hn, Hi. cbn [length fmap list_fmap fst].
      assert (Hdel : base.size (cache (snd (delete k0 (snd acc))))
                     = pred (base.size (cache (snd acc))) /\
                     invalidated (snd (delete k0 (snd acc)))
                     = invalidated (snd acc) ++ [k0]).
      { unfold delete. rewrite bool_decide_eq_true_2 by eauto. cbn.
        split; [|reflexivity]. apply map_size_delete_Some. eauto. }
      destruct Hdel as (Hsz & Hinv). rewrite Hsz in Hs. rewrite Hinv.
      assert (Hpos : (0 < base.size (cache (snd acc)))%nat).
      { destruct (base.size (cache (snd acc))) eqn:Hz; [|lia].
        apply map_size_empty_inv in Hz. rewrite Hz, lookup_empty in Hk0e.
        discriminate Hk0e. }
      rewrite <- app_assoc. cbn [app]. repeat split; lia.
    + apply IH; [exact Hnd|]. intros k e Hke. apply Hin. now right.
Qed.

Lemma existsb_map_to_list (p : string -> CacheEntry -> bool)
    (m : gmap string CacheEntry) k :
  existsb (fun ke => String.eqb (fst ke) k && p (fst ke) (snd ke)) (map_to_list m)
    = match m !! k with Some e => p k e | None => false end.
Proof.
  destruct (existsb _ (map_to_list m)) eqn:Hex.
  - apply existsb_exists in Hex as ([k' e'] & Hin & Hb). cbn in Hb.
    apply andb_true_iff in Hb as [Hk Hp]. apply String.eqb_eq in Hk. subst k'.
    apply list_elem_of_In, elem_of_map_to_list in Hin. now rewrite Hin.
  - destruct (m !! k) as [e|] eqn:Hk; [|reflexivity].
    destruct (p k e) eqn:Hp; [|reflexivity].
    rewrite <- Hex. apply existsb_exists. exists (k, e). split.
    + apply list_elem_of_In, elem_of_map_to_list. exact Hk.
    + cbn. now rewrite String.eqb_refl, Hp.
Qed.

Lemma fold_left_fst {A} (f : A -> string -> A) (l : list (string * CacheEntry)) :
  forall a, fold_left f (l.*1) a = fold_left (fun a ke => f a (fst ke)) l a.
Proof. induction l as [|x l IH]; intros a; [reflexivity|]. cbn. apply IH. Qed.

(** Both sweeps, by the test they apply. *)
Lemma sweep_exact (p : string -> CacheEntry -> bool) (s : t) :
  let r := fold_left
             (fun (a : nat * t) (ke : string * CacheEntry) =>
                if p (fst ke) (snd ke)
                then (S (fst a), snd (delete (fst ke) (snd a))) else a)
             (map_to_list (cache s)) (0%nat, s) in
  (forall k, cache (snd r) !! k
             = match cache s !! k with
               | Some e => if p k e then None else Some e
               | None => None
               end) /\
  (forall k, observables (snd r) !! k
             = match cache s !! k with
               | Some e => if p k e then None else observables s !! k
               | None => observables s !! k
               end) /\
  fst r = length (swept p s) /\
  (fst r + base.size (cache (snd r)))%nat = base.size (cache s) /\
  invalidated (snd r) = invalidated s ++ (swept p s).*1 /\
  hits (_stats (snd r)) = hits (_stats s) /\
  misses (_stats (snd r)) = misses (_stats s).
Proof.
  intros r.
  assert (Hlook := fun k => sweep_lookup p (map_to_list (cache s)) (0%nat, s) k).
  cbn zeta in Hlook. fold r in Hlook. cbn [snd] in Hlook.
  destruct (sweep_count p (map_to_list (cache s)) (0%nat, s)) as (Hn & Hs & Hi).
  { apply NoDup_fst_map_to_list. }
  { intros k e Hke. now apply elem_of_map_to_list. }
  fold r in Hn, Hs, Hi. cbn [fst snd] in Hn, Hs, Hi. fold (swept p s) in Hn, Hs, Hi.
  split.
  { intros k. destruct (Hlook k) as (Hc & _). rewrite Hc, existsb_map_to_list.
    destruct (cache s !! k) as [e|]; [|reflexivity]. now destruct (p k e). }
  split.
  { intros k. destruct (Hlook k) as (_ & Ho & _). rewrite Ho, existsb_map_to_list.
    destruct (cache s !! k) as [e|]; reflexivity. }
  split; [exact Hn|]. split; [rewrite Hn; exact Hs|]. split; [exact Hi|].
  destruct (Hlook ""%string) as (_ & _ & Hh & Hm). split; assumption.
Qed.

(** X2.  [clearExpired()] at time [now] removes exactly the entries with
    [now > expiry] and keeps every other entry as it is; the number it
    returns is the number of entries removed, the map shrinks by that
    number, every removed key is announced once on [invalidated$] (in an
    order the model does not fix), the pending stream of a removed key
    is dropped with it, and the hit and miss counters are not touched. *)
Theorem clearExpired_removes_exactly_expired (now : Z) (s : t) :
  let r := clearExpired now s in
  let expired := swept (fun _ e => isExpired now e) s in
  (forall k, cache (snd r) !! k
             = match cache s !! k with
               | Some e => if expiry e <? now then None else Some e
               | None => None
               end) /\
  (forall k, observables (snd r) !! k
             = match cache s !! k with
               | Some e => if expiry e <? now then None else observables s !! k
               | None => observables s !! k
               end) /\
  fst r = length expired /\
  (fst r + base.size (cache (snd r)))%nat = base.size (cache s) /\
  (exists announced, invalidated (snd r) = invalidated s ++ announced /\
                     announced ≡ₚ expired.*1) /\
  hits (_stats (snd r)) = hits (_stats s) /\
  misses (_stats (snd r)) = misses (_stats s).
Proof.
  destruct (sweep_exact (fun _ e => isExpired now e) s)
    as (Hc & Ho & Hn & Hs & Hi & Hh & Hm).
  repeat (split; [assumption|]).
  split; [|split; assumption].
  eexists; split; [exact Hi | reflexivity].
Qed.

(** The sweep over the entries in any order. *)
Lemma existsb_entries (p : string -> CacheEntry -> bool)
    (m : gmap string CacheEntry) (l : list (string * CacheEntry)) k :
  l ≡ₚ map_to_list m ->
  existsb (fun ke => String.eqb (fst ke) k && p (fst ke) (snd ke)) l
    = match m !! k with Some e => p k e | None => false end.
Proof.
  intros Hl. rewrite <- existsb_map_to_list.
  destruct (existsb _ (map_to_list m)) eqn:Hex.
  - apply existsb_exists in Hex as (x & Hin & Hb).
    apply existsb_exists. exists x. split; [|exact Hb].
    apply (Permutation_in x (Permutation_sym Hl) Hin).
  - destruct (existsb _ l) eqn:Hex'; [|reflexivity].
    apply existsb_exists in Hex' as (x & Hin & Hb).
    rewrite <- Hex. symmetry. apply existsb_exists. exists x. split; [|exact Hb].
    apply (Permutation_in x Hl Hin).
Qed.

Lemma filter_entries (p : string -> CacheEntry -> bool) (l l' : list (string * CacheEntry)) :
  l ≡ₚ l' ->
  List.filter (fun ke => p (fst ke) (snd ke)) l
    ≡ₚ List.filter (fun ke => p (fst ke) (snd ke)) l'.
Proof.
  induction 1 as [|x l l' _ IH|x y l|l l' l'' _ IH1 _ IH2]; cbn.
  - reflexivity.
  - destruct (p (fst x) (snd x)); [now constructor | exact IH].
  - destruct (p (fst x) (snd x)), (p (fst y) (snd y)); try reflexivity.
    apply perm_swap.
  - etransitivity; eassumption.
Qed.

Lemma sweep_exact_over (p : string -> CacheEntry -> bool) (s : t)
    (l : list (string * CacheEntry)) :
  l ≡ₚ map_to_list (cache s) ->
  let r := fold_left
             (fun (a : nat * t) (ke : string * CacheEntry) =>
                if p (fst ke) (snd ke)
                then (S (fst a), snd (delete (fst ke) (snd a))) else a)
             l (0%nat, s) in
  (forall k, cache (snd r) !! k
             = match cache s !! k with
               | Some e => if p k e then None else Some e
               | None => None
               end) /\
  (forall k, observables (snd r) !! k
             = match cache s !! k with
               | Some e => if p k e then None else observables s !! k
               | None => observables s !! k
               end) /\
  fst r = length (swept p s) /\
  (fst r + base.size (cache (snd r)))%nat = base.size (cache s) /\
  (exists announced, invalidated (snd r) = invalidated s ++ announced /\
                     announced ≡ₚ (swept p s).*1).
Proof.
  intros Hl r.
  assert (Hlook := fun k => sweep_lookup p l (0%nat, s) k).
  cbn zeta in Hlook. fold r in Hlook. cbn [snd] in Hlook.
  assert (Hf : List.filter (fun ke => p (fst ke) (snd ke)) l ≡ₚ swept p s)
    by (apply filter_entries; exact Hl).
  destruct (sweep_count p l (0%nat, s)) as (Hn & Hs & Hi).
  { rewrite Hl. apply NoDup_fst_map_to_list. }
  { intros k e Hke. apply elem_of_map_to_list. now rewrite <- Hl. }
  fold r in Hn, Hs, Hi. cbn [fst snd] in Hn, Hs, Hi.
  split.
  { intros k. destruct (Hlook k) as (Hc & _).
    rewrite Hc, (existsb_entries p (cache s) l k Hl).
    destruct (cache s !! k) as [e|]; [|reflexivity]. now destruct (p k e). }
  split.
  { intros k. destruct (Hlook k) as (_ & Ho & _).
    rewrite Ho, (existsb_entries p (cache s) l k Hl).
    destruct (cache s !! k) as [e|]; reflexivity. }
  split; [rewrite Hn; cbn; now rewrite Hf|].
  split; [rewrite Hn; exact Hs|].
  eexists; split; [exact Hi|]. now rewrite Hf.
Qed.

Lemma test_stateless regex key :
  stateful regex = false -> test regex key = (found (matcher regex 0 key), regex).
Proof. intros H. unfold test. now rewrite H. Qed.

Lemma invalidate_fold_stateless regex ks : forall n s,
  stateful regex = false ->
  fold_left invalidate_step ks (n, regex, s)
    = (fst (fold_left
              (fun (a : nat * t) key =>
                 if found (matcher regex 0 key)
                 then (S (fst a), snd (delete key (snd a))) else a)
              ks (n, s)),
       regex,
       snd (fold_left
              (fun (a : nat * t) key =>
                 if found (matcher regex 0 key)
                 then (S (fst a), snd (delete key (snd a))) else a)
              ks (n, s))).
Proof.
  induction ks as [|key ks IH]; intros n s H; [reflexivity|].
  cbn [fold_left]. unfold invalidate_step at 2. cbn [fst snd].
  rewrite (test_stateless regex key H). cbn [fst snd].
  destruct (found (matcher regex 0 key)); now rewrite IH.
Qed.

Lemma invalidate_fold_any ks : forall a,
  NoDup ks ->
  (forall k, k ∈ ks -> is_Some (cache (snd a) !! k)) ->
  let r := fold_left invalidate_step ks a in
  (fst (fst r) + base.size (cache (snd r)))%nat
    = (fst (fst a) + base.size (cache (snd a)))%nat /\
  (forall k, cache (snd r) !! k = cache (snd a) !! k \/ cache (snd r) !! k = None).
Proof.
  induction ks as [|key ks IH]; intros a Hnd Hin; cbn [fold_left].
  - split; [reflexivity | now left].
  - apply NoDup_cons in Hnd as [Hkey Hnd].
    destruct (fst (test (snd (fst a)) key)) eqn:Ht.
    + assert (Hstep : invalidate_step a key
                      = (S (fst (fst a)), snd (test (snd (fst a)) key),
                         snd (delete key (snd a))))
        by (unfold invalidate_step; now rewrite Ht).
      rewrite Hstep.
      destruct (Hin key) as [e He]; [left|].
      assert (Hdel : base.size (cache (snd (delete key (snd a))))
                     = pred (base.size (cache (snd a)))).
      { unfold delete. rewrite bool_decide_eq_true_2 by eauto. cbn.
        apply map_size_delete_Some. eauto. }
      assert (Hpos : (0 < base.size (cache (snd a)))%nat).
      { destruct (base.size (cache (snd a))) eqn:Hz; [|lia].
        apply map_size_empty_inv in Hz. rewrite Hz, lookup_empty in He.
        discriminate He. }
      destruct (IH (S (fst (fst a)), snd (test (snd (fst a)) key),
                    snd (delete key (snd a))) Hnd) as (Hn & Hk).
      { intros k Hk. cbn [snd]. rewrite CacheFacts.cache_delete.
        rewrite lookup_delete_ne; [apply Hin; now right|].
        intros ->. contradiction. }
      cbn [fst snd] in Hn, Hk. split; [rewrite Hn, Hdel; lia|].
      intros k. destruct (Hk k) as [Hsame|Hnone]; [|now right].
      rewrite Hsame, CacheFacts.cache_delete.
      destruct (decide (key = k)) as [->|Hne].
      * right. apply lookup_delete_eq.
      * left. now apply lookup_delete_ne.
    + assert (Hstep : invalidate_step a key
                      = (fst (fst a), snd (test (snd (fst a)) key), snd a))
        by (unfold invalidate_step; now rewrite Ht).
      rewrite Hstep.
      destruct (IH (fst (fst a), snd (test (snd (fst a)) key), snd a) Hnd)
        as (Hn & Hk).
      { intros k Hk. apply Hin. now right. }
      cbn [fst snd] in Hn, Hk. split; [exact Hn | exact Hk].
Qed.

(** X3.  Whatever the pattern, [invalidatePattern] only removes entries
    and returns the number of entries it removed.  A pattern without the
    [g] and [y] flags (a string, or such a [RegExp]) removes exactly the
    cached keys it matches and keeps every other entry, announces each
    removed key once on [invalidated$] and drops their pending streams.
    (A [RegExp] with one of these flags remembers [lastIndex] from one
    key to the next and can leave matching keys in the cache.) *)
Theorem invalidatePattern_removes_exactly_matches (pattern_ : pattern)
    (ks : list string) (s : t) :
  ks ≡ₚ keys s ->
  let r := invalidatePattern pattern_ ks s in
  (forall k, cache (snd r) !! k = cache s !! k \/ cache (snd r) !! k = None) /\
  (fst r + base.size (cache (snd r)))%nat = base.size (cache s) /\
  (stateful (regex_of pattern_) = false ->
   let regex := fun k => found (matcher (regex_of pattern_) 0 k) in
   let matched := swept (fun k _ => regex k) s in
   (forall k, cache (snd r) !! k = if regex k then None else cache s !! k) /\
   (forall k, is_Some (cache s !! k) ->
              observables (snd r) !! k
              = if regex k then None else observables s !! k) /\
   fst r = length matched /\
   (exists announced, invalidated (snd r) = invalidated s ++ announced /\
                      announced ≡ₚ matched.*1)).
Proof.
  intros Hks r.
  assert (Hnd : NoDup ks) by (rewrite Hks; apply NoDup_fst_map_to_list).
  assert (Hin : forall k, k ∈ ks -> is_Some (cache s !! k)).
  { intros k Hk. rewrite Hks in Hk. unfold keys in Hk.
    apply list_elem_of_fmap in Hk as ([k' e] & -> & Hke).
    apply elem_of_map_to_list in Hke. cbn. eauto. }
  destruct (invalidate_fold_any ks (0%nat, regex_of pattern_, s) Hnd Hin) as (Hn & Hk).
  split; [exact Hk|]. split; [exact Hn|].
  intros Hst regex matched.
  pose proof Hks as Hks'. unfold keys in Hks'.
  apply Permutation_map_inv in Hks' as (l & Hl1 & Hl2).
  assert (Hr : r = fold_left
             (fun (a : nat * t) (ke : string * CacheEntry) =>
                if regex (fst ke)
                then (S (fst a), snd (delete (fst ke) (snd a))) else a)
             l (0%nat, s)).
  { unfold r, invalidatePattern. rewrite (invalidate_fold_stateless _ ks _ _ Hst).
    cbn [fst snd]. rewrite <- surjective_pairing. rewrite Hl1.
    apply (fold_left_fst
             (fun (a : nat * t) key =>
                if regex key then (S (fst a), snd (delete key (snd a))) else a)). }
  destruct (sweep_exact_over (fun k _ => regex k) s l (Permutation_sym Hl2))
    as (Hc & Ho & Hm & _ & Hi).
  cbn zeta in Hc, Ho, Hm, Hi. rewrite <- Hr in Hc, Ho, Hm, Hi.
  split.
  { intros k. rewrite Hc. destruct (cache s !! k); [reflexivity|].
    now destruct (regex k). }
  split.
  { intros k [e He]. rewrite Ho, He. reflexivity. }
  split; [exact Hm | exact Hi].
Qed.

Lemma invalidatePattern_removes_exactly_matches_witness :
  let s := set 3 3 "user-3" (VNum 3) 1000
             (set 2 2 "order-2" (VNum 2) 1000
                (set 1 1 "user-1" (VNum 1) 1000 CacheService.empty)) in
  let r := invalidatePattern (Source starts_with_user) ["user-1"; "order-2"; "user-3"] s in
  (forall k, cache (snd r) !! k
             = if found (starts_with_user 0 k) then None else cache s !! k) /\
  fst r = length (swept (fun k _ => found (starts_with_user 0 k)) s).
Proof.
  cbn zeta.
  assert (Hks : ["user-1"; "order-2"; "user-3"]%string
                ≡ₚ keys (set 3 3 "user-3" (VNum 3) 1000
                          (set 2 2 "order-2" (VNum 2) 1000
                             (set 1 1 "user-1" (VNum 1) 1000 CacheService.empty)))).
  { vm_compute. apply (Permutation_cons_append ["order-2"; "user-3"]%string). }
  destruct (invalidatePattern_removes_exactly_matches (Source starts_with_user)
              ["user-1"; "order-2"; "user-3"]%string _ Hks) as (_ & _ & H).
  destruct (H eq_refl) as (Hc & _ & Hm & _).
  split; [exact Hc | exact Hm].
Defined.

(** The [g] flag at work: [/^user-/g] on three keys that all match.
    The match on the first key leaves [lastIndex] at 5, the search in the
    second key starts there and fails, which resets [lastIndex]; the
    second key stays in the cache.  The same pattern given as a string
    removes all three. *)
Remark invalidatePattern_global_flag_skips :
  let s := set 3 3 "user-3" (VNum 3) 1000
             (set 2 2 "user-2" (VNum 2) 1000
                (set 1 1 "user-1" (VNum 1) 1000 CacheService.empty)) in
  let ks := ["user-1"; "user-2"; "user-3"]%string in
  let r := invalidatePattern (Regex (mkRegExp starts_with_user true 0)) ks s in
  fst r = 2%nat /\
  cache (snd r) !! "user-1"%string = None /\
  cache (snd r) !! "user-2"%string = Some (mkEntry (VNum 2) 1002 2) /\
  cache (snd r) !! "user-3"%string = None /\
  fst (invalidatePattern (Source starts_with_user) ks s) = 3%nat.
Proof. vm_compute. repeat split; reflexivity. Qed.

(** *** Counters, deletion and round trips *)

Lemma counters_delete key s :
  hits (_stats (snd (delete key s))) = hits (_stats s) /\
  misses (_stats (snd (delete key s))) = misses (_stats s).
Proof. unfold delete. destruct (bool_decide _); split; reflexivity. Qed.

(** X4.  Every [get] adds one to exactly one of the two counters, and
    [has] never counts: over any reads, [hits + misses] grows by the
    number of [get] calls. *)
Theorem reads_count_gets (rs : list read) (s : t) :
  (hits (_stats (run_reads rs s)) + misses (_stats (run_reads rs s)))%nat
    = (hits (_stats s) + misses (_stats s) + gets rs)%nat.
Proof.
  revert s. induction rs as [|r rs IH]; intros s.
  - unfold gets. cbn. lia.
  - cbn [run_reads fold_left]. fold (run_reads rs (run_read r s)). rewrite IH.
    unfold gets. cbn [List.filter]. destruct r as [now key | now key]; cbn [run_read length].
    + fold (gets rs).
      assert (H : (hits (_stats (snd (get now key s)))
                   + misses (_stats (snd (get now key s))))%nat
                  = S (hits (_stats s) + misses (_stats s))).
      { unfold get. destruct (cache s !! key) as [e|]; [|cbn; lia].
        destruct (isExpired now e); [|cbn; lia].
        destruct (counters_delete key s) as (Hh & Hm). cbn. rewrite Hh, Hm. lia. }
      rewrite H. lia.
    + fold (gets rs).
      assert (H : hits (_stats (snd (has now key s))) = hits (_stats s) /\
                  misses (_stats (snd (has now key s))) = misses (_stats s)).
      { unfold has. destruct (cache s !! key) as [e|]; [|easy].
        destruct (isExpired now e); [|easy]. apply counters_delete. }
      destruct H as (-> & ->). lia.
Qed.

(** X5.  [delete(key)] returns whether the key was cached.  Afterwards
    the key has neither an entry nor a pending stream, every other key
    keeps both, the counters are untouched, and [invalidated$] announces
    the key exactly when something was removed. *)
Theorem delete_only_that_key (key : string) (s : t) :
  let r := delete key s in
  (fst r = true <-> is_Some (cache s !! key)) /\
  cache (snd r) !! key = None /\
  observables (snd r) !! key = None /\
  (forall k, k <> key ->
     cache (snd r) !! k = cache s !! k /\
     observables (snd r) !! k = observables s !! k) /\
  invalidated (snd r) = invalidated s ++ (if fst r then [key] else []) /\
  hits (_stats (snd r)) = hits (_stats s) /\
  misses (_stats (snd r)) = misses (_stats s).
Proof.
  cbn zeta. split.
  { unfold delete. destruct (cache s !! key) as [e|] eqn:Hk.
    - rewrite bool_decide_eq_true_2 by eauto. cbn. split; eauto.
    - rewrite bool_decide_eq_false_2 by (intros [x Hx]; discriminate Hx).
      cbn. split; [discriminate | intros [x Hx]; discriminate Hx]. }
  split; [rewrite CacheFacts.cache_delete; apply lookup_delete_eq|].
  split; [rewrite CacheFacts.observables_delete; apply lookup_delete_eq|].
  split.
  { intros k Hne. rewrite CacheFacts.cache_delete, CacheFacts.observables_delete.
    now rewrite !lookup_delete_ne. }
  split.
  { unfold delete. destruct (bool_decide _); cbn; [reflexivity|].
    now rewrite app_nil_r. }
  apply counters_delete.
Qed.

(** After the first [wrap] of a key with nothing live and nothing
    pending, and one subscriber. *)
Lemma wrap_subscribed now key ttl sub s :
  (forall e, cache s !! key = Some e -> expiry e < now) ->
  observables s !! key = None ->
  let h := length (streams s) in
  let s2 := snd (subscribe h sub (snd (wrap now key ttl s))) in
  cache s2 !! key = None /\
  observables s2 !! key = Some h /\
  factoryCalls s2 = factoryCalls s ++ [key] /\
  length (streams s2) = S h /\
  streams s2 !! h
    = Some (mkPending key ttl (ShareReplay.mk true None false [sub] 1)).
Proof.
  intros Hexp Ho h s2.
  destruct (CacheFacts.wrap_first now key ttl s Hexp Ho) as (_ & Hk & Hob & Hst & Hfc).
  fold h in Hob.
  assert (Hp : streams (snd (wrap now key ttl s)) !! h
               = Some (mkPending key ttl ShareReplay.init)).
  { rewrite Hst. unfold h. rewrite lookup_app_r by lia. now rewrite Nat.sub_diag. }
  unfold s2, subscribe. rewrite Hp. cbn [p_share ShareReplay.subscribe ShareReplay.init
    ShareReplay.completed ShareReplay.connected ShareReplay.replay ShareReplay.buffer
    ShareReplay.subscribers ShareReplay.sourceSubscriptions app snd].
  split; [exact Hk|]. split; [exact Hob|]. split; [exact Hfc|].
  split.
  - unfold set_share. cbn. rewrite length_alter, Hst, length_app. cbn. unfold h. lia.
  - unfold set_share. cbn [streams with_streams]. rewrite list_lookup_alter_eq, Hp.
    reflexivity.
Qed.

(** X6.  The round trip of [wrap]: a first call on a key with nothing
    live and nothing pending, a subscriber, and the factory's stream
    emits a value [v] that is not [null] at time [t1].  The subscriber
    receives [v], the value is cached until [t1 + ttl], the key has no
    pending stream any more, and a later [wrap] before the expiry returns
    the cached value, records a hit (the hit counter goes up by one, the
    miss counter stays) and does not call the factory. *)
Theorem wrap_then_value_is_cached (s : t) (key : string) (ttl t0 t1 c1 t ttl' : Z)
    (sub : nat) (v : value) :
  (forall e, cache s !! key = Some e -> expiry e < t0) ->
  observables s !! key = None ->
  is_null v = false ->
  t <= t1 + ttl ->
  let h := length (streams s) in
  let s2 := snd (subscribe h sub (snd (wrap t0 key ttl s))) in
  let r3 := source_next t1 c1 h v s2 in
  fst r3 = [(sub, Next v)] /\
  cache (snd r3) !! key = Some (mkEntry v (t1 + ttl) c1) /\
  observables (snd r3) !! key = None /\
  fst (wrap t key ttl' (snd r3)) = Of v /\
  hits (_stats (snd (wrap t key ttl' (snd r3)))) = S (hits (_stats (snd r3))) /\
  misses (_stats (snd (wrap t key ttl' (snd r3)))) = misses (_stats (snd r3)) /\
  factoryCalls (snd (wrap t key ttl' (snd r3))) = factoryCalls s ++ [key].
Proof.
  intros Hexp Ho Hv Ht h s2 r3.
  destruct (wrap_subscribed t0 key ttl sub s Hexp Ho) as (Hk & Hob & Hfc & _ & Hp).
  fold h in Hob, Hp. fold s2 in Hk, Hob, Hfc, Hp.
  assert (Hr3 : r3 = ([(sub, Next v)],
                      set_share h (ShareReplay.mk true (Some v) false [sub] 1)
                        (with_observables
                           (base.delete key (observables (set t1 c1 key v ttl s2)))
                           (set t1 c1 key v ttl s2)))).
  { unfold r3, source_next. rewrite Hp. reflexivity. }
  assert (Hc3 : cache (snd r3) !! key = Some (mkEntry v (t1 + ttl) c1)).
  { rewrite Hr3. cbn. apply lookup_insert_eq. }
  assert (Hw : wrap t key ttl' (snd r3) = (Of v, recordHit (snd r3))).
  { unfold wrap. rewrite (CacheFacts.get_live t key _ _ Hc3) by (cbn; lia).
    cbn [data]. now rewrite Hv. }
  split; [now rewrite Hr3|]. split; [exact Hc3|].
  split; [rewrite Hr3; cbn; apply lookup_delete_eq|].
  rewrite Hw. cbn [fst snd].
  split; [reflexivity|]. split; [reflexivity|]. split; [reflexivity|].
  rewrite Hr3. cbn. exact Hfc.
Qed.

Lemma wrap_then_value_is_cached_witness :
  let s2 := snd (subscribe 0 7 (snd (wrap 0 "user-1" 1000 CacheService.empty))) in
  let s3 := snd (source_next 10 10 0 (VStr "Ada") s2) in
  fst (wrap 1010 "user-1" 1000 s3) = Of (VStr "Ada") /\
  hits (_stats (snd (wrap 1010 "user-1" 1000 s3))) = S (hits (_stats s3)).
Proof.
  pose proof (wrap_then_value_is_cached CacheService.empty "user-1" 1000 0 10 10 1010
                1000 7 (VStr "Ada")) as H.
  cbn zeta in H.
  assert (H1 : forall e, cache CacheService.empty !! "user-1"%string = Some e ->
                         expiry e < 0)
    by (intros e He; vm_compute in He; discriminate He).
  assert (H2 : observables CacheService.empty !! "user-1"%string = None) by reflexivity.
  assert (H3 : is_null (VStr "Ada") = false) by reflexivity.
  assert (H4 : 1010 <= 10 + 1000) by lia.
  destruct (H H1 H2 H3 H4) as (_ & _ & _ & Hw & Hh & _).
  split; [exact Hw | exact Hh].
Defined.

(** X7.  The round trip of [getOrSet]: on a key that is not cached the
    factory is called; once its promise has resolved with a value [v]
    that is not [null], a [getOrSet] made before [now + ttl] returns [v]
    from the cache, records a hit (the hit counter goes up by one, the
    miss counter stays) and does not call the factory again. *)
Theorem getOrSet_then_cached (s : t) (key : string) (v : value)
    (t0 now created ttl t : Z) :
  cache s !! key = None ->
  is_null v = false ->
  t <= now + ttl ->
  let s1 := snd (getOrSet_begin t0 key s) in
  let s2 := snd (getOrSet_resolve now created key v ttl s1) in
  fst (getOrSet_begin t0 key s) = None /\
  factoryCalls s1 = factoryCalls s ++ [key] /\
  fst (getOrSet_begin t key s2) = Some v /\
  hits (_stats (snd (getOrSet_begin t key s2))) = S (hits (_stats s2)) /\
  misses (_stats (snd (getOrSet_begin t key s2))) = misses (_stats s2) /\
  factoryCalls (snd (getOrSet_begin t key s2)) = factoryCalls s ++ [key].
Proof.
  intros Hk Hv Ht s1 s2.
  assert (Hb : getOrSet_begin t0 key s
               = (None, with_factoryCalls (factoryCalls s ++ [key]) (recordMiss s))).
  { unfold getOrSet_begin. now rewrite (CacheFacts.get_absent _ _ _ Hk). }
  assert (Hc2 : cache s2 !! key = Some (mkEntry v (now + ttl) created))
    by apply CacheFacts.lookup_set.
  assert (Hg : getOrSet_begin t key s2 = (Some v, recordHit s2)).
  { unfold getOrSet_begin. rewrite (CacheFacts.get_live t key _ _ Hc2) by (cbn; lia).
    cbn [data]. now rewrite Hv. }
  split; [now rewrite Hb|]. split; [unfold s1; now rewrite Hb|].
  rewrite Hg. cbn [fst snd].
  split; [reflexivity|]. split; [reflexivity|]. split; [reflexivity|].
  unfold s2, s1. now rewrite Hb.
Qed.

Lemma getOrSet_then_cached_witness :
  let s1 := snd (getOrSet_begin 0 "theme" CacheService.empty) in
  let s2 := snd (getOrSet_resolve 5 5 "theme" (VStr "dark") 60000 s1) in
  fst (getOrSet_begin 100 "theme" s2) = Some (VStr "dark") /\
  hits (_stats (snd (getOrSet_begin 100 "theme" s2))) = S (hits (_stats s2)).
Proof.
  pose proof (getOrSet_then_cached CacheService.empty "theme" (VStr "dark")
                0 5 5 60000 100) as H.
  cbn zeta in H.
  assert (H1 : cache CacheService.empty !! "theme"%string = None) by reflexivity.
  assert (H2 : is_null (VStr "dark") = false) by reflexivity.
  assert (H3 : 100 <= 5 + 60000) by lia.
  destruct (H H1 H2 H3) as (_ & _ & Hg & Hh & _).
  split; [exact Hg | exact Hh].
Defined.

(** X8.  [delete(key)] also forgets a pending stream, even when it
    removes no entry and returns [false]: the next [wrap] of the key calls
    the factory again and registers a second stream.  The first stream
    stays subscribed; when it emits, its [tap] caches the value and
    removes the registration of the key, which by then is that of the
    second stream. *)
Theorem delete_forgets_pending_stream (s : t) (key : string) (ttl t0 t1 t2 c2 : Z)
    (sub : nat) (v : value) :
  (forall e, cache s !! key = Some e -> expiry e < t0) ->
  observables s !! key = None ->
  let h := length (streams s) in
  let s2 := snd (subscribe h sub (snd (wrap t0 key ttl s))) in
  let d := delete key s2 in
  let w := wrap t1 key ttl (snd d) in
  let r := source_next t2 c2 h v (snd w) in
  fst d = false /\
  fst w = Stream (S h) /\
  factoryCalls (snd w) = factoryCalls s ++ [key; key] /\
  observables (snd w) !! key = Some (S h) /\
  fst r = [(sub, Next v)] /\
  cache (snd r) !! key = Some (mkEntry v (t2 + ttl) c2) /\
  observables (snd r) !! key = None.
Proof.
  intros Hexp Ho. cbn zeta.
  destruct (wrap_subscribed t0 key ttl sub s Hexp Ho) as (Hk & Hob & Hfc & Hlen & Hp).
  set (h := length (streams s)) in *.
  set (s2 := snd (subscribe h sub (snd (wrap t0 key ttl s)))) in *.
  set (d := delete key s2).
  set (w := wrap t1 key ttl (snd d)).
  set (r := source_next t2 c2 h v (snd w)).
  assert (Hd : d = (false, with_observables (base.delete key (observables s2))
                             (with_cache (base.delete key (cache s2)) s2))).
  { unfold d, delete. rewrite bool_decide_eq_false_2; [reflexivity|].
    intros [x Hx]. pose proof (eq_trans (eq_sym Hk) Hx) as Hc. discriminate Hc. }
  assert (Hexp1 : forall e, cache (snd d) !! key = Some e -> expiry e < t1).
  { intros e He. rewrite Hd in He. cbn in He. rewrite lookup_delete_eq in He.
    discriminate He. }
  assert (Ho1 : observables (snd d) !! key = None).
  { rewrite Hd. cbn. apply lookup_delete_eq. }
  assert (Hst1 : streams (snd d) = streams s2) by (rewrite Hd; reflexivity).
  assert (Hfc1 : factoryCalls (snd d) = factoryCalls s2) by (rewrite Hd; reflexivity).
  destruct (CacheFacts.wrap_first t1 key ttl (snd d) Hexp1 Ho1)
    as (Hw1 & Hwk & Hwo & Hwst & Hwfc).
  fold w in Hw1, Hwk, Hwo, Hwst, Hwfc.
  rewrite Hst1, Hlen in Hw1, Hwo. rewrite Hst1 in Hwst. rewrite Hfc1, Hfc in Hwfc.
  assert (Hpw : streams (snd w) !! h
                = Some (mkPending key ttl (ShareReplay.mk true None false [sub] 1))).
  { rewrite Hwst. rewrite lookup_app_l by (rewrite Hlen; lia). exact Hp. }
  assert (Hr : r = ([(sub, Next v)],
                    set_share h (ShareReplay.mk true (Some v) false [sub] 1)
                      (with_observables
                         (base.delete key (observables (set t2 c2 key v ttl (snd w))))
                         (set t2 c2 key v ttl (snd w))))).
  { unfold r, source_next. rewrite Hpw. reflexivity. }
  split; [now rewrite Hd|]. split; [exact Hw1|].
  split; [rewrite Hwfc, <- app_assoc; reflexivity|].
  split; [exact Hwo|]. split; [now rewrite Hr|].
  split; [rewrite Hr; cbn; apply lookup_insert_eq|].
  rewrite Hr. cbn. apply lookup_delete_eq.
Qed.

Lemma delete_forgets_pending_stream_witness :
  let s2 := snd (subscribe 0 7 (snd (wrap 0 "user-1" 1000 CacheService.empty))) in
  let w := wrap 5 "user-1" 1000 (snd (delete "user-1" s2)) in
  fst (delete "user-1" s2) = false /\ fst w = Stream 1%nat /\
  factoryCalls (snd w) = ["user-1"%string; "user-1"%string].
Proof.
  pose proof (delete_forgets_pending_stream CacheService.empty "user-1" 1000 0 5 9 9
                7 (VNum 1)) as H.
  cbn zeta in H.
  assert (H1 : forall e, cache CacheService.empty !! "user-1"%string = Some e ->
                         expiry e < 0)
    by (intros e He; vm_compute in He; discriminate He).
  assert (H2 : observables CacheService.empty !! "user-1"%string = None) by reflexivity.
  destruct (H H1 H2) as (Hd & Hw & Hf & _).
  split; [exact Hd|]. split; [exact Hw | exact Hf].
Defined.

End CacheSweepFacts.

(** ** [wrap]: one pending stream per key *)
Module WrapFacts.
Import CacheService CacheSweep.

Lemma same_at_refl key s : same_at key s s.
Proof. unfold same_at. auto. Qed.

Lemma same_at_trans key s1 s2 s3 :
  same_at key s1 s2 -> same_at key s2 s3 -> same_at key s1 s3.
Proof.
  unfold same_at. intros (H1 & H2 & H3 & H4) (K1 & K2 & K3 & K4).
  rewrite K1, K2, K3, K4. auto.
Qed.

Lemma same_at_stats key st s : same_at key s (with_stats st s).
Proof. unfold same_at. auto. Qed.

Lemma same_at_delete key k s : k <> key -> same_at key s (snd (delete k s)).
Proof.
  intros Hne. unfold same_at.
  rewrite CacheFacts.cache_delete, CacheFacts.observables_delete.
  rewrite !lookup_delete_ne by exact Hne.
  unfold delete. destruct (bool_decide _); auto.
Qed.

Lemma same_at_get key now k s :
  cache s !! key = None -> same_at key s (snd (get now k s)).
Proof.
  intros Hk. unfold get. destruct (cache s !! k) as [e|] eqn:He.
  - destruct (isExpired now e); cbn [snd].
    + apply (same_at_trans _ _ (snd (delete k s))); [|apply same_at_stats].
      apply same_at_delete. intros ->. rewrite Hk in He. discriminate He.
    + apply same_at_stats.
  - apply same_at_stats.
Qed.

Lemma same_at_has key now k s :
  cache s !! key = None -> same_at key s (snd (has now k s)).
Proof.
  intros Hk. unfold has. destruct (cache s !! k) as [e|] eqn:He.
  - destruct (isExpired now e); cbn [snd]; [|apply same_at_refl].
    apply same_at_delete. intros ->. rewrite Hk in He. discriminate He.
  - apply same_at_refl.
Qed.

Lemma same_at_set key now created k v ttl s :
  k <> key -> same_at key s (set now created k v ttl s).
Proof.
  intros Hne. unfold same_at, set. cbn.
  rewrite lookup_insert_ne by exact Hne. auto.
Qed.

Lemma same_at_sweep key (f : string * CacheEntry -> bool) l : forall acc : nat * t,
  (forall ke, ke ∈ l -> fst ke <> key) ->
  same_at key (snd acc)
    (snd (fold_left
            (fun (a : nat * t) ke =>
               if f ke then (S (fst a), snd (delete (fst ke) (snd a))) else a)
            l acc)).
Proof.
  induction l as [|ke l IH]; intros acc Hl; [apply same_at_refl|].
  cbn [fold_left].
  assert (Hrest : forall x, x ∈ l -> fst x <> key) by (intros x Hx; apply Hl; now right).
  destruct (f ke).
  - apply (same_at_trans _ _ (snd (delete (fst ke) (snd acc)))).
    + apply same_at_delete. apply Hl. left.
    + apply (IH (S (fst acc), snd (delete (fst ke) (snd acc))) Hrest).
  - apply (IH acc Hrest).
Qed.

Lemma same_at_clearExpired key now s :
  cache s !! key = None -> same_at key s (snd (clearExpired now s)).
Proof.
  intros Hk. unfold clearExpired.
  apply (same_at_sweep key (fun ke => isExpired now (snd ke)) _ (0%nat, s)).
  intros [k e] Hke. apply elem_of_map_to_list in Hke. cbn.
  intros ->. rewrite Hk in Hke. discriminate Hke.
Qed.

Lemma same_at_invalidate key ks : forall a : nat * RegExp * t,
  key ∉ ks -> same_at key (snd a) (snd (fold_left invalidate_step ks a)).
Proof.
  induction ks as [|k ks IH]; intros a Hks; [apply same_at_refl|].
  cbn [fold_left].
  assert (Hk : k <> key) by (intros ->; apply Hks; left).
  assert (Hrest : key ∉ ks) by (intros Hin; apply Hks; now right).
  apply (same_at_trans _ _ (snd (invalidate_step a k))); [|apply IH; exact Hrest].
  unfold invalidate_step. destruct (fst (test (snd (fst a)) k)); cbn [snd].
  - now apply same_at_delete.
  - apply same_at_refl.
Qed.

Lemma pending_same key ttl h subs n s s' :
  pending_at key ttl h subs n s -> same_at key s s' ->
  pending_at key ttl h subs n s'.
Proof.
  unfold pending_at, same_at. intros (H1 & H2 & H3 & H4) (K1 & K2 & K3 & K4).
  rewrite K1, K2, K3, K4. auto.
Qed.

Lemma calls_of_other key k calls :
  k <> key -> calls_of key (calls ++ [k]) = calls_of key calls.
Proof.
  intros Hne. unfold calls_of. rewrite List.filter_app, length_app. cbn.
  assert (He : String.eqb key k = false) by (apply String.eqb_neq; congruence).
  rewrite He. cbn. lia.
Qed.

Lemma calls_of_key key calls : calls_of key (calls ++ [key]) = S (calls_of key calls).
Proof.
  unfold calls_of. rewrite List.filter_app, length_app. cbn.
  rewrite String.eqb_refl. cbn. lia.
Qed.

(** [set_share] on another stream, and on the pending one. *)
Lemma pending_set_share_other key ttl h subs n h' o s :
  h' <> h -> pending_at key ttl h subs n s ->
  pending_at key ttl h subs n (set_share h' o s).
Proof.
  unfold pending_at, set_share. intros Hne (H1 & H2 & H3 & H4). cbn.
  rewrite list_lookup_alter_ne by exact Hne. auto.
Qed.

Lemma pending_stream_key key ttl h subs n h' s :
  pending_at key ttl h subs n s ->
  p_key <$> streams s !! h' <> Some key -> h' <> h.
Proof.
  intros (_ & _ & H3 & _) Hne ->. rewrite H3 in Hne. now apply Hne.
Qed.

Lemma subscribe_joined sub subs :
  ShareReplay.subscribe sub (joined false [] 0 subs)
    = (match subs with [] => true | _ => false end, [],
       joined false [] 0 (subs ++ [sub])).
Proof.
  destruct subs as [|x subs]; cbn; [reflexivity|].
  unfold ShareReplay.subscribe, ShareReplay.replay. cbn.
  destruct (subs ++ [sub]) eqn:Hs; [destruct subs; discriminate Hs|].
  now rewrite <- Hs.
Qed.

Lemma subscribers_of_cons h o ops :
  subscribers_of h (o :: ops) = subscribers_of h [o] ++ subscribers_of h ops.
Proof. unfold subscribers_of. cbn [flat_map]. now rewrite app_nil_r. Qed.

(** [wrap] on another key. *)
Lemma pending_wrap_other key ttl h subs n now k ttl' s :
  k <> key -> pending_at key ttl h subs n s ->
  pending_at key ttl h subs n (snd (wrap now k ttl' s)).
Proof.
  intros Hne Hp. pose proof Hp as (Hk & _).
  pose proof (pending_same _ _ _ _ _ _ _ Hp (same_at_get key now k s Hk)) as Hg.
  unfold wrap. destruct (get now k s) as [cached s1]. cbn [snd] in Hg.
  destruct (negb (is_null cached)); [exact Hg|].
  destruct (observables s1 !! k) as [pending|]; [exact Hg|].
  destruct Hg as (G1 & G2 & G3 & G4). unfold pending_at.
  cbn [snd cache observables streams factoryCalls with_observables with_streams
       with_factoryCalls].
  split; [exact G1|]. split; [now rewrite lookup_insert_ne|].
  split; [|now rewrite calls_of_other].
  rewrite lookup_app_l; [exact G3|]. apply lookup_lt_is_Some. eauto.
Qed.

(** One operation that spares the key. *)
Lemma step_spares key ttl h subs n o s :
  pending_at key ttl h subs n s -> spares key s o ->
  pending_at key ttl h (subs ++ subscribers_of h [o]) n (step o s).
Proof.
  intros Hp Hs. pose proof Hp as (Hk & Ho & Hst & Hn).
  destruct o; cbn [step spares] in *;
    try (rewrite app_nil_r).
  - (* set *) exact (pending_same _ _ _ _ _ _ _ Hp (same_at_set _ _ _ _ _ _ _ Hs)).
  - (* get *) exact (pending_same _ _ _ _ _ _ _ Hp (same_at_get _ _ _ _ Hk)).
  - (* has *) exact (pending_same _ _ _ _ _ _ _ Hp (same_at_has _ _ _ _ Hk)).
  - (* delete *) exact (pending_same _ _ _ _ _ _ _ Hp (same_at_delete _ _ _ Hs)).
  - (* clear *) contradiction.
  - (* clearExpired *)
    exact (pending_same _ _ _ _ _ _ _ Hp (same_at_clearExpired _ _ _ Hk)).
  - (* invalidatePattern *)
    refine (pending_same _ _ _ _ _ _ _ Hp _). unfold invalidatePattern. cbn [snd].
    apply (same_at_invalidate key ks (0%nat, regex_of pattern_, s) Hs).
  - (* wrap *)
    destruct (decide (key0 = key)) as [->|Hne].
    + rewrite (CacheFacts.wrap_pending now key ttl0 h s Hk Ho). cbn [snd].
      exact (pending_same _ _ _ _ _ _ _ Hp (same_at_stats _ _ _)).
    + now apply pending_wrap_other.
  - (* subscribe *)
    unfold subscribers_of. cbn [flat_map]. rewrite app_nil_r.
    destruct (Nat.eqb_spec h0 h) as [->|Hne].
    + unfold subscribe. rewrite Hst. cbn [p_share]. rewrite subscribe_joined.
      unfold pending_at, set_share. cbn.
      rewrite list_lookup_alter_eq, Hst. cbn. auto.
    + rewrite app_nil_r. unfold subscribe.
      destruct (streams s !! h0) as [p|]; [|exact Hp].
      destruct (ShareReplay.subscribe sub (p_share p)) as [[b out] o]. cbn [snd].
      now apply pending_set_share_other.
  - (* the source of another stream emits *)
    pose proof (pending_stream_key _ _ _ _ _ _ _ Hp Hs) as Hne.
    unfold source_next. destruct (streams s !! h0) as [p|] eqn:Hp0; [|exact Hp].
    destruct (ShareReplay.connected (p_share p)); [|exact Hp].
    cbn [ShareReplay.next snd].
    apply pending_set_share_other; [exact Hne|].
    assert (Hpk : p_key p <> key) by (intros Hpk; apply Hs; cbn; now rewrite Hpk).
    unfold pending_at. cbn.
    rewrite lookup_insert_ne by exact Hpk. rewrite lookup_delete_ne by exact Hpk. auto.
  - (* the source of another stream fails *)
    pose proof (pending_stream_key _ _ _ _ _ _ _ Hp Hs) as Hne.
    unfold source_error. destruct (streams s !! h0) as [p|]; [|exact Hp].
    destruct (ShareReplay.connected (p_share p)); [|exact Hp].
    cbn [ShareReplay.error snd]. now apply pending_set_share_other.
  - (* the source of another stream completes *)
    pose proof (pending_stream_key _ _ _ _ _ _ _ Hp Hs) as Hne.
    unfold source_complete. destruct (streams s !! h0) as [p|]; [|exact Hp].
    destruct (ShareReplay.connected (p_share p)); [|exact Hp].
    cbn [ShareReplay.complete snd]. now apply pending_set_share_other.
  - (* getOrSet *)
    pose proof (pending_same _ _ _ _ _ _ _ Hp (same_at_get key now key0 s Hk)) as Hg.
    unfold getOrSet_begin. destruct (get now key0 s) as [cached s1]. cbn [snd] in Hg.
    destruct (negb (is_null cached)); [exact Hg|].
    destruct Hg as (G1 & G2 & G3 & G4). unfold pending_at.
    cbn [snd cache observables streams factoryCalls with_factoryCalls].
    rewrite calls_of_other by exact Hs. auto.
  - (* the promise of getOrSet resolves *)
    exact (pending_same _ _ _ _ _ _ _ Hp (same_at_set _ _ _ _ _ _ _ Hs)).
Qed.

Lemma run_spared key ttl h ops : forall subs n s,
  pending_at key ttl h subs n s -> spared key ops s ->
  pending_at key ttl h (subs ++ subscribers_of h ops) n (run ops s) /\
  Forall (eq (Stream h)) (wrap_results key ops s).
Proof.
  induction ops as [|o ops IH]; intros subs n s Hp Hs.
  - cbn. rewrite app_nil_r. split; [exact Hp | constructor].
  - destruct Hs as [Ho Hs]. cbn [run fold_left]. fold (run ops (step o s)).
    destruct (IH _ _ _ (step_spares _ _ _ _ _ _ _ Hp Ho) Hs) as (Hp' & Hw).
    rewrite subscribers_of_cons, app_assoc. split; [exact Hp'|].
    cbn [wrap_results]. apply Forall_app. split; [|exact Hw].
    destruct o; try constructor.
    destruct (String.eqb_spec key0 key) as [->|_]; [|constructor].
    destruct Hp as (Hk & Hob & _).
    rewrite (CacheFacts.wrap_pending now key ttl0 h s Hk Hob).
    constructor; [reflexivity | constructor].
Qed.

(** C3, as the code has it.  Let a first [wrap(key, factory, ttl)] find
    no live entry of the key in the cache and no stream pending.  Let
    anything follow that spares the key (further calls of [wrap] on it
    at any time and with any [ttl], reads, sweeps, subscriptions, work on
    other keys; but no [set], [delete] or [getOrSet] of the key, no
    [clear()], and no event of a stream made for the key, so that the
    pending stream has emitted nothing).  Then every further call of
    [wrap] on the key returns the stream of the first call, the factory
    has been called exactly once for the key, that stream is still the
    pending stream of the key, its source has been subscribed at most
    once, and a value the source now emits goes to every subscriber. *)
Theorem wrap_calls_share_pending (s : t) (key : string) (ttl t0 : Z)
    (ops : list op) (now created : Z) (v : value) :
  (forall e, cache s !! key = Some e -> expiry e < t0) ->
  observables s !! key = None ->
  let h := length (streams s) in
  let s0 := snd (wrap t0 key ttl s) in
  spared key ops s0 ->
  let s1 := run ops s0 in
  fst (wrap t0 key ttl s) = Stream h /\
  Forall (eq (Stream h)) (wrap_results key ops s0) /\
  calls_of key (factoryCalls s1) = S (calls_of key (factoryCalls s)) /\
  observables s1 !! key = Some h /\
  share_of h s1 = Some (joined false [] 0 (subscribers_of h ops)) /\
  fst (source_next now created h v s1)
    = map (fun sub => (sub, Next v)) (subscribers_of h ops).
Proof.
  intros Hexp Ho h s0 Hsp s1.
  destruct (CacheFacts.wrap_first t0 key ttl s Hexp Ho) as (Hr & Hk & Hob & Hst & Hfc).
  fold h in Hr, Hob. fold s0 in Hk, Hob, Hst, Hfc.
  assert (Hp0 : pending_at key ttl h [] (S (calls_of key (factoryCalls s))) s0).
  { unfold pending_at. split; [exact Hk|]. split; [exact Hob|]. split.
    - rewrite Hst. unfold h. rewrite lookup_app_r by lia.
      now rewrite Nat.sub_diag.
    - rewrite Hfc. apply calls_of_key. }
  destruct (run_spared key ttl h ops [] _ s0 Hp0 Hsp) as (Hp1 & Hw).
  fold s1 in Hp1. cbn [app] in Hp1. destruct Hp1 as (P1 & P2 & P3 & P4).
  split; [exact Hr|]. split; [exact Hw|]. split; [exact P4|]. split; [exact P2|].
  split.
  - unfold share_of. now rewrite P3.
  - unfold source_next. rewrite P3. cbn [p_share p_key p_ttl].
    destruct (subscribers_of h ops) as [|sub rest]; reflexivity.
Qed.

Lemma wrap_calls_share_pending_witness :
  let ops := [DoWrap 1 "user-1" 60000; DoSubscribe 0 10; DoGet 2 "user-1";
              DoWrap 3 "order-7" 1000; DoSet 4 4 "theme" (VStr "dark") 10;
              DoWrap 5 "user-1" 500; DoSubscribe 0 11] in
  let s0 := snd (wrap 0 "user-1" 60000 CacheService.empty) in
  Forall (eq (Stream 0%nat)) (wrap_results "user-1" ops s0) /\
  calls_of "user-1" (factoryCalls (run ops s0)) = 1%nat /\
  fst (source_next 6 6 0 (VNum 1) (run ops s0))
    = [(10%nat, Next (VNum 1)); (11%nat, Next (VNum 1))].
Proof.
  pose proof (wrap_calls_share_pending CacheService.empty "user-1" 60000 0
                [DoWrap 1 "user-1" 60000; DoSubscribe 0 10; DoGet 2 "user-1";
                 DoWrap 3 "order-7" 1000; DoSet 4 4 "theme" (VStr "dark") 10;
                 DoWrap 5 "user-1" 500; DoSubscribe 0 11] 6 6 (VNum 1)) as H.
  cbn zeta in H.
  assert (H1 : forall e, cache CacheService.empty !! "user-1"%string = Some e ->
                         expiry e < 0).
  { intros e He. vm_compute in He. discriminate He. }
  assert (H2 : observables CacheService.empty !! "user-1"%string = None)
    by reflexivity.
  assert (H3 : spared "user-1"
                 [DoWrap 1 "user-1" 60000; DoSubscribe 0 10; DoGet 2 "user-1";
                  DoWrap 3 "order-7" 1000; DoSet 4 4 "theme" (VStr "dark") 10;
                  DoWrap 5 "user-1" 500; DoSubscribe 0 11]
                 (snd (wrap 0 "user-1" 60000 CacheService.empty))).
  { cbn [spared spares]. repeat split. discriminate. }
  destruct (H H1 H2 H3) as (_ & Hw & Hc & _ & _ & Hn).
  split; [exact Hw|]. split; [exact Hc | exact Hn].
Defined.

End WrapFacts.

(** ** ApiService: URLs, the response cache, retries, optimistic updates *)
Module ApiMoreFacts.
Import ApiService ApiMore.

Lemma endsWith_slash_append b :
  endsWith_slash (String.append b "/") = true.
Proof.
  induction b as [|c b IH]; [reflexivity|].
  change (String.append (String c b) "/") with (String c (String.append b "/")).
  destruct (String.append b "/") eqn:Hb.
  - destruct b; discriminate Hb.
  - exact IH.
Qed.

Lemma slice_0_m1_append b : slice_0_m1 (String.append b "/") = b.
Proof.
  induction b as [|c b IH]; [reflexivity|].
  change (String.append (String c b) "/") with (String c (String.append b "/")).
  destruct (String.append b "/") eqn:Hb.
  - destruct b; discriminate Hb.
  - change (String c (slice_0_m1 (String a s)) = String c b). now rewrite IH.
Qed.

(** X9.  [buildUrl] returns an endpoint that starts with [http://] or
    [https://] as it is, whatever the base.  Any other endpoint is joined
    to the base: for a base [b] that does not end with a slash and an
    endpoint [e] that does not start with one, the four ways of writing
    them ([b] or [b/], [e] or [/e]) all give [b/e]; only one trailing
    slash of the base is dropped, so a base written [b//] gives [b//e];
    without a configured base the URL is the endpoint with a leading
    slash. *)
Theorem buildUrl_joins_with_one_slash (b e : string) :
  endsWith_slash b = false ->
  String.prefix "/" e = false ->
  String.prefix "http://" e = false ->
  String.prefix "https://" e = false ->
  let url := String.append b (String.append "/" e) in
  buildUrl (Some b) e = url /\
  buildUrl (Some (String.append b "/")) e = url /\
  buildUrl (Some b) (String.append "/" e) = url /\
  buildUrl (Some (String.append b "/")) (String.append "/" e) = url /\
  buildUrl None e = String.append "/" e /\
  buildUrl (Some (String.append (String.append b "/") "/")) e
    = String.append (String.append b "/") (String.append "/" e) /\
  (forall (base : option string) (a : string),
     String.prefix "http://" a = true \/ String.prefix "https://" a = true ->
     buildUrl base a = a).
Proof.
  intros Hb He Hh Hs url.
  assert (Habs : forall (base : option string) (a : string),
            String.prefix "http://" a = true \/ String.prefix "https://" a = true ->
            buildUrl base a = a).
  { intros base a [Ha|Ha]; unfold buildUrl; rewrite Ha; [reflexivity|].
    now rewrite orb_true_r. }
  assert (Hrel : String.prefix "http://" (String.append "/" e) = false /\
                 String.prefix "https://" (String.append "/" e) = false /\
                 String.prefix "/" (String.append "/" e) = true).
  { cbn. repeat split. now destruct e. }
  destruct Hrel as (Hh' & Hs' & Hp').
  assert (He1 : forall base,
            buildUrl base e
            = String.append
                (if endsWith_slash (default ""%string base)
                 then slice_0_m1 (default ""%string base)
                 else default ""%string base)
                (String.append "/" e)).
  { intros base. unfold buildUrl. now rewrite Hh, Hs, He. }
  assert (He2 : forall base,
            buildUrl base (String.append "/" e)
            = String.append
                (if endsWith_slash (default ""%string base)
                 then slice_0_m1 (default ""%string base)
                 else default ""%string base)
                (String.append "/" e)).
  { intros base. unfold buildUrl. now rewrite Hh', Hs', Hp'. }
  rewrite !He1, !He2. cbn [from_option id].
  rewrite Hb, !endsWith_slash_append, !slice_0_m1_append.
  split; [reflexivity|]. split; [reflexivity|]. split; [reflexivity|].
  split; [reflexivity|]. split; [reflexivity|]. split; [reflexivity | exact Habs].
Qed.

Lemma buildUrl_joins_with_one_slash_witness :
  buildUrl (Some "/api/"%string) "/users" = "/api/users"%string /\
  buildUrl (Some "/api"%string) "users" = "/api/users"%string /\
  buildUrl (Some "/api//"%string) "users" = "/api//users"%string /\
  buildUrl (Some "/api"%string) "https://cdn.example.com/logo.png"
    = "https://cdn.example.com/logo.png"%string.
Proof.
  pose proof (buildUrl_joins_with_one_slash "/api" "users") as H.
  cbn zeta in H.
  destruct (H eq_refl eq_refl eq_refl eq_refl) as (H1 & _ & _ & H4 & _ & H6 & H7).
  split; [exact H4|]. split; [exact H1|]. split; [exact H6|].
  apply H7. right. reflexivity.
Defined.

(** X10.  [clearCache(key)] with a non-empty key removes that entry and
    no other; [clearCache('')] empties the whole response cache, exactly
    as [clearCache()] does.  Streams and exchanges are not touched. *)
Theorem clearCache_one_or_all (k : string) (s : t) :
  k <> ""%string ->
  responses (clearCache (Some k) s) !! k = None /\
  (forall k', k' <> k ->
     responses (clearCache (Some k) s) !! k' = responses s !! k') /\
  responses (clearCache (Some ""%string) s) = ∅ /\
  responses (clearCache None s) = ∅ /\
  requests (clearCache (Some k) s) = requests s /\
  http (clearCache (Some k) s) = http s.
Proof.
  intros Hk. unfold clearCache. apply String.eqb_neq in Hk. rewrite Hk. cbn.
  split; [apply lookup_delete_eq|].
  split; [intros k' Hne; now apply lookup_delete_ne|].
  repeat split.
Qed.

Lemma clearCache_one_or_all_witness :
  let s := setCache 0 "b" (VNum 2) 100 (setCache 0 "a" (VNum 1) 100 ApiService.empty) in
  responses (clearCache (Some "a"%string) s) !! "a"%string = None /\
  responses (clearCache (Some "a"%string) s) !! "b"%string = Some (VNum 2, 100) /\
  responses (clearCache (Some ""%string) s) = ∅.
Proof.
  pose proof (clearCache_one_or_all "a"
                (setCache 0 "b" (VNum 2) 100
                   (setCache 0 "a" (VNum 1) 100 ApiService.empty))) as H.
  assert (H1 : "a"%string <> ""%string) by discriminate.
  destruct (H H1) as (Ha & Hb & He & _).
  cbn zeta. split; [exact Ha|]. split; [|exact He].
  rewrite Hb by discriminate. reflexivity.
Defined.

(** X11.  The response cache of [get]: an entry written at time [t0]
    with time to live [ttl] is served, whatever its data ([null]
    included), by every cache-enabled [get] of the key made strictly
    before [t0 + ttl], without a new request stream; at [t0 + ttl] and
    later the entry is deleted and a new request stream is made. *)
Theorem get_serves_entry_before_expiry (s : t) (url : string) (ttl_ : option Z)
    (key_ : option string) (d : value) (t0 t : Z) :
  let k := default url key_ in
  let s1 := setCache t0 k d (default 60000 ttl_) s in
  (t < t0 + default 60000 ttl_ ->
     get t url (caching ttl_ key_) s1 = (Cached d, s1)) /\
  (t0 + default 60000 ttl_ <= t ->
     fst (get t url (caching ttl_ key_) s1) = Fresh (length (requests s)) /\
     responses (snd (get t url (caching ttl_ key_) s1)) !! k = None /\
     length (requests (snd (get t url (caching ttl_ key_) s1)))
       = S (length (requests s))).
Proof.
  intros k s1.
  assert (Hk : responses s1 !! k = Some (d, t0 + default 60000 ttl_))
    by (unfold s1, setCache; cbn; apply lookup_insert_eq).
  split.
  - intros Hlt. unfold get, getFromCache. cbn [cache_enabled caching cache enabled key].
    fold k. rewrite Hk.
    destruct (Z.ltb_spec t (t0 + default 60000 ttl_)); [reflexivity | lia].
  - intros Hge. unfold get, getFromCache. cbn [cache_enabled caching cache enabled key].
    fold k. rewrite Hk.
    destruct (Z.ltb_spec t (t0 + default 60000 ttl_)); [lia|].
    cbn. rewrite length_app. cbn. repeat split; [|lia].
    apply lookup_delete_eq.
Qed.

Lemma get_serves_entry_before_expiry_witness :
  let s1 := setCache 1000 "/users" (VNum 1) 500 ApiService.empty in
  get 1499 "/users" (caching (Some 500) None) s1 = (Cached (VNum 1), s1) /\
  fst (get 1500 "/users" (caching (Some 500) None) s1) = Fresh 0.
Proof.
  cbn zeta. split.
  - destruct (get_serves_entry_before_expiry ApiService.empty "/users" (Some 500) None
                (VNum 1) 1000 1499) as [H _].
    apply H. cbn. lia.
  - destruct (get_serves_entry_before_expiry ApiService.empty "/users" (Some 500) None
                (VNum 1) 1000 1500) as [_ H].
    apply H. cbn. lia.
Defined.

(** X12.  The write-through sits behind [shareReplay(1)]: it runs for
    every subscriber.  So a subscriber that joins a cached stream after
    its answer has arrived, and after the cache has been cleared, gets
    the replayed value and puts it back into the cache with a fresh
    expiry, and no request is sent. *)
Theorem late_subscriber_refills_cache (url : string) (ttl_ : option Z)
    (key_ : option string) (d : value) (t0 t1 t2 : Z) (sub0 sub2 : nat) :
  let k := default url key_ in
  let config := caching ttl_ key_ in
  let s1 := calls url config [(t0, sub0)] ApiService.empty in
  let s2 := snd (respond t1 0 (inl d) s1) in
  let s3 := clearCache None s2 in
  let r := subscribe t2 0 sub2 s3 in
  responses s2 !! k = Some (d, t1 + default 60000 ttl_) /\
  responses s3 !! k = None /\
  fst r = [(sub2, Next d); (sub2, Complete)] /\
  responses (snd r) !! k = Some (d, t2 + default 60000 ttl_) /\
  http (snd r) = [mkExchange 0 None false].
Proof.
  cbn zeta. unfold calls, call. cbn [fold_left fst snd].
  rewrite (ApiFacts.get_miss t0 url ttl_ key_ ApiService.empty) by apply lookup_empty.
  unfold subscribe, respond, clearCache. cbn.
  repeat split; apply lookup_insert_eq.
Qed.

Lemma retryWhen_subscriptions retryConfig script : forall n,
  (subscriptions (retryWhen retryConfig n script)
   <= Z.to_nat (maxRetries retryConfig - Z.of_nat n))%nat /\
  length (delays (retryWhen retryConfig n script))
    = subscriptions (retryWhen retryConfig n script) /\
  (exponentialBackoff retryConfig = true ->
   Forall (fun d => d <= 30000) (delays (retryWhen retryConfig n script))).
Proof.
  induction script as [|o script IH]; intros n.
  - cbn. split; [lia|]. split; [reflexivity | constructor].
  - destruct o as [v|e]; cbn [retryWhen].
    + cbn. split; [lia|]. split; [reflexivity | constructor].
    + unfold retry_scan.
      destruct (Z.leb_spec (maxRetries retryConfig) (Z.of_nat n)) as [Hle|Hgt].
      * cbn. split; [lia|]. split; [reflexivity | constructor].
      * assert (Hstep : forall tail,
                  tail = retryWhen retryConfig (S n) script ->
                  (subscriptions (Waited (retry_delayMs retryConfig (S n)) :: Subscribed :: tail)
                   <= Z.to_nat (maxRetries retryConfig - Z.of_nat n))%nat /\
                  length (delays (Waited (retry_delayMs retryConfig (S n)) :: Subscribed :: tail))
                    = subscriptions (Waited (retry_delayMs retryConfig (S n)) :: Subscribed :: tail) /\
                  (exponentialBackoff retryConfig = true ->
                   Forall (fun d => d <= 30000)
                     (delays (Waited (retry_delayMs retryConfig (S n)) :: Subscribed :: tail)))).
        { intros tail ->. destruct (IH (S n)) as (Hs & Hl & Hd).
          unfold subscriptions, delays in *. cbn [List.filter flat_map length app] in *.
          split; [lia|]. split; [lia|].
          intros Hexp. constructor; [|now apply Hd].
          unfold retry_delayMs. rewrite Hexp. lia. }
        destruct e; try (apply Hstep; reflexivity).
        destruct (includes (retryStatuses retryConfig) status);
          [apply Hstep; reflexivity|].
        cbn. split; [lia|]. split; [reflexivity | constructor].
Qed.

(** X13.  Whatever the request does and however often it fails,
    [withRetry] subscribes to it at most [maxRetries + 1] times (once
    when [maxRetries] is zero or negative), waits once before every
    re-subscription, and with exponential backoff never waits longer than
    30000 ms at a time. *)
Theorem withRetry_bounded (script : list outcome) (config : option PartialRetryConfig) :
  let run := withRetry script config in
  (subscriptions run <= S (Z.to_nat (maxRetries (merge config))))%nat /\
  S (length (delays run)) = subscriptions run /\
  (exponentialBackoff (merge config) = true -> Forall (fun d => d <= 30000) (delays run)).
Proof.
  destruct (retryWhen_subscriptions (merge config) script 0) as (Hs & Hl & Hd).
  cbn zeta. unfold withRetry.
  change (subscriptions (Subscribed :: retryWhen (merge config) 0 script))
    with (S (subscriptions (retryWhen (merge config) 0 script))).
  change (delays (Subscribed :: retryWhen (merge config) 0 script))
    with (delays (retryWhen (merge config) 0 script)).
  rewrite Z.sub_0_r in Hs. split; [lia|]. split; [lia | exact Hd].
Qed.

Lemma withRetry_bounded_witness :
  let script := [Fails (JsError "offline"); Fails (HttpErrorResponse 503);
                 Fails (JsError "offline"); Fails (JsError "offline")] in
  (subscriptions (withRetry script None) <= 4)%nat /\
  Forall (fun d => d <= 30000) (delays (withRetry script None)).
Proof.
  cbn zeta.
  destruct (withRetry_bounded [Fails (JsError "offline"); Fails (HttpErrorResponse 503);
                               Fails (JsError "offline"); Fails (JsError "offline")] None)
    as (H1 & _ & H3).
  split; [exact H1 | apply H3; reflexivity].
Defined.

(** X14.  [optimisticUpdate] applies the optimistic change once, when it
    is called and before any request, also when nobody ever subscribes;
    the request runs once per subscription, and [rollback] runs once per
    subscription that fails, never after a success. *)
Theorem optimisticUpdate_applies_once (subs : list outcome) :
  let run := optimisticUpdate subs in
  head run = Some Applied /\
  count_effect is_applied run = 1%nat /\
  count_effect is_requested run = length subs /\
  count_effect is_rolledBack run = length (List.filter is_failure subs).
Proof.
  cbn zeta. unfold optimisticUpdate, count_effect. cbn [head List.filter is_applied
    is_requested is_rolledBack length].
  split; [reflexivity|].
  induction subs as [|o subs (IHa & IHq & IHr)]; [easy|].
  cbn [flat_map]. rewrite !List.filter_app, !length_app.
  injection IHa as IHa. rewrite IHa, IHq, IHr.
  destruct o; cbn; repeat split; lia.
Qed.

End ApiMoreFacts.

(** ** ApiService.batch *)
Module BatchFacts.
Import ApiService Batch.

Lemma filled_lookup vs done j :
  (j < length vs)%nat ->
  filled vs done !! j = Some (if bool_decide (j ∈ done) then vs !! j else None).
Proof.
  intros Hj. unfold filled. rewrite list_lookup_fmap, lookup_seq_lt by exact Hj.
  reflexivity.
Qed.

Lemma filled_length vs done : length (filled vs done) = length vs.
Proof. unfold filled. now rewrite length_fmap, length_seq. Qed.

Lemma filled_nil vs : filled vs [] = replicate (length vs) None.
Proof.
  apply list_eq. intros j. destruct (Nat.lt_ge_cases j (length vs)) as [Hj|Hj].
  - rewrite filled_lookup by exact Hj. rewrite lookup_replicate_2 by exact Hj.
    reflexivity.
  - rewrite (lookup_ge_None_2 (filled vs [])) by (rewrite filled_length; exact Hj).
    symmetry. apply lookup_replicate_None. exact Hj.
Qed.

Lemma filled_insert vs done i v :
  vs !! i = Some v ->
  <[i := Some v]> (filled vs done) = filled vs (done ++ [i]).
Proof.
  intros Hv. assert (Hi : (i < length vs)%nat) by (apply lookup_lt_is_Some; eauto).
  apply list_eq. intros j. destruct (Nat.lt_ge_cases j (length vs)) as [Hj|Hj].
  - rewrite (filled_lookup vs (done ++ [i])) by exact Hj.
    destruct (decide (i = j)) as [<-|Hne].
    + rewrite list_lookup_insert_eq by (rewrite filled_length; exact Hi).
      rewrite bool_decide_eq_true_2 by (apply elem_of_app; right; constructor).
      now rewrite Hv.
    + rewrite list_lookup_insert_ne by exact Hne. rewrite filled_lookup by exact Hj.
      destruct (bool_decide (j ∈ done)) eqn:Hd.
      * apply bool_decide_eq_true_1 in Hd.
        rewrite bool_decide_eq_true_2 by (apply elem_of_app; now left). reflexivity.
      * apply bool_decide_eq_false_1 in Hd.
        rewrite bool_decide_eq_false_2; [reflexivity|].
        intros [Hin|Hin]%elem_of_app; [contradiction|].
        apply list_elem_of_singleton in Hin. congruence.
  - rewrite !lookup_ge_None_2; [reflexivity| |];
      rewrite ?length_insert, filled_length; exact Hj.
Qed.

Lemma filled_all vs done :
  (forall j, (j < length vs)%nat -> j ∈ done) ->
  filled vs done = Some <$> vs.
Proof.
  intros Hall. apply list_eq. intros j.
  destruct (Nat.lt_ge_cases j (length vs)) as [Hj|Hj].
  - rewrite filled_lookup by exact Hj.
    rewrite bool_decide_eq_true_2 by (now apply Hall).
    rewrite list_lookup_fmap.
    destruct (lookup_lt_is_Some_2 vs j Hj) as [w Hw]. now rewrite Hw.
  - rewrite !lookup_ge_None_2; [reflexivity| |];
      rewrite ?length_fmap, ?filled_length; exact Hj.
Qed.

(** One more request answers, not the last one. *)
Lemma answer_step vs done i v s :
  answered vs done s -> vs !! i = Some v ->
  (S (length done) < length vs)%nat ->
  answered vs (done ++ [i]) (run [OnNext i v; OnComplete i] s).
Proof.
  unfold answered. intros -> Hv Hlt. unfold run.
  cbn [fold_left handle count completed hasError results closed emitted negb].
  destruct (Nat.eqb_spec (S (length done)) (length vs)) as [Heq|_]; [lia|].
  cbn [andb]. rewrite (filled_insert _ _ _ _ Hv). f_equal.
  rewrite length_app. cbn. lia.
Qed.

Lemma answers_cons vs i v order :
  vs !! i = Some v ->
  answers vs (i :: order) = [OnNext i v; OnComplete i] ++ answers vs order.
Proof. intros Hv. unfold answers. cbn [flat_map]. now rewrite Hv. Qed.

Lemma answers_prefix vs todo : forall done s,
  answered vs done s ->
  (forall i, i ∈ todo -> (i < length vs)%nat) ->
  (length done + length todo < length vs)%nat ->
  answered vs (done ++ todo) (run (answers vs todo) s).
Proof.
  induction todo as [|i todo IH]; intros done s Hs Hb Hlen.
  - now rewrite app_nil_r.
  - assert (Hi : (i < length vs)%nat) by (apply Hb; constructor).
    destruct (lookup_lt_is_Some_2 vs i Hi) as [v Hv].
    rewrite (answers_cons _ _ _ _ Hv). unfold run. rewrite fold_left_app.
    fold (run [OnNext i v; OnComplete i] s).
    fold (run (answers vs todo) (run [OnNext i v; OnComplete i] s)).
    cbn [length] in Hlen.
    replace (done ++ i :: todo) with ((done ++ [i]) ++ todo)
      by (now rewrite <- app_assoc).
    apply IH.
    + apply answer_step; [exact Hs | exact Hv | lia].
    + intros j Hj. apply Hb. now constructor.
    + rewrite length_app. cbn. lia.
Qed.

(** X15.  Parallel mode, every request answering with one value: in
    whatever order the requests answer, the stream emits once, the array
    of the values in the order of the requests, and completes. *)
Theorem batch_parallel_keeps_request_order (vs : list value) (order : list nat) :
  vs <> [] ->
  order ≡ₚ seq 0 (length vs) ->
  emitted (run (answers vs order) (start (length vs))) = [Results (Some <$> vs); Done].
Proof.
  intros Hne Hperm.
  assert (Hlen : length order = length vs)
    by (rewrite Hperm; apply length_seq).
  assert (Hmem : forall j, j ∈ order <-> (j < length vs)%nat).
  { intros j. rewrite Hperm, elem_of_seq. lia. }
  assert (Hone : order <> []).
  { intros ->. destruct vs; [contradiction | discriminate Hlen]. }
  destruct (exists_last Hone) as (init & i & ->).
  rewrite length_app in Hlen. cbn in Hlen.
  assert (Hi : (i < length vs)%nat) by (apply Hmem, elem_of_app; right; constructor).
  destruct (lookup_lt_is_Some_2 vs i Hi) as [v Hv].
  assert (Hs0 : answered vs [] (start (length vs))).
  { unfold answered, start. now rewrite filled_nil. }
  assert (Hinit : answered vs init (run (answers vs init) (start (length vs)))).
  { apply (answers_prefix vs init [] _ Hs0).
    - intros j Hj. apply Hmem, elem_of_app. now left.
    - cbn. lia. }
  unfold answers. rewrite flat_map_app. fold (answers vs init). cbn [flat_map].
  rewrite Hv, app_nil_r. unfold run. rewrite fold_left_app.
  fold (run (answers vs init) (start (length vs))).
  unfold answered in Hinit. rewrite Hinit.
  cbn [fold_left handle count completed hasError results closed emitted negb].
  destruct (Nat.eqb_spec (S (length init)) (length vs)) as [_|Hneq]; [|lia].
  cbn. rewrite (filled_insert _ _ _ _ Hv).
  rewrite filled_all; [reflexivity|]. intros j Hj. now apply Hmem.
Qed.

Lemma batch_parallel_keeps_request_order_witness :
  emitted (run (answers [VStr "users"; VStr "roles"; VStr "permissions"] [2; 0; 1]%nat)
             (start 3))
    = [Results [Some (VStr "users"); Some (VStr "roles"); Some (VStr "permissions")];
       Done].
Proof.
  apply (batch_parallel_keeps_request_order
           [VStr "users"; VStr "roles"; VStr "permissions"] [2; 0; 1]%nat).
  - discriminate.
  - cbn. apply Permutation_sym.
    apply (Permutation_cons_app [2%nat] [1%nat] 0%nat).
    apply perm_swap.
Defined.

Lemma run_no_error pre : forall s,
  Forall (fun ev => is_error ev = false) pre ->
  hasError s = false -> closed s = false -> emitted s = [] ->
  (completed s + length (List.filter is_complete pre) < count s)%nat ->
  let s1 := run pre s in
  hasError s1 = false /\ closed s1 = false /\ emitted s1 = [] /\ count s1 = count s.
Proof.
  induction pre as [|ev pre IH]; intros s Hall He Hc Hem Hlt; [easy|].
  inversion Hall as [|? ? Hev Hrest]; subst. cbn [run fold_left].
  fold (run pre (handle ev s)). cbn [List.filter] in Hlt.
  destruct ev as [i v|i e|i]; cbn [is_error is_complete] in *; [|discriminate Hev|].
  - destruct (IH (handle (OnNext i v) s) Hrest) as (H1 & H2 & H3 & H4);
      try assumption. easy.
  - cbn [length] in Hlt.
    assert (Hh : handle (OnComplete i) s
                 = mk (count s) (results s) (S (completed s)) (hasError s) (closed s)
                      (emitted s)).
    { cbn [handle count completed hasError results closed emitted negb].
      destruct (Nat.eqb_spec (S (completed s)) (count s)) as [Heq|_]; [lia|].
      reflexivity. }
    rewrite Hh.
    destruct (IH (mk (count s) (results s) (S (completed s)) (hasError s) (closed s)
                     (emitted s)) Hrest) as (H1 & H2 & H3 & H4);
      try assumption; [cbn; lia|]. easy.
Qed.

Lemma run_after_error post : forall s,
  hasError s = true -> emitted (run post s) = emitted s.
Proof.
  induction post as [|ev post IH]; intros s He; [reflexivity|].
  cbn [run fold_left]. fold (run post (handle ev s)).
  destruct ev as [i v|i e|i].
  - rewrite IH by exact He. reflexivity.
  - cbn [handle]. rewrite He. now apply IH.
  - cbn [handle]. cbn zeta. cbn [hasError]. rewrite He, andb_false_r.
    rewrite IH by reflexivity. reflexivity.
Qed.

(** X16.  Parallel mode: the first error of any request, arriving
    before all requests have completed, is the only thing the stream
    ever emits: no array of results before it or after it, no second
    error, no completion, whatever the other requests do. *)
Theorem batch_parallel_first_error_only (n : nat) (pre post : list event)
    (i : nat) (e : error) :
  Forall (fun ev => is_error ev = false) pre ->
  (length (List.filter is_complete pre) < n)%nat ->
  emitted (run (pre ++ OnError i e :: post) (start n)) = [Failed e].
Proof.
  intros Hall Hlt. unfold run. rewrite fold_left_app.
  fold (run pre (start n)). cbn [fold_left].
  destruct (run_no_error pre (start n) Hall) as (He & Hc & Hem & _);
    try reflexivity; [cbn; lia|].
  fold (run post (handle (OnError i e) (run pre (start n)))).
  assert (Hh : hasError (handle (OnError i e) (run pre (start n))) = true /\
               emitted (handle (OnError i e) (run pre (start n))) = [Failed e]).
  { cbn [handle]. rewrite He. unfold subscriber_error. cbn [closed]. rewrite Hc.
    cbn. now rewrite Hem. }
  destruct Hh as (Hh1 & Hh2). now rewrite run_after_error.
Qed.

Lemma batch_parallel_first_error_only_witness :
  emitted (run ([OnNext 0 (VNum 1); OnComplete 0]
                ++ OnError 1 (ApiErrorResponse "500")
                   :: [OnNext 2 (VNum 3); OnComplete 2; OnError 2 (JsError "late")])
             (start 3))
    = [Failed (ApiErrorResponse "500")].
Proof.
  apply (batch_parallel_first_error_only 3 [OnNext 0 (VNum 1); OnComplete 0]).
  - repeat constructor.
  - cbn. lia.
Defined.

Lemma sequential_from_successes vs : forall rest acc called,
  sequential_from (map Succeeds vs ++ rest) acc called
    = sequential_from rest (acc ++ vs) (called + length vs).
Proof.
  induction vs as [|v vs IH]; intros rest acc called; cbn.
  - now rewrite app_nil_r, Nat.add_0_r.
  - rewrite IH, <- app_assoc. cbn. f_equal. lia.
Qed.

(** X17.  Sequential mode, requests that end with one value or an
    error: when all succeed the stream emits the values in the order of
    the requests and completes, every request function having been called
    once; at the first failure the stream fails with that error and the
    request functions after it are never called.  An empty batch emits
    the empty array and completes. *)
Theorem batch_sequential_stops_at_failure (vs : list value) (e : error)
    (rest : list outcome) :
  sequential (map Succeeds vs) = (length vs, [Results (Some <$> vs); Done]) /\
  sequential (map Succeeds vs ++ Fails e :: rest) = (S (length vs), [Failed e]) /\
  sequential [] = (0%nat, [Results []; Done]).
Proof.
  unfold sequential. split; [|split; [|reflexivity]].
  - rewrite <- (app_nil_r (map Succeeds vs)), sequential_from_successes. reflexivity.
  - rewrite sequential_from_successes. reflexivity.
Qed.

(** X18.  Parallel mode emits nothing before every request has
    completed: as long as no request has failed and fewer than all of
    them have completed, the stream has emitted nothing and is still
    open, whatever values have arrived. *)
Theorem batch_parallel_waits_for_all (n : nat) (pre : list event) :
  Forall (fun ev => is_error ev = false) pre ->
  (length (List.filter is_complete pre) < n)%nat ->
  emitted (run pre (start n)) = [] /\ closed (run pre (start n)) = false.
Proof.
  intros Hall Hlt.
  destruct (run_no_error pre (start n) Hall) as (_ & Hc & Hem & _);
    try reflexivity; [cbn; lia|].
  split; [exact Hem | exact Hc].
Qed.

Lemma batch_parallel_waits_for_all_witness :
  emitted (run [OnNext 1 (VNum 20); OnComplete 1; OnNext 0 (VNum 10)] (start 2)) = [] /\
  closed (run [OnNext 1 (VNum 20); OnComplete 1; OnNext 0 (VNum 10)] (start 2)) = false.
Proof.
  apply (batch_parallel_waits_for_all 2
           [OnNext 1 (VNum 20); OnComplete 1; OnNext 0 (VNum 10)]).
  - repeat constructor.
  - cbn. lia.
Defined.

(** With no request at all there is no inner stream whose completion
    could make the stream emit: it emits nothing and never completes
    (where sequential mode emits the empty array). *)
Remark batch_parallel_of_nothing (order : list nat) :
  answers [] order = [] /\
  emitted (run (answers [] order) (start 0)) = [] /\
  closed (run (answers [] order) (start 0)) = false.
Proof.
  assert (H : answers [] order = []).
  { unfold answers. induction order as [|i order IH]; [reflexivity|]. exact IH. }
  rewrite H. repeat split.
Qed.

End BatchFacts.

(** ** ApiService.poll *)
Module PollFacts.
Import ApiService Poll.



Lemma source_continue ticks : source true ticks = Next <$> successes ticks.
Proof.
  induction ticks as [|o ticks IH]; [reflexivity|].
  destruct o as [[v|e]|]; cbn; [now rewrite IH | exact IH | exact IH].
Qed.

Lemma source_values_sublist continue ticks :
  sublist (values (source continue ticks)) (successes ticks).
Proof.
  induction ticks as [|o ticks IH]; [constructor|].
  destruct o as [[v|e]|]; cbn; [now constructor | | exact IH].
  destruct continue; [exact IH | apply sublist_nil_l].
Qed.

Lemma distinct_values_sublist compare ns : forall prev,
  sublist (values (distinctUntilChanged compare prev ns)) (values ns).
Proof.
  induction ns as [|n ns IH]; intros prev; [constructor|].
  destruct n as [v|e|]; cbn [distinctUntilChanged].
  - destruct prev as [p|]; [destruct (compare p v)|]; cbn.
    + constructor. apply IH.
    + constructor. apply IH.
    + constructor. apply IH.
  - cbn. apply IH.
  - cbn. apply IH.
Qed.

Lemma distinct_changes compare ns : forall prev,
  match prev with
  | Some p => changes compare (p :: values (distinctUntilChanged compare prev ns))
  | None => changes compare (values (distinctUntilChanged compare prev ns))
  end.
Proof.
  induction ns as [|n ns IH]; intros prev.
  - destruct prev; exact I.
  - destruct n as [v|e|]; cbn [distinctUntilChanged].
    + destruct prev as [p|]; [destruct (compare p v) eqn:Hc|].
      * apply (IH (Some p)).
      * cbn [values flat_map app]. split; [exact Hc|]. apply (IH (Some v)).
      * apply (IH (Some v)).
    + apply (IH prev).
    + apply (IH prev).
Qed.

Lemma distinct_only_values compare vs : forall prev,
  exists ws, distinctUntilChanged compare prev (Next <$> vs) = Next <$> ws.
Proof.
  induction vs as [|v vs IH]; intros prev; [now exists []|].
  cbn. destruct prev as [p|]; [destruct (compare p v)|].
  - apply IH.
  - destruct (IH (Some v)) as [ws ->]. now exists (v :: ws).
  - destruct (IH (Some v)) as [ws ->]. now exists (v :: ws).
Qed.


Lemma same_json_eq a b : same_json a b = true <-> a = b.
Proof.
  destruct a, b; cbn; try (split; [discriminate|congruence]); try easy.
  - rewrite Z.eqb_eq. split; congruence.
  - rewrite String.eqb_eq. split; congruence.
  - rewrite Bool.eqb_true_iff. split; congruence.
Qed.

(** X19.  [emitOnlyOnChange]: the stream emits some of the values the
    requests answered, in their order, and none that [compareFn] (or the
    JSON comparison when no [compareFn] is given) finds equal to the
    value emitted before it. *)
Theorem poll_emitOnlyOnChange_no_repeat (config : PollingConfig)
    (ticks : list (option outcome)) :
  emitOnlyOnChange config = true ->
  changes (default same_json (compareFn config)) (values (poll config ticks)) /\
  sublist (values (poll config ticks)) (successes ticks).
Proof.
  intros Hc. unfold poll. rewrite Hc. split.
  - apply (distinct_changes _ _ None).
  - etransitivity; [apply distinct_values_sublist | apply source_values_sublist].
Qed.

Lemma poll_emitOnlyOnChange_no_repeat_witness :
  let config := mkConfig (Some 5000) None true None true in
  let ticks := [Some (Succeeds (VNum 1)); Some (Succeeds (VNum 1)); None;
                Some (Fails (ApiErrorResponse "500")); Some (Succeeds (VNum 2));
                Some (Succeeds (VNum 1))] in
  changes same_json (values (poll config ticks)) /\
  sublist (values (poll config ticks)) (successes ticks).
Proof.
  apply (poll_emitOnlyOnChange_no_repeat
           (mkConfig (Some 5000) None true None true)).
  reflexivity.
Defined.

(** X20.  [continueOnError]: a failed request is dropped and polling goes
    on; the stream never fails, and without [emitOnlyOnChange] it emits
    exactly the values of the requests that answered before the next
    tick. *)
Theorem poll_continueOnError_never_fails (config : PollingConfig)
    (ticks : list (option outcome)) :
  continueOnError config = true ->
  (exists vs, poll config ticks = Next <$> vs) /\
  (emitOnlyOnChange config = false -> poll config ticks = Next <$> successes ticks).
Proof.
  intros Hc. unfold poll. rewrite Hc, source_continue. split.
  - destruct (emitOnlyOnChange config); [apply distinct_only_values | eauto].
  - now intros ->.
Qed.

Lemma poll_continueOnError_never_fails_witness :
  let config := mkConfig None None false None true in
  let ticks := [Some (Succeeds (VNum 1)); Some (Fails (JsError "offline"));
                Some (Succeeds (VNum 1))] in
  (exists vs, poll config ticks = Next <$> vs) /\
  (emitOnlyOnChange config = false -> poll config ticks = Next <$> successes ticks).
Proof.
  apply (poll_continueOnError_never_fails (mkConfig None None false None true)).
  reflexivity.
Defined.



End PollFacts.

(** ** The paginated stream: guards of [loadMore], failure, [destroy] *)
Module PaginatedMoreFacts.
Import PaginatedStream PaginatedMore.

(** The subscriber leaves the inner subscription, the requests, the
    cache and the clock alone. *)
Lemma deliver_frame response s :
  inflight (deliver response s) = inflight s /\
  requested (deliver response s) = requested s /\
  stopped (deliver response s) = stopped s /\
  loading_v (deliver response s) = false /\
  hasMore_v (deliver response s) = hasNextPage (meta response) /\
  cache_hit (deliver response s) = cache_hit s /\
  data_emitted (deliver response s)
    = (if stopped s then data_emitted s
       else data_emitted s
              ++ [if page_v s =? s_initialPage s then data response
                  else data_v s ++ data response]).
Proof.
  destruct s as [sz ip rc cl ca pg dt ld hm er inf rq de st].
  unfold deliver, cache_hit.
  cbn -[ApiService.cache_enabled Z.eqb Z.add Z.ltb].
  destruct (pg =? ip); destruct st; cbn -[ApiService.cache_enabled Z.eqb Z.add Z.ltb];
    repeat (split; [reflexivity|]); reflexivity.
Qed.

Lemma page_next_stopped p s : stopped s = true -> page_next p s = set_page p s.
Proof. intros H. unfold page_next. now rewrite H. Qed.

(** [page$.next(p)] on a live stream: served from the cache, or sent. *)
Lemma page_next_live p s :
  stopped s = false ->
  page_next p s
    = match cache_hit s with
      | Some response =>
          deliver response (set_inflight None (loading_next true (set_page p s)))
      | None =>
          send p (set_cached
                    (match ApiService.cache_enabled (s_requestConfig s) with
                     | Some _ => None
                     | None => cached s
                     end)
                    (set_inflight None (loading_next true (set_page p s))))
      end.
Proof.
  destruct s as [sz ip rc cl ca pg dt ld hm er inf rq de st].
  cbn [stopped]. intros ->. unfold page_next, getPaginated, cache_hit.
  cbn -[ApiService.cache_enabled Z.eqb Z.add Z.ltb].
  destruct (ApiService.cache_enabled rc) as [cc|]; [|reflexivity].
  destruct ca as [c|]; [|reflexivity].
  destruct (cl <? c_expiry c); reflexivity.
Qed.

Lemma awaiting_ok_step a s : awaiting_ok s -> awaiting_ok (step a s).
Proof.
  unfold awaiting_ok. intros Hs.
  assert (Hpage : forall p s', awaiting_ok s' -> awaiting_ok (page_next p s')).
  { unfold awaiting_ok. intros p s' Hs'. destruct (stopped s') eqn:Hst.
    - rewrite (page_next_stopped _ _ Hst). exact Hs'.
    - rewrite (page_next_live _ _ Hst). destruct (cache_hit s') as [response|].
      + destruct (deliver_frame response
                    (set_inflight None (loading_next true (set_page p s'))))
          as (Hi & _). rewrite Hi. cbn. congruence.
      + reflexivity. }
  destruct a as [| | |response|err|now|entry]; cbn [step].
  - unfold loadMore. destruct (negb (loading_v s) && hasMore_v s); [|exact Hs].
    apply Hpage. exact Hs.
  - unfold reset. apply Hpage. exact Hs.
  - exact Hs.
  - unfold on_response. destruct (inflight s) eqn:Hi; [|now rewrite Hi].
    match goal with |- inflight (deliver ?r ?x) <> None -> _ =>
      destruct (deliver_frame r x) as (Hd & _) end.
    rewrite Hd. cbn. congruence.
  - unfold on_failure. destruct (inflight s) eqn:Hi; [|now rewrite Hi].
    cbn. congruence.
  - exact Hs.
  - exact Hs.
Qed.

Lemma awaiting_ok_run acts : forall s, awaiting_ok s -> awaiting_ok (run acts s).
Proof.
  induction acts as [|a acts IH]; intros s Hs; [exact Hs|].
  cbn [run fold_left]. fold (run acts (step a s)). now apply IH, awaiting_ok_step.
Qed.

Lemma awaiting_ok_created now entry config :
  awaiting_ok (createPaginatedStream now entry config).
Proof.
  unfold createPaginatedStream.
  set (s0 := mk _ _ _ _ _ _ _ _ _ _ _ _ _ _).
  unfold awaiting_ok. rewrite (page_next_live _ s0 eq_refl).
  destruct (cache_hit s0) as [response|]; [|reflexivity].
  destruct (deliver_frame response
              (set_inflight None (loading_next true
                 (set_page (default 1 (config ≫= initialPage_opt)) s0))))
    as (Hi & _).
  rewrite Hi. cbn. congruence.
Qed.

(** X22.  [loadMore()] asks for one page at a time.  Two calls in a row
    send no more requests than one call.  On a stream that has not been
    destroyed and whose next request is not served from the response
    cache, the second call, made before the answer has come, does
    nothing at all. *)
Theorem loadMore_once_per_answer (s : t) :
  requested (loadMore (loadMore s)) = requested (loadMore s) /\
  (stopped s = false -> cache_hit s = None ->
   loadMore (loadMore s) = loadMore s).
Proof.
  split.
  - unfold loadMore at 2 3.
    destruct (negb (loading_v s) && hasMore_v s) eqn:Hg;
      [|unfold loadMore; now rewrite Hg].
    destruct (stopped s) eqn:Hst.
    + rewrite (page_next_stopped _ _ Hst). unfold loadMore.
      cbn [set_page loading_v hasMore_v page_v]. rewrite Hg.
      rewrite page_next_stopped by exact Hst. reflexivity.
    + rewrite (page_next_live _ _ Hst). destruct (cache_hit s) as [response|] eqn:Hh.
      * set (s1 := set_inflight None (loading_next true (set_page (page_v s + 1) s))).
        destruct (deliver_frame response s1) as (_ & Hrq & Hst1 & Hld & Hhm & Hch & _).
        unfold loadMore. rewrite Hld. cbn [negb andb].
        destruct (hasMore_v (deliver response s1)); [|reflexivity].
        rewrite page_next_live by (rewrite Hst1; exact Hst).
        rewrite Hch. change (cache_hit s1) with (cache_hit s). rewrite Hh.
        match goal with |- requested (deliver ?r ?x) = _ =>
          destruct (deliver_frame r x) as (_ & Hrq2 & _) end.
        rewrite Hrq2. reflexivity.
      * unfold loadMore. reflexivity.
  - intros Hst Hh. unfold loadMore at 2 3.
    destruct (negb (loading_v s) && hasMore_v s) eqn:Hg;
      [|unfold loadMore; now rewrite Hg].
    rewrite (page_next_live _ _ Hst), Hh. reflexivity.
Qed.

Lemma loadMore_once_per_answer_witness :
  let s := answer three_pages
             (createPaginatedStream 0 None (Some (mkConfig (Some 2) None None))) in
  stopped s = false /\ cache_hit s = None /\
  loadMore (loadMore s) = loadMore s /\
  requested (loadMore (loadMore s)) = [(1, 2); (2, 2)].
Proof.
  cbn zeta.
  assert (H1 : stopped (answer three_pages
                 (createPaginatedStream 0 None (Some (mkConfig (Some 2) None None))))
               = false) by (vm_compute; reflexivity).
  assert (H2 : cache_hit (answer three_pages
                 (createPaginatedStream 0 None (Some (mkConfig (Some 2) None None))))
               = None) by (vm_compute; reflexivity).
  destruct (loadMore_once_per_answer
              (answer three_pages
                 (createPaginatedStream 0 None (Some (mkConfig (Some 2) None None)))))
    as (Hr & Hs).
  split; [exact H1|]. split; [exact H2|]. split; [exact (Hs H1 H2)|].
  rewrite Hr. vm_compute. reflexivity.
Defined.

(** X23.  After an answer whose [meta.hasNextPage] is false, [loadMore()]
    asks for nothing. *)
Theorem last_page_ends_loadMore (s : t) (p : Z) (response : PaginatedResponse) :
  inflight s = Some p ->
  hasNextPage (meta response) = false ->
  loadMore (on_response response s) = on_response response s /\
  requested (loadMore (on_response response s)) = requested s.
Proof.
  intros Hi Hn.
  assert (Hh : hasMore_v (on_response response s) = false /\
               requested (on_response response s) = requested s).
  { unfold on_response. rewrite Hi.
    match goal with |- hasMore_v (deliver ?r ?x) = _ /\ _ =>
      destruct (deliver_frame r x) as (_ & Hrq & _ & _ & Hhm & _) end.
    rewrite Hhm, Hrq, Hn. split; [reflexivity|].
    destruct (ApiService.cache_enabled (s_requestConfig s)); reflexivity. }
  destruct Hh as (Hhm & Hrq).
  assert (Hl : loadMore (on_response response s) = on_response response s).
  { unfold loadMore. now rewrite Hhm, andb_false_r. }
  split; [exact Hl | now rewrite Hl].
Qed.

Lemma last_page_ends_loadMore_witness :
  let s := loadMore (answer three_pages
             (loadMore (answer three_pages
                (createPaginatedStream 0 None (Some (mkConfig (Some 2) None None)))))) in
  inflight s = Some 3 /\
  loadMore (on_response (three_pages 3 2) s) = on_response (three_pages 3 2) s.
Proof.
  cbn zeta.
  assert (Hi : inflight (loadMore (answer three_pages
             (loadMore (answer three_pages
                (createPaginatedStream 0 None (Some (mkConfig (Some 2) None None)))))))
               = Some 3)
    by (vm_compute; reflexivity).
  split; [exact Hi|].
  apply (last_page_ends_loadMore _ 3 (three_pages 3 2) Hi). reflexivity.
Defined.

(** X24.  A failed page request leaves [loading$] at [true].  In any
    state the stream can reach: the error is in [error$], [data$] keeps
    its items, and [loadMore()] does nothing any more.  On a stream that
    has not been destroyed, [reset()] is what requests again, the first
    page (unless the response cache serves it); after [destroy()] not
    even [reset()] sends a request, and [loading$] stays at [true]. *)
Theorem failed_page_blocks_loadMore (now : Z) (entry : option Cached)
    (config : option Config) (acts : list action) (p : Z) (err : error) :
  let s := run acts (createPaginatedStream now entry config) in
  inflight s = Some p ->
  let s1 := on_failure err s in
  error_v s1 = Some err /\ loading_v s1 = true /\ data_v s1 = data_v s /\
  loadMore s1 = s1 /\
  (stopped s = false -> cache_hit s = None ->
   inflight (reset s1) = Some (s_initialPage s) /\
   requested (reset s1) = requested s ++ [(s_initialPage s, s_pageSize s)]) /\
  (stopped s = true ->
   requested (reset s1) = requested s /\ loading_v (reset s1) = true).
Proof.
  intros s Hi s1.
  assert (Hl : loading_v s = true).
  { apply (awaiting_ok_run acts _ (awaiting_ok_created now entry config)).
    fold s. now rewrite Hi. }
  subst s1. unfold on_failure. rewrite Hi.
  destruct s as [sz ip rc cl ca pg dt ld hm er inf rq de st].
  cbn [loading_v inflight stopped] in *. subst ld.
  split; [reflexivity|]. split; [reflexivity|]. split; [reflexivity|].
  split; [reflexivity|]. split.
  - intros -> Hh. unfold reset. rewrite page_next_live by reflexivity.
    change (cache_hit _) with
      (cache_hit (mk sz ip rc cl ca pg dt true hm er inf rq de false)).
    rewrite Hh. split; reflexivity.
  - intros ->. unfold reset. rewrite page_next_stopped by reflexivity.
    split; reflexivity.
Qed.

Lemma failed_page_blocks_loadMore_witness :
  let s := run [Response (three_pages 1 2); LoadMore]
             (createPaginatedStream 0 None (Some (mkConfig (Some 2) None None))) in
  let s1 := on_failure (ApiErrorResponse "500") s in
  inflight s = Some 2 /\
  error_v s1 = Some (ApiErrorResponse "500") /\ loading_v s1 = true /\
  loadMore s1 = s1.
Proof.
  cbn zeta.
  assert (Hi : inflight (run [Response (three_pages 1 2); LoadMore]
                 (createPaginatedStream 0 None (Some (mkConfig (Some 2) None None))))
               = Some 2)
    by (vm_compute; reflexivity).
  split; [exact Hi|].
  destruct (failed_page_blocks_loadMore 0 None (Some (mkConfig (Some 2) None None))
              [Response (three_pages 1 2); LoadMore] 2 (ApiErrorResponse "500") Hi)
    as (H1 & H2 & _ & H4 & _).
  split; [exact H1|]. split; [exact H2 | exact H4].
Defined.

Lemma step_stopped a s :
  stopped s = true ->
  stopped (step a s) = true /\
  data_emitted (step a s) = data_emitted s /\
  requested (step a s) = requested s.
Proof.
  intros Hst.
  assert (Hdel : forall r x, stopped x = true ->
            stopped (deliver r x) = true /\
            data_emitted (deliver r x) = data_emitted x /\
            requested (deliver r x) = requested x).
  { intros r x Hx. destruct (deliver_frame r x) as (_ & Hrq & Hs & _ & _ & _ & Hde).
    rewrite Hs, Hrq, Hde, Hx. auto. }
  destruct a as [| | |response|err|now|entry]; cbn [step]; [| | | | | |auto].
  - unfold loadMore. destruct (negb (loading_v s) && hasMore_v s); [|auto].
    rewrite (page_next_stopped _ _ Hst). auto.
  - unfold reset. rewrite page_next_stopped by exact Hst.
    cbn. rewrite Hst. auto.
  - auto.
  - unfold on_response. destruct (inflight s); [|auto].
    match goal with |- stopped (deliver ?r ?x) = true /\ _ =>
      destruct (Hdel r x) as (K1 & K2 & K3) end.
    { destruct (ApiService.cache_enabled (s_requestConfig s)); exact Hst. }
    rewrite K1, K2, K3.
    destruct (ApiService.cache_enabled (s_requestConfig s)); auto.
  - unfold on_failure. destruct (inflight s); auto.
  - auto.
Qed.

(** X25.  [destroy()] silences the stream but does not cancel the
    request in flight.  Afterwards, whatever is called and whatever
    arrives, [data$] emits nothing and no request is sent.  The late
    answer of the request in flight still reaches the subscriber, which
    stores its items in [data$] and [false] in [loading$]: the values the
    subjects hold change although nothing is emitted. *)
Theorem destroy_silences_stream (s : t) (acts : list action) :
  stopped (run acts (destroy s)) = true /\
  data_emitted (run acts (destroy s)) = data_emitted s /\
  requested (run acts (destroy s)) = requested s /\
  (forall p response, inflight s = Some p ->
     data_v (on_response response (destroy s))
       = (if page_v s =? s_initialPage s then data response
          else data_v s ++ data response) /\
     loading_v (on_response response (destroy s)) = false /\
     data_emitted (on_response response (destroy s)) = data_emitted s).
Proof.
  assert (Hrun : forall acts x, stopped x = true ->
            stopped (run acts x) = true /\
            data_emitted (run acts x) = data_emitted x /\
            requested (run acts x) = requested x).
  { clear. induction acts as [|a acts IH]; intros x Hx; [auto|].
    cbn [run fold_left]. fold (run acts (step a x)).
    destruct (step_stopped a x Hx) as (H1 & H2 & H3).
    destruct (IH _ H1) as (K1 & K2 & K3). rewrite K2, K3, H2, H3. auto. }
  destruct (Hrun acts (destroy s) eq_refl) as (H1 & H2 & H3).
  split; [exact H1|]. split; [exact H2|]. split; [exact H3|].
  intros p response Hi.
  destruct s as [sz ip rc cl ca pg dt ld hm er inf rq de st].
  cbn [inflight] in Hi. subst inf. unfold on_response, destroy, deliver.
  cbn -[ApiService.cache_enabled Z.eqb Z.add Z.ltb].
  destruct (ApiService.cache_enabled rc);
    cbn -[ApiService.cache_enabled Z.eqb Z.add Z.ltb];
    destruct (pg =? ip); repeat split.
Qed.

Lemma destroy_silences_stream_witness :
  let s := loadMore (answer three_pages
             (createPaginatedStream 0 None (Some (mkConfig (Some 2) None None)))) in
  inflight s = Some 2 /\
  data_v (on_response (three_pages 2 2) (destroy s))
    = [VNum 1; VNum 2; VNum 3; VNum 4] /\
  loading_v (on_response (three_pages 2 2) (destroy s)) = false /\
  data_emitted (on_response (three_pages 2 2) (destroy s)) = [[]; [VNum 1; VNum 2]] /\
  requested (run [Response (three_pages 2 2); LoadMore; Reset] (destroy s))
    = [(1, 2); (2, 2)].
Proof.
  cbn zeta.
  assert (Hi : inflight (loadMore (answer three_pages
                 (createPaginatedStream 0 None (Some (mkConfig (Some 2) None None)))))
               = Some 2) by (vm_compute; reflexivity).
  destruct (destroy_silences_stream
              (loadMore (answer three_pages
                 (createPaginatedStream 0 None (Some (mkConfig (Some 2) None None)))))
              [Response (three_pages 2 2); LoadMore; Reset])
    as (_ & _ & Hr & Hlate).
  destruct (Hlate 2 (three_pages 2 2) Hi) as (Hd & Hl & He).
  split; [exact Hi|].
  split; [rewrite Hd; vm_compute; reflexivity|].
  split; [exact Hl|].
  split; [rewrite He; vm_compute; reflexivity|].
  rewrite Hr. vm_compute. reflexivity.
Defined.

Lemma items_S server size from k :
  items server size from (S k)
    = items server size from k ++ data (server (from + Z.of_nat k) size).
Proof.
  unfold items. rewrite seq_S, flat_map_app. cbn. now rewrite app_nil_r.
Qed.

Lemma more_loads server s :
  ApiService.cache_enabled (s_requestConfig s) = None ->
  loading_v s = false -> hasMore_v s = true -> stopped s = false ->
  page_v s + 1 <> s_initialPage s ->
  more server s
    = mk (s_pageSize s) (s_initialPage s) (s_requestConfig s) (clock s) (cached s)
         (page_v s + 1)
         (data_v s ++ data (server (page_v s + 1) (s_pageSize s))) false
         (hasNextPage (meta (server (page_v s + 1) (s_pageSize s)))) None None
         (requested s ++ [(page_v s + 1, s_pageSize s)])
         (data_emitted s ++ [data_v s ++ data (server (page_v s + 1) (s_pageSize s))])
         false.
Proof.
  destruct s as [sz ip rc cl ca pg dt ld hm er inf rq de st].
  cbn [s_requestConfig loading_v hasMore_v stopped page_v s_initialPage s_pageSize
       clock cached data_v requested data_emitted].
  intros Hc -> -> -> Hne.
  unfold more, loadMore, page_next, getPaginated, send, answer, on_response, deliver.
  cbn -[ApiService.cache_enabled Z.eqb Z.add Z.ltb]. rewrite Hc.
  cbn -[ApiService.cache_enabled Z.eqb Z.add Z.ltb]. rewrite Hc.
  cbn -[ApiService.cache_enabled Z.eqb Z.add Z.ltb].
  destruct (Z.eqb_spec (pg + 1) ip) as [Heq|_]; [contradiction|].
  reflexivity.
Qed.

Lemma loaded_state server now entry config k :
  let size := default 20 (config ≫= pageSize_opt) in
  let first := default 1 (config ≫= initialPage_opt) in
  ApiService.cache_enabled (config ≫= requestConfig) = None ->
  (forall j, (j < k)%nat ->
     hasNextPage (meta (server (first + Z.of_nat j) size)) = true) ->
  let s := loaded server now entry config k in
  s_pageSize s = size /\ s_initialPage s = first /\
  s_requestConfig s = config ≫= requestConfig /\
  page_v s = first + Z.of_nat k /\
  data_v s = items server size first (S k) /\
  loading_v s = false /\
  hasMore_v s = hasNextPage (meta (server (first + Z.of_nat k) size)) /\
  inflight s = None /\ stopped s = false /\
  requested s = (fun j => (first + Z.of_nat j, size)) <$> seq 0 (S k).
Proof.
  intros size first Hc. induction k as [|k IH]; intros Hnext; cbn zeta.
  - unfold loaded. cbn [Nat.iter]. rewrite (PaginatedFacts.created now entry config Hc).
    fold size first. unfold answer, on_response, deliver.
    cbn -[ApiService.cache_enabled Z.eqb Z.add Z.ltb]. rewrite Hc.
    cbn -[ApiService.cache_enabled Z.eqb Z.add Z.ltb]. rewrite Z.eqb_refl.
    unfold items. cbn -[ApiService.cache_enabled Z.eqb Z.add Z.ltb].
    rewrite app_nil_r. change (Z.of_nat 0) with 0. rewrite !Z.add_0_r.
    repeat (split; [reflexivity|]). reflexivity.
  - destruct IH as (Hsz & Hfi & Hrc & Hpg & Hdt & Hld & Hhm & Hin & Hst & Hrq).
    { intros j Hj. apply Hnext. lia. }
    rewrite (Hnext k) in Hhm by lia.
    unfold loaded in *. rewrite Nat.iter_succ.
    set (s0 := Nat.iter k (more server)
                 (answer server (createPaginatedStream now entry config))) in *.
    rewrite (more_loads server s0) by
      (first [rewrite Hrc; exact Hc | assumption | rewrite Hpg, Hfi; lia]).
    cbn [s_pageSize s_initialPage s_requestConfig page_v data_v loading_v hasMore_v
         inflight stopped requested].
    rewrite Hsz, Hfi, Hpg, Hdt, Hrq, Hrc.
    replace (first + Z.of_nat k + 1) with (first + Z.of_nat (S k)) by lia.
    rewrite (items_S server size first (S k)).
    rewrite (seq_S (S k)), fmap_app.
    repeat (split; [reflexivity|]). reflexivity.
Qed.

(** X26.  On a stream whose [requestConfig] does not enable the
    response cache, every page the server announces a successor for can
    be loaded: after the first answer and [k] rounds of [loadMore()] and
    its answer, [data$] holds the items of the pages [initialPage] to
    [initialPage + k] in order, exactly these [k + 1] pages have been
    requested, each once and with the configured page size, and
    [loading$] is back to [false]. *)
Theorem loadMore_accumulates_pages (server : Z -> Z -> PaginatedResponse)
    (now : Z) (entry : option Cached) (config : option Config) (k : nat) :
  let size := default 20 (config ≫= pageSize_opt) in
  let first := default 1 (config ≫= initialPage_opt) in
  ApiService.cache_enabled (config ≫= requestConfig) = None ->
  (forall j, (j < k)%nat ->
     hasNextPage (meta (server (first + Z.of_nat j) size)) = true) ->
  let s := loaded server now entry config k in
  data_v s = items server size first (S k) /\
  requested s = (fun j => (first + Z.of_nat j, size)) <$> seq 0 (S k) /\
  loading_v s = false /\
  hasMore_v s = hasNextPage (meta (server (first + Z.of_nat k) size)).
Proof.
  intros size first Hc Hnext s.
  destruct (loaded_state server now entry config k Hc Hnext)
    as (_ & _ & _ & _ & Hdt & Hld & Hhm & _ & _ & Hrq).
  split; [exact Hdt|]. split; [exact Hrq|]. split; [exact Hld | exact Hhm].
Qed.

Lemma loadMore_accumulates_pages_witness :
  let s := loaded three_pages 0 None (Some (mkConfig (Some 2) None None)) 2 in
  data_v s = items three_pages 2 1 3 /\
  requested s = [(1, 2); (2, 2); (3, 2)] /\
  loading_v s = false /\ hasMore_v s = false.
Proof.
  apply (loadMore_accumulates_pages three_pages 0 None
           (Some (mkConfig (Some 2) None None)) 2).
  - reflexivity.
  - intros j Hj. destruct j as [|[|j]]; [reflexivity | reflexivity | lia].
Defined.

End PaginatedMoreFacts.

(** ** WebSocketService: [disconnect], the heartbeat, answered requests *)
Module WebSocketMoreFacts.
Import WebSocketService.

(** Without a configuration no notification opens a socket or starts a
    reconnect. *)
Lemma handle_unconfigured ev s :
  config s = None ->
  config (handle ev s) = None /\ socket (handle ev s) = socket s /\
  connections (handle ev s) = connections s /\
  reconnects (handle ev s) = reconnects s /\ sent (handle ev s) = sent s.
Proof.
  destruct s as [so co ra hb st lm er cn sl rt se wa ms de]. cbn. intros ->.
  destruct ev as [|wasClean|e|m|]; cbn.
  - unfold on_open, startHeartbeat, reconnects. cbn.
    rewrite List.filter_app, length_app. cbn.
    repeat (split; [reflexivity|]). split; [lia | reflexivity].
  - unfold on_close, reconnect_enabled, reconnects. cbn.
    rewrite List.filter_app, length_app. cbn.
    repeat (split; [reflexivity|]). split; [lia | reflexivity].
  - unfold on_error, reconnect_enabled, reconnects. cbn. destruct de; cbn.
    + repeat (split; [reflexivity|]). reflexivity.
    + rewrite List.filter_app, length_app. cbn.
      repeat (split; [reflexivity|]). split; [lia | reflexivity].
  - unfold on_message. cbn. destruct de; cbn; repeat (split; [reflexivity|]); reflexivity.
  - unfold on_reconnect_timer. cbn. destruct rt as [|d rest]; cbn.
    + repeat (split; [reflexivity|]). reflexivity.
    + destruct de; cbn; [repeat (split; [reflexivity|]); reflexivity|].
      destruct (state_eqb st reconnecting); cbn;
        repeat (split; [reflexivity|]); reflexivity.
Qed.

Lemma run_unconfigured evs : forall s,
  config s = None ->
  config (run evs s) = None /\ socket (run evs s) = socket s /\
  connections (run evs s) = connections s /\
  reconnects (run evs s) = reconnects s /\ sent (run evs s) = sent s.
Proof.
  induction evs as [|ev evs IH]; intros s Hc; [easy|].
  cbn [run fold_left]. fold (run evs (handle ev s)).
  destruct (handle_unconfigured ev s Hc) as (H1 & H2 & H3 & H4 & H5).
  destruct (IH _ H1) as (K1 & K2 & K3 & K4 & K5).
  rewrite K2, K3, K4, K5. easy.
Qed.

(** X27.  [disconnect()] ends reconnecting: whatever comes afterwards
    from the old socket or from a reconnect timer that was armed before
    (a late close that was not clean, an error, the timer firing), no
    socket is opened, no reconnect attempt is started and nothing is
    sent, until [connect] is called again. *)
Theorem disconnect_ends_reconnecting (s : t) (evs : list event) :
  let s1 := run evs (disconnect s) in
  socket s1 = None /\ config s1 = None /\
  connections s1 = connections s /\ reconnects s1 = reconnects s /\
  sent s1 = sent s.
Proof.
  cbn zeta.
  destruct (run_unconfigured evs (disconnect s) eq_refl) as (H1 & H2 & H3 & H4 & H5).
  rewrite H1, H2, H3, H4, H5. unfold disconnect.
  split; [reflexivity|]. split; [reflexivity|]. split; [reflexivity|].
  split; [|reflexivity].
  unfold reconnects. cbn. rewrite List.filter_app, length_app. cbn. lia.
Qed.

(** X28.  A request made while connected goes out once, with the
    generated id and the time as timestamp; the first incoming message of
    type [responseType] carrying that id, arriving before the timeout,
    gives the subscriber its payload and the completion, and nothing
    follows: no timeout error, no second answer. *)
Theorem request_answered_once (s : t) (k : nat) (now : Z) (fresh type_ : string)
    (payload_ : value) (responseType : string) (timeout : option Z)
    (before after : list tick) (m : WebSocketMessage) :
  socket s = Some k -> _state s = connected ->
  Forall (quiet fresh responseType (now + default 30000 timeout)) before ->
  type m = responseType -> id m = Some fresh ->
  let r := fst (request now fresh type_ payload_ responseType timeout s) in
  let s1 := snd (request now fresh type_ payload_ responseType timeout s) in
  sent s1 = sent s ++ [mkMessage type_ payload_ (Some now) (Some fresh)] /\
  warnings s1 = warnings s /\
  rq_received (request_run before r) = [] /\
  rq_received (request_run (before ++ Incoming m :: after) r)
    = [Next (payload m); Complete].
Proof.
  intros Hso Hst Hq Hty Hid r s1.
  assert (Hquiet : request_run before r = r)
    by (apply WebSocketFacts.request_run_quiet; exact Hq).
  split; [|split; [|split]].
  - unfold s1, request, send. cbn [snd]. rewrite Hso, Hst. reflexivity.
  - unfold s1, request, send. cbn [snd]. rewrite Hso, Hst. reflexivity.
  - now rewrite Hquiet.
  - unfold request_run. rewrite fold_left_app. fold (request_run before r).
    rewrite Hquiet. cbn [fold_left request_step].
    assert (Hstep : request_on_message m r
                    = mkRequest fresh type_ responseType
                        (now + default 30000 timeout) false false
                        [Next (payload m); Complete]).
    { unfold request_on_message, r, request. cbn [fst rq_listening rq_responseType
        rq_id rq_type rq_deadline rq_received].
      rewrite Hty, Hid, !String.eqb_refl. reflexivity. }
    rewrite Hstep.
    fold (request_run after (mkRequest fresh type_ responseType
            (now + default 30000 timeout) false false [Next (payload m); Complete])).
    now rewrite WebSocketFacts.request_run_settled.
Qed.

Lemma request_answered_once_witness :
  let s := on_open (connect (WebSocketConfig.mk "wss://api.example.com/ws"
                               None None None None) init) in
  let r := fst (request 1000 "1000-abc" "getUser" (VNum 7) "user" (Some 100) s) in
  rq_received
    (request_run ([At 1050; Incoming (mkMessage "user" VNull None (Some "other"))]
                  ++ Incoming (mkMessage "user" (VStr "ada") None (Some "1000-abc"))
                     :: [At 1100; Incoming (mkMessage "user" (VStr "eve") None
                                              (Some "1000-abc"))]) r)
    = [Next (VStr "ada"); Complete].
Proof.
  cbn zeta.
  apply (request_answered_once
           (on_open (connect (WebSocketConfig.mk "wss://api.example.com/ws"
                                None None None None) init))
           0 1000 "1000-abc" "getUser" (VNum 7) "user" (Some 100)
           [At 1050; Incoming (mkMessage "user" VNull None (Some "other"))]
           [At 1100; Incoming (mkMessage "user" (VStr "eve") None (Some "1000-abc"))]
           (mkMessage "user" (VStr "ada") None (Some "1000-abc"))).
  - reflexivity.
  - reflexivity.
  - constructor; [cbn; lia|]. constructor; [right; discriminate|]. constructor.
  - reflexivity.
  - reflexivity.
Defined.

Lemma attemptReconnect_heartbeat s :
  heartbeatTimer (attemptReconnect s) = heartbeatTimer s.
Proof.
  unfold attemptReconnect. destruct (config s) as [c|]; [|reflexivity].
  cbn. destruct (_ <=? _); reflexivity.
Qed.

(** X29.  The heartbeat pings only while the socket is open: on an open
    connection every tick of the interval sends one [ping] carrying the
    time and a generated id; once the socket has closed, or after
    [disconnect()], a tick sends nothing. *)
Theorem heartbeat_pings_only_while_open (c : WebSocketConfig.t) (s : t)
    (wasClean : bool) (now : Z) (fresh : string) :
  WebSocketConfig.heartbeatInterval c <> Some 0 ->
  let s1 := on_open (connect c s) in
  sent (on_heartbeat now fresh s1)
    = sent s1 ++ [mkMessage "ping" VNull (Some now) (Some fresh)] /\
  on_heartbeat now fresh (on_close wasClean s1) = on_close wasClean s1 /\
  on_heartbeat now fresh (disconnect s1) = disconnect s1.
Proof.
  intros Hhb. cbn zeta. split; [|split].
  - unfold on_heartbeat, on_open, startHeartbeat, connect, createConnection. cbn.
    assert (Hne : (default 30000 (WebSocketConfig.heartbeatInterval c) =? 0) = false).
    { apply Z.eqb_neq. destruct (WebSocketConfig.heartbeatInterval c) as [x|]; cbn.
      - intros ->. now apply Hhb.
      - discriminate. }
    rewrite Hne. cbn. reflexivity.
  - unfold on_heartbeat, on_close.
    destruct (reconnect_enabled _ && negb wasClean).
    + now rewrite attemptReconnect_heartbeat.
    + reflexivity.
  - reflexivity.
Qed.

Lemma heartbeat_pings_only_while_open_witness :
  let s1 := on_open (connect (WebSocketConfig.mk "wss://api.example.com/ws"
                                None None None (Some 5000)) init) in
  sent (on_heartbeat 7000 "7000-xyz" s1)
    = sent s1 ++ [mkMessage "ping" VNull (Some 7000) (Some "7000-xyz")] /\
  on_heartbeat 7000 "7000-xyz" (on_close false s1) = on_close false s1 /\
  on_heartbeat 7000 "7000-xyz" (disconnect s1) = disconnect s1.
Proof.
  exact (heartbeat_pings_only_while_open
           (WebSocketConfig.mk "wss://api.example.com/ws" None None None (Some 5000))
           init false 7000 "7000-xyz" ltac:(discriminate)).
Defined.

End WebSocketMoreFacts.

(** ** [withRetry] around [ApiService.get] *)
Module GetRetryFacts.
Import ApiService.

Lemma subscriptions_backoff retryConfig count : forall from tail,
  subscriptions (backoff retryConfig from count ++ tail)
    = (count + subscriptions tail)%nat.
Proof.
  induction count as [|count IH]; intros from tail; [reflexivity|].
  cbn [backoff app]. unfold subscriptions in *. cbn [List.filter length].
  now rewrite IH.
Qed.

(** X30.  [withRetry] around a [get] whose error handler is not skipped
    never looks at the status: whatever status the server keeps answering
    with and whatever [retryStatuses] holds, the request is sent
    [maxRetries + 1] times before the normalised error is raised. *)
Theorem withRetry_over_get_ignores_status (status : Z) (rc : option RequestConfig)
    (config : option PartialRetryConfig) (k : nat) (rest : list outcome) :
  match rc with Some c => skipErrorHandler c = false | None => True end ->
  maxRetries (merge config) = Z.of_nat k ->
  let failure := get_failure status rc in
  withRetry (repeat failure (S k) ++ rest) config
    = Subscribed :: backoff (merge config) 0 k
        ++ [Raised (ApiErrorResponse (pretty status))] /\
  subscriptions (withRetry (repeat failure (S k) ++ rest) config) = S k.
Proof.
  intros Hrc Hk failure.
  assert (Hf : failure = Fails (ApiErrorResponse (pretty status))).
  { unfold failure, get_failure, handleError.
    destruct rc as [c|]; [now rewrite Hrc | reflexivity]. }
  assert (Hrun : withRetry (repeat failure (S k) ++ rest) config
                 = Subscribed :: backoff (merge config) 0 k
                     ++ [Raised (ApiErrorResponse (pretty status))]).
  { rewrite Hf.
    replace (repeat (Fails (ApiErrorResponse (pretty status))) (S k) ++ rest)
      with (map Fails (repeat (ApiErrorResponse (pretty status)) k)
              ++ Fails (ApiErrorResponse (pretty status)) :: rest).
    - rewrite RetryFacts.withRetry_exhausted.
      + now rewrite repeat_length.
      + rewrite repeat_length. lia.
      + generalize k. intros n. induction n as [|n IHn]; cbn; constructor; easy.
    - rewrite map_repeat. change (Fails (ApiErrorResponse (pretty status)) :: rest)
        with ([Fails (ApiErrorResponse (pretty status))] ++ rest).
      rewrite app_assoc. f_equal.
      change [Fails (ApiErrorResponse (pretty status))]
        with (repeat (Fails (ApiErrorResponse (pretty status))) 1).
      rewrite <- repeat_app. f_equal. lia. }
  split; [exact Hrun|]. rewrite Hrun.
  change (subscriptions (Subscribed :: ?l)) with (S (subscriptions l)).
  unfold subscriptions at 1. cbn [List.filter length].
  fold (subscriptions (backoff (merge config) 0 k
                         ++ [Raised (ApiErrorResponse (pretty status))])).
  rewrite subscriptions_backoff. cbn. lia.
Qed.

Lemma withRetry_over_get_ignores_status_witness :
  let failure := get_failure 404 None in
  subscriptions (withRetry (repeat failure 4 ++ []) None) = 4%nat.
Proof.
  apply (withRetry_over_get_ignores_status 404 None None 3 []).
  - exact I.
  - reflexivity.
Defined.

End GetRetryFacts.
